(** * Calldata visualizer: the encode-and-decompose engine

    A shallow embedding of [lib/calldata-encoder.ts] (the decomposer
    [buildFlatBreakdown] / [parseDynamicData] / [padTo32Bytes], the selector
    computation and [encodeFunctionCall]) and of [processValues] from
    [app/page.tsx], together with the JavaScript primitives they rely on. *)

From Stdlib Require Import String Ascii List ZArith Lia Bool Arith PeanoNat.
From Stdlib Require Import DecimalString Permutation Sorted.
Import ListNotations.
Open Scope string_scope.
Set Warnings "-register-all".

(** ** JavaScript primitives used by the source *)

Module JS.

(** A JavaScript Number as the source uses it: the result of [parseInt],
    i.e. an integer-valued double, or NaN.  ([-0] is identified with [0];
    nothing in the source distinguishes them.) *)
Inductive Num : Type :=
| NaN
| Int (z : Z).

(** Rounding of a mathematical integer to the nearest double (53-bit
    significand, ties to even).  The integers met here are below 2^257,
    far from the overflow threshold. *)
Definition toDouble (z : Z) : Z :=
  let a := Z.abs z in
  let k := (Z.log2 a + 1)%Z in
  if (k <=? 53)%Z then z
  else
    let sh := (k - 53)%Z in
    let q := Z.shiftr a sh in
    let r := Z.land a (Z.ones sh) in
    let half := Z.shiftl 1 (sh - 1) in
    let q' := if (half <? r)%Z || ((r =? half)%Z && Z.odd q)
              then (q + 1)%Z else q in
    (Z.sgn z * Z.shiftl q' sh)%Z.

Definition add (a b : Num) : Num :=
  match a, b with
  | Int x, Int y => Int (toDouble (x + y))
  | _, _ => NaN
  end.

Definition sub (a b : Num) : Num :=
  match a, b with
  | Int x, Int y => Int (toDouble (x - y))
  | _, _ => NaN
  end.

(** [a * 2]: doubling a double is exact. *)
Definition timesTwo (a : Num) : Num :=
  match a with
  | Int x => Int (2 * x)
  | NaN => NaN
  end.

Definition ofNat (n : nat) : Num := Int (Z.of_nat n).

(** [a <= b]; a comparison with NaN is false. *)
Definition le (a b : Num) : Prop :=
  match a, b with
  | Int x, Int y => (x <= y)%Z
  | _, _ => False
  end.

(** [x > 0], the only test [Array.prototype.sort] makes on a comparator
    result besides [x < 0]; NaN counts as [+0]. *)
Definition positive (x : Num) : bool :=
  match x with
  | NaN => false
  | Int z => (0 <? z)%Z
  end.

(** [Math.ceil(n / d)] on small non-negative integers. *)
Definition ceilDiv (n d : nat) : nat := (n + (d - 1)) / d.

(** Number of iterations of [for (let i = 0; i < n; i++)]. *)
Definition loopCount (n : Num) : nat :=
  match n with
  | NaN => 0
  | Int z => Z.to_nat z
  end.

(** *** Strings

    A string is the sequence of its UTF-16 code units, and the code
    units represented are those below 256: an [ascii] with code [n] is
    the code unit [U+00n], so that [String.length] is the [length] of
    the source.  White space is what [trim], the class of white space
    of regular expressions, [parseInt] and [BigInt] skip: among these
    code units the tab, the line feed, the vertical tab, the form feed,
    the carriage return, the space and the no-break space [U+00A0]
    (code 160).  The line terminators among them are the line feed and
    the carriage return. *)

Definition isWhiteSpace (c : ascii) : bool :=
  match c with
  | " "%char => true
  | "009"%char | "010"%char | "011"%char | "012"%char | "013"%char => true
  | "160"%char => true
  | _ => false
  end.

Definition isLineTerminator (c : ascii) : bool :=
  match c with
  | "010"%char | "013"%char => true
  | _ => false
  end.

(** [s.substring(a, b)] on indices that are already non-negative
    integers: both are clamped to the length and swapped when [a > b]. *)
Definition substring (s : string) (a b : nat) : string :=
  let a' := Nat.min a (String.length s) in
  let b' := Nat.min b (String.length s) in
  String.substring (Nat.min a' b') (Nat.max a' b' - Nat.min a' b') s.

(** [s.substring(a)]: up to the end of the string. *)
Definition substringFrom (s : string) (a : nat) : string :=
  substring s a (String.length s).

(** ToIntegerOrInfinity followed by the clamp to [0, len] that
    [substring] applies: NaN becomes 0. *)
Definition toIndex (len : nat) (x : Num) : nat :=
  match x with
  | NaN => 0
  | Int z => Z.to_nat (Z.min (Z.max z 0) (Z.of_nat len))
  end.

Definition substringNum (s : string) (a b : Num) : string :=
  substring s (toIndex (String.length s) a) (toIndex (String.length s) b).

Fixpoint zeros (n : nat) : string :=
  match n with
  | O => ""
  | S n' => String "0" (zeros n')
  end.

(** [s.padStart(n, '0')] and [s.padEnd(n, '0')]. *)
Definition padStart (s : string) (n : nat) : string :=
  zeros (n - String.length s) ++ s.

Definition padEnd (s : string) (n : nat) : string :=
  s ++ zeros (n - String.length s).

Fixpoint startsWith (s p : string) {struct p} : bool :=
  match p with
  | EmptyString => true
  | String a p' =>
      match s with
      | EmptyString => false
      | String b s' => Ascii.eqb a b && startsWith s' p'
      end
  end.

Definition endsWith (s p : string) : bool :=
  (String.length p <=? String.length s)%nat &&
  (String.substring (String.length s - String.length p) (String.length p) s
     =? p).

(** [s.includes(p)]. *)
Fixpoint includes (s p : string) : bool :=
  startsWith s p ||
  match s with
  | EmptyString => false
  | String _ s' => includes s' p
  end.

(** [s.slice(0, -2)]. *)
Definition dropLast2 (s : string) : string :=
  String.substring 0 (String.length s - 2) s.

Fixpoint trimStart (s : string) : string :=
  match s with
  | String c s' => if isWhiteSpace c then trimStart s' else s
  | EmptyString => EmptyString
  end.

Fixpoint trimEnd (s : string) : string :=
  match s with
  | EmptyString => EmptyString
  | String c s' =>
      match trimEnd s' with
      | EmptyString => if isWhiteSpace c then EmptyString
                       else String c EmptyString
      | t => String c t
      end
  end.

Definition trim (s : string) : string := trimEnd (trimStart s).

(** [s.indexOf(c)] and [s.lastIndexOf(c)] for a one-character needle;
    [-1] when absent. *)
Fixpoint indexOf (s : string) (c : ascii) : Z :=
  match s with
  | EmptyString => (-1)%Z
  | String d s' =>
      if Ascii.eqb d c then 0%Z
      else let r := indexOf s' c in
           if (r <? 0)%Z then (-1)%Z else (r + 1)%Z
  end.

Fixpoint lastIndexOf (s : string) (c : ascii) : Z :=
  match s with
  | EmptyString => (-1)%Z
  | String d s' =>
      let r := lastIndexOf s' c in
      if (0 <=? r)%Z then (r + 1)%Z
      else if Ascii.eqb d c then 0%Z else (-1)%Z
  end.

(** Decimal rendering of a small non-negative integer, as a template
    literal does for a loop index. *)
Definition ofIndex (i : nat) : string :=
  NilZero.string_of_uint (Nat.to_uint i).

(** *** parseInt(s, 16) *)

Definition hexDigit (c : ascii) : option Z :=
  let n := Z.of_nat (nat_of_ascii c) in
  if ((48 <=? n) && (n <=? 57))%Z then Some (n - 48)%Z
  else if ((97 <=? n) && (n <=? 102))%Z then Some (n - 87)%Z
  else if ((65 <=? n) && (n <=? 70))%Z then Some (n - 55)%Z
  else None.

(** Value of the longest prefix of hexadecimal digits, with the number
    of digits read. *)
Fixpoint hexPrefix (s : string) (acc : Z) (read : nat) : Z * nat :=
  match s with
  | EmptyString => (acc, read)
  | String c s' =>
      match hexDigit c with
      | Some d => hexPrefix s' (16 * acc + d) (S read)
      | None => (acc, read)
      end
  end.

Definition strip0x (s : string) : string :=
  match s with
  | String "0" (String "x" s') => s'
  | String "0" (String "X" s') => s'
  | _ => s
  end.

Definition parseInt16 (s : string) : Num :=
  let t := trimStart s in
  let '(sign, t) :=
    match t with
    | String "-" t' => ((-1)%Z, t')
    | String "+" t' => (1%Z, t')
    | _ => (1%Z, t)
    end in
  let '(v, read) := hexPrefix (strip0x t) 0 0 in
  match read with
  | O => NaN
  | S _ => Int (toDouble (sign * v))
  end.

(** *** Array.prototype.sort

    The sort is stable; on a comparator that is a consistent ordering its
    result is the unique stable sorted permutation, which a
    left-to-right insertion computes.  [x] goes after [y] only when
    [cmp x y > 0]. *)
Section Sort.
Context {A : Type} (cmp : A -> A -> Num).

Fixpoint insert (x : A) (l : list A) : list A :=
  match l with
  | [] => [x]
  | y :: l' => if positive (cmp x y) then y :: insert x l' else x :: l
  end.

Definition sort (l : list A) : list A := fold_right insert [] l.
End Sort.

End JS.

(** ** ABI parameters (abitype's [AbiParameter]) *)

Inductive AbiParameter : Type :=
  mkParam {
      ptype : string;
      pname : option string;
      pcomponents : option (list AbiParameter)
    }.

(** Helper to determine if a type is dynamic. *)
Fixpoint isDynamic (abiType : AbiParameter) : bool :=
  if JS.endsWith (ptype abiType) "[]"
     || (ptype abiType =? "string")
     || (ptype abiType =? "bytes")
  then true
  else match pcomponents abiType with
       | Some cs => existsb isDynamic cs
       | None => false
       end.

(** ** Breakdown parts *)

(** The text of a part's [description].  The source builds it with a
    template literal; the number a template embeds is kept as a [JS.Num]
    rather than rendered, the fixed words of each template giving the
    constructor. *)
Inductive Description : Type :=
| OffsetToData (offset : JS.Num)      (* `Offset to data at byte ${offset}` *)
| DataLocatedAt (offset : JS.Num)     (* `Data located at byte ${offset}` *)
| NumberText (n : JS.Num)             (* `${length}` *)
| OriginalData (data : string)        (* `Original data: 0x${data}` *)
| RawDynamicData                      (* 'Raw dynamic data' *)
| Keccak256Of (signature : string).   (* `keccak256("${canonicalSignature}")` *)

Inductive CalldataPart : Type :=
  mkPart {
      name : string;
      type : string;
      value : string;
      description : option Description;
      components : option (list CalldataPart)   (* nested structs/dynamic types *)
    }.

(** This record helps manage dynamic items before they are processed. *)
Record DynamicItem : Type :=
  mkItem {
      param : AbiParameter;
      item_name : string;
      offset : JS.Num
    }.

(** Pads a hex string to a full 32-byte word, according to its ABI type. *)
Definition padTo32Bytes (hex : string) (type : string) : string :=
  if JS.startsWith type "uint" || JS.startsWith type "int"
     || (type =? "address")
  then (* Numeric types and addresses are padded on the left. *)
    JS.padStart hex 64
  else if JS.startsWith type "bytes" && negb (JS.endsWith type "]")
  then (* Fixed-size bytesN are padded on the right. *)
    JS.padEnd hex 64
  else hex.

(** The element loop of [parseDynamicData]: [n] iterations left, at index
    [i], with [itemCursor] into [itemsDataHex]. *)
Fixpoint arrayItems (elementType itemsDataHex : string)
         (n i itemCursor : nat) : list CalldataPart :=
  match n with
  | O => []
  | S n' =>
      let itemHex := JS.substring itemsDataHex itemCursor (itemCursor + 64) in
      mkPart ("[" ++ JS.ofIndex i ++ "]") elementType
             ("0x" ++ padTo32Bytes itemHex elementType) None None
        :: arrayItems elementType itemsDataHex n' (S i) (itemCursor + 64)
  end.

Definition Breakdown : Type := list CalldataPart * list CalldataPart.
Definition headParts (b : Breakdown) : list CalldataPart := fst b.
Definition tailParts (b : Breakdown) : list CalldataPart := snd b.

(** A recorded dynamic item together with the call that will parse its
    content, [parseDynamicData item.param], still waiting for its window. *)
Definition Pending : Type := DynamicItem * (string -> list CalldataPart).

(** The comparator of the sort, [(a, b) => a.offset - b.offset]. *)
Definition compareItems (a b : DynamicItem) : JS.Num :=
  JS.sub (offset a) (offset b).

Definition compareOffsets (a b : Pending) : JS.Num :=
  compareItems (fst a) (fst b).

(** The body of [buildFlatBreakdown], with its two recursive uses taken as
    arguments: [nested p] is [buildFlatBreakdown(p.components, _)] and
    [parseDyn p] is [parseDynamicData(p, _)]. *)
Section BuildFlatBreakdown.
Variable nested : AbiParameter -> string -> Breakdown.
Variable parseDyn : AbiParameter -> string -> list CalldataPart.
Variable encodedDataHex : string.

(** First pass: process the head and collect dynamic items. *)
Fixpoint firstPass (params : list AbiParameter) (i headCursor : nat)
  : list CalldataPart * list Pending :=
  match params with
  | [] => ([], [])
  | p :: rest =>
      let paramName :=
        match pname p with
        | Some n => if n =? "" then "param" ++ JS.ofIndex i else n
        | None => "param" ++ JS.ofIndex i
        end in
      let partName := paramName ++ " (" ++ ptype p ++ ")" in
      if isDynamic p then
        let headSlotHex :=
          JS.substring encodedDataHex headCursor (headCursor + 64) in
        let off := JS.parseInt16 headSlotHex in
        let '(hs, ds) := firstPass rest (S i) (headCursor + 64) in
        (mkPart partName "bytes32" ("0x" ++ headSlotHex)
                (Some (OffsetToData off)) None :: hs,
         (mkItem p paramName off, parseDyn p) :: ds)
      else
        match pcomponents p, ptype p =? "tuple" with
        | Some cs, true =>
            (* Static tuple: its components are inlined in the head. *)
            let tupleDataLength := List.length cs * 64 in
            let staticTupleData :=
              JS.substring encodedDataHex headCursor
                           (headCursor + tupleDataLength) in
            let n := nested p staticTupleData in
            let '(hs, ds) :=
              firstPass rest (S i) (headCursor + tupleDataLength) in
            (mkPart partName "tuple" ("0x" ++ staticTupleData) None
                    (Some (headParts n ++ tailParts n)%list) :: hs,
             ds)
        | _, _ =>
            (* Simple static type *)
            let headSlotHex :=
              JS.substring encodedDataHex headCursor (headCursor + 64) in
            let '(hs, ds) := firstPass rest (S i) (headCursor + 64) in
            (mkPart partName "bytes32"
                    ("0x" ++ padTo32Bytes headSlotHex (ptype p)) None None
               :: hs,
             ds)
        end
  end.

(** The loop over the sorted dynamic items. *)
Fixpoint tailPass (dynamicItems : list Pending) : list CalldataPart :=
  match dynamicItems with
  | [] => []
  | (item, parse) :: rest =>
      let dataStart := JS.timesTwo (offset item) in
      (* The data for this item runs from its start to the start of the
         next item, or to the end. *)
      let dataEnd :=
        match rest with
        | (nextItem, _) :: _ => JS.timesTwo (offset nextItem)
        | [] => JS.ofNat (String.length encodedDataHex)
        end in
      let itemDataHex := JS.substringNum encodedDataHex dataStart dataEnd in
      mkPart ("Tail for " ++ item_name item) (ptype (param item))
             "(see components)" (Some (DataLocatedAt (offset item)))
             (Some (parse itemDataHex))
        :: tailPass rest
  end.

Definition buildWith (params : list AbiParameter) : Breakdown :=
  let '(hs, dynamicItems) := firstPass params 0 0 in
  (hs, tailPass (JS.sort compareOffsets dynamicItems)).
End BuildFlatBreakdown.

(** Parses a chunk of data belonging to a single dynamic item;
    [nestedBreakdown p] is [buildFlatBreakdown] on the components of [p]. *)
Fixpoint parseDynamicData (param : AbiParameter) (dataHex : string)
         {struct param} : list CalldataPart :=
  if JS.endsWith (ptype param) "[]" then
    let elementType := JS.dropLast2 (ptype param) in
    let length := JS.parseInt16 (JS.substring dataHex 0 64) in
    mkPart "length" "uint256" ("0x" ++ JS.substring dataHex 0 64)
           (Some (NumberText length)) None
      :: arrayItems elementType (JS.substringFrom dataHex 64)
                    (JS.loopCount length) 0 0
  else if (ptype param =? "string") || (ptype param =? "bytes") then
    let length := JS.parseInt16 (JS.substring dataHex 0 64) in
    let data :=
      JS.substringNum dataHex (JS.Int 64)
                      (JS.add (JS.Int 64) (JS.timesTwo length)) in
    (* For strings and bytes, the data is padded to a multiple of 32 bytes. *)
    let paddedData :=
      JS.padEnd data (JS.ceilDiv (String.length data) 64 * 64) in
    [ mkPart "length" "uint256" ("0x" ++ JS.substring dataHex 0 64)
             (Some (NumberText length)) None;
      mkPart "value" (if ptype param =? "string" then "utf8" else "hex")
             ("0x" ++ paddedData) (Some (OriginalData data)) None ]
  else
    match pcomponents param with
    | Some cs =>
        (* It's a dynamic tuple, so we parse its contents flatly. *)
        let b := buildWith nestedBreakdown parseDynamicData dataHex cs in
        (headParts b ++ tailParts b)%list
    | None =>
        (* Fallback for any other unhandled types *)
        [ mkPart "data" "bytes" ("0x" ++ dataHex) (Some RawDynamicData) None ]
    end
with nestedBreakdown (param : AbiParameter) (hex : string)
     {struct param} : Breakdown :=
  match pcomponents param with
  | Some cs => buildWith nestedBreakdown parseDynamicData hex cs
  | None => ([], [])
  end.

(** Builds a flat breakdown of calldata, separating head and tail parts. *)
Definition buildFlatBreakdown (params : list AbiParameter)
           (encodedDataHex : string) : Breakdown :=
  buildWith nestedBreakdown parseDynamicData encodedDataHex params.

(** ** Selector and entry point *)

(** [getCanonicalSignatureForParams], on one parameter and on a list. *)
Fixpoint canonicalType (p : AbiParameter) : string :=
  match pcomponents p with
  | Some cs =>
      if ptype p =? "tuple"
      then "(" ++ String.concat "," (map canonicalType cs) ++ ")"
      else if ptype p =? "tuple[]"
      then "(" ++ String.concat "," (map canonicalType cs) ++ ")[]"
      else ptype p
  | None => ptype p
  end.

(** A parameter with every argument and field name dropped. *)
Fixpoint eraseNames (p : AbiParameter) : AbiParameter :=
  mkParam (ptype p) None (option_map (map eraseNames) (pcomponents p)).

Definition getCanonicalSignatureForParams (params : list AbiParameter)
  : string :=
  String.concat "," (map canonicalType params).

(** The match of the regular expression of [encodeFunctionCall] against
    [s], returning capture group 1.  The expression is: start of input, a
    greedy group of any characters but line terminators, optional white
    space, an opening parenthesis.  So the group is the longest
    line-terminator-free prefix after which optional white space and an
    opening parenthesis follow. *)
Fixpoint spacesThenParen (s : string) : bool :=
  match s with
  | EmptyString => false
  | String c s' =>
      if Ascii.eqb c "(" then true
      else if JS.isWhiteSpace c then spacesThenParen s'
      else false
  end.

Fixpoint funcNameMatch (s : string) : option string :=
  match s with
  | EmptyString => None
  | String c s' =>
      let here := if spacesThenParen s then Some EmptyString else None in
      if JS.isLineTerminator c then here
      else match funcNameMatch s' with
           | Some g => Some (String c g)
           | None => here
           end
  end.

(** Values handed to the encoder: [type Value = string | Value[] | bigint]
    of [page.tsx], and the booleans [processValues] makes. *)
Inductive Value : Type :=
| VString (s : string)
| VArray (vs : list Value)
| VBigInt (z : Z)
| VBoolean (b : bool).

Inductive Error : Type :=
| InvalidFunctionSignature     (* new Error('Invalid function signature') *)
| AbiParseError                (* thrown by parseAbiParameters *)
| AbiEncodingError             (* thrown by encodeAbiParameters *)
| TypeError.                   (* thrown by the engine *)

Inductive Result (A : Type) : Type :=
| Ok (a : A)
| Throw (e : Error).
Arguments Ok {A} a.
Arguments Throw {A} e.

Record EncodeResult : Type :=
  mkEncodeResult {
      calldata : string;
      parts : list CalldataPart
    }.

(** ** [processValues] of [app/page.tsx] *)

(** [BigInt(s)] on a string (StringToBigInt): white space is trimmed on
    both sides (every white space code unit of [JS.isWhiteSpace], the
    no-break space included), the empty string is [0n], a [0x], [0o] or
    [0b] prefix selects the radix, otherwise an optional sign and decimal
    digits; [None] is the SyntaxError. *)
Definition digitOf (radix : Z) (c : ascii) : option Z :=
  match JS.hexDigit c with
  | Some d => if (d <? radix)%Z then Some d else None
  | None => None
  end.

Fixpoint digitsValue (radix : Z) (s : string) (acc : Z) : option Z :=
  match s with
  | EmptyString => Some acc
  | String c s' =>
      match digitOf radix c with
      | Some d => digitsValue radix s' (radix * acc + d)%Z
      | None => None
      end
  end.

Definition nonEmptyDigits (radix : Z) (s : string) : option Z :=
  match s with
  | EmptyString => None
  | _ => digitsValue radix s 0
  end.

Definition stringToBigInt (s : string) : option Z :=
  match JS.trim s with
  | EmptyString => Some 0%Z
  | String "0" (String "x" t) | String "0" (String "X" t) =>
      nonEmptyDigits 16 t
  | String "0" (String "o" t) | String "0" (String "O" t) =>
      nonEmptyDigits 8 t
  | String "0" (String "b" t) | String "0" (String "B" t) =>
      nonEmptyDigits 2 t
  | String "-" t => option_map Z.opp (nonEmptyDigits 10 t)
  | String "+" t => nonEmptyDigits 10 t
  | t => nonEmptyDigits 10 t
  end.

(** [String(v)], which [BigInt] applies to a value that is an array. *)
Fixpoint valueToString (v : Value) : string :=
  match v with
  | VString s => s
  | VBigInt z => NilZero.string_of_int (Z.to_int z)
  | VBoolean b => if b then "true" else "false"
  | VArray vs => String.concat "," (map valueToString vs)
  end.

Definition toBigInt (v : Value) : option Z :=
  match v with
  | VBigInt z => Some z
  | VBoolean b => Some (if b then 1 else 0)%Z
  | VString s => stringToBigInt s
  | VArray _ => stringToBigInt (valueToString v)
  end.

(** [toLowerCase] on one code unit below 256: the letters [A] to [Z],
    and the capital letters from [U+00C0] to [U+00DE] but for the
    multiplication sign [U+00D7]. *)
Definition toLowerChar (c : ascii) : ascii :=
  let n := nat_of_ascii c in
  if (((65 <=? n) && (n <=? 90))
      || ((192 <=? n) && (n <=? 222) && negb (n =? 215)))%nat
  then ascii_of_nat (n + 32) else c.

Fixpoint toLowerCase (s : string) : string :=
  match s with
  | EmptyString => EmptyString
  | String c s' => String (toLowerChar c) (toLowerCase s')
  end.

(** JavaScript truthiness of a value. *)
Definition truthy (v : Value) : bool :=
  match v with
  | VString s => negb (s =? "")
  | VArray _ => true
  | VBigInt z => negb (z =? 0)%Z
  | VBoolean b => b
  end.

Definition bind {A B : Type} (r : Result A) (k : A -> Result B) : Result B :=
  match r with
  | Ok a => k a
  | Throw e => Throw e
  end.

(** [values.map((val, i) => f(params[i], val))]: a value without its
    parameter reads a property of [undefined], a TypeError. *)
Section MapValues.
Variable f : AbiParameter -> Value -> Result Value.

Fixpoint mapValues (params : list AbiParameter) (values : list Value)
         {struct params} : Result (list Value) :=
  match values with
  | [] => Ok []
  | val :: values' =>
      match params with
      | [] => Throw TypeError
      | p :: params' =>
          bind (f p val) (fun v =>
          bind (mapValues params' values') (fun vs => Ok (v :: vs)))
      end
  end.
End MapValues.

(** Helper to recursively process values, converting numbers to BigInt and
    strings to booleans: the body of the [map] callback. *)
Fixpoint processValue (param : AbiParameter) (val : Value) {struct param}
  : Result Value :=
  match pcomponents param with
  | Some cs =>
      match (if truthy val then val else VArray []) with
      | VArray vs =>
          bind (mapValues processValue cs vs) (fun r => Ok (VArray r))
      | _ => Throw TypeError        (* [values.map] is not a function *)
      end
  | None =>
      if JS.includes (ptype param) "uint" || JS.includes (ptype param) "int"
      then
        match toBigInt val with
        | Some z => Ok (VBigInt z)
        | None => Ok (VBigInt 0) (* Default to 0 if input is not a valid number *)
        end
      else if ptype param =? "bool" then
        match val with
        | VString s => Ok (VBoolean (toLowerCase s =? "true"))
        | _ => Throw TypeError      (* [toLowerCase] is not a function *)
        end
      else Ok val
  end.

Definition processValues (params : list AbiParameter) (values : list Value)
  : Result (list Value) :=
  mapValues processValue params values.

(** The functions taken from the viem library: [keccak256] composed with
    [stringToBytes], [parseAbiParameters] and [encodeAbiParameters].  The
    first and the last return a [Hex], ['0x'] followed by hexadecimal
    digits; the variables stand for the digits. *)
Section Viem.
Variable keccakDigits : string -> string.
Variable parseAbiParameters : string -> option (list AbiParameter).
Variable encodeAbiParametersDigits :
  list AbiParameter -> list Value -> option string.

Definition keccak256 (s : string) : string := "0x" ++ keccakDigits s.

Definition encodeAbiParameters (params : list AbiParameter)
           (values : list Value) : option string :=
  option_map (fun d => "0x" ++ d) (encodeAbiParametersDigits params values).

(** The first 4 bytes of the hash, as ['0x'] and 8 digits:
    [keccak256(stringToBytes(canonicalSignature)).slice(0, 10)]. *)
Definition selectorOf (canonicalSignature : string) : string :=
  JS.substring (keccak256 canonicalSignature) 0 10.

Definition argsStrOf (fullSignature : string) : string :=
  JS.substringNum fullSignature
                  (JS.Int (JS.indexOf fullSignature "(" + 1))
                  (JS.Int (JS.lastIndexOf fullSignature ")")).

Definition encodeFunctionCall (input : string) (argValues : list Value)
  : Result EncodeResult :=
  (* 1. Parse Input *)
  let fullSignature := JS.trim input in
  match funcNameMatch fullSignature with
  | None => Throw InvalidFunctionSignature
  | Some funcName =>
      let argsStr := argsStrOf fullSignature in
      match parseAbiParameters argsStr with
      | None => Throw AbiParseError
      | Some abiParams =>
          let canonicalParams := getCanonicalSignatureForParams abiParams in
          let canonicalSignature :=
            funcName ++ "(" ++ canonicalParams ++ ")" in
          (* 2. Calculate Function Selector *)
          let selector := selectorOf canonicalSignature in
          (* 3. Encode Parameters *)
          match encodeAbiParameters abiParams argValues with
          | None => Throw AbiEncodingError
          | Some encoded =>
              let encodedParamsHex := JS.substringFrom encoded 2 in
              (* 4. Assemble Calldata *)
              let finalCalldata := selector ++ encodedParamsHex in
              (* 5. Build the flat breakdown *)
              let b := buildFlatBreakdown abiParams encodedParamsHex in
              Ok (mkEncodeResult
                    finalCalldata
                    (mkPart "Function Selector" "bytes4" selector
                            (Some (Keccak256Of canonicalSignature)) None
                       :: headParts b ++ tailParts b)%list)
          end
      end
  end.

(** [handleEncode] of [page.tsx]: the values are processed, then
    encoded; either step may throw, which the handler reports. *)
Definition handleEncode (abiParams : list AbiParameter)
           (argValues : list Value) (input : string)
  : Result EncodeResult :=
  bind (processValues abiParams argValues) (encodeFunctionCall input).
End Viem.

(** ** The encoding scheme

    The repository encodes with [encodeAbiParameters] of the viem library
    and takes its parameter types from abitype; neither is part of the
    repository.  The module below stands for them: every definition in it
    is modelled from sections 3 and 4.3 of the specification. *)

Module Abi.

(** Modelled from the spec: the Type Node of the data model, which the
    repository takes from the abitype library. *)
Inductive TypeNode : Type :=
| UInt (bits : nat)
| Int (bits : nat)
| Bool
| Address
| FixedBytes (n : nat)
| DynamicBytes
| Text
| Array (elem : TypeNode)
| Record (fields : list (string * TypeNode)).

(** Modelled from the spec: a Type Node is dynamic iff it is
    DynamicBytes, Text, Array, or a Record with a dynamic field. *)
Fixpoint dynamic (t : TypeNode) : bool :=
  match t with
  | DynamicBytes | Text | Array _ => true
  | Record fields => existsb (fun '(_, f) => dynamic f) fields
  | _ => false
  end.

(** Modelled from the spec: one 32-byte word per scalar, the sum of the
    fields' words for a static Record. *)
Fixpoint staticWords (t : TypeNode) : nat :=
  match t with
  | Record fields =>
      fold_right (fun '(_, f) acc => staticWords f + acc) 0 fields
  | _ => 1
  end.

(** Modelled from the spec: how the abitype parser, which is missing,
    represents a Type Node: the type string (the bare type token of 4.2,
    [tuple] for a record), the optional parameter name, and the
    components of a tuple or of an array of tuples. *)
Fixpoint typeString (t : TypeNode) : string :=
  match t with
  | UInt bits => "uint" ++ JS.ofIndex bits
  | Int bits => "int" ++ JS.ofIndex bits
  | Bool => "bool"
  | Address => "address"
  | FixedBytes n => "bytes" ++ JS.ofIndex n
  | DynamicBytes => "bytes"
  | Text => "string"
  | Array elem => typeString elem ++ "[]"
  | Record _ => "tuple"
  end.

(** Modelled from the spec: the parameter the parser returns for a Type
    Node. *)
Fixpoint toAbi (name : option string) (t : TypeNode) : AbiParameter :=
  let fix componentsOf (t : TypeNode) : option (list AbiParameter) :=
    match t with
    | Record fields =>
        Some (map (fun '(n, f) => toAbi (Some n) f) fields)
    | Array elem => componentsOf elem
    | _ => None
    end in
  mkParam (typeString t) name (componentsOf t).

(** Modelled from the spec: the error conditions of the Encoder. *)
Inductive EncodeError : Type :=
| TypeMismatch
| NumericOverflow
| InvalidScalar.

(** Modelled from the spec: the Encoder returns its bytes or one of its
    errors. *)
Inductive Encoded (A : Type) : Type :=
| Done (a : A)
| Fail (e : EncodeError).
Arguments Done {A} a.
Arguments Fail {A} e.

Definition andThen {A B : Type} (r : Encoded A) (k : A -> Encoded B)
  : Encoded B :=
  match r with
  | Done a => k a
  | Fail e => Fail e
  end.

(** *** Hexadecimal rendering

    Modelled from the spec: bytes are written as lower-case hexadecimal
    digits, two per byte, as viem's [Hex] strings are. *)

(** Modelled from the spec: the digit character of a value below 16. *)
Definition hexChar (d : Z) : ascii :=
  if (d <? 10)%Z then ascii_of_nat (Z.to_nat (48 + d))
  else ascii_of_nat (Z.to_nat (87 + d)).

(** Modelled from the spec: the [width] low hexadecimal digits of [n],
    most significant first. *)
Fixpoint fixedHex (width : nat) (n : Z) : string :=
  match width with
  | O => ""
  | S w => fixedHex w (n / 16) ++ String (hexChar (n mod 16)) ""
  end.

(** Modelled from the spec: a 32-byte big-endian unsigned integer. *)
Definition word (n : Z) : string := fixedHex 64 n.

(** Modelled from the spec: raw bytes as digits, two per byte. *)
Fixpoint hexOfBytes (bytes : string) : string :=
  match bytes with
  | EmptyString => ""
  | String c rest =>
      fixedHex 2 (Z.of_nat (nat_of_ascii c)) ++ hexOfBytes rest
  end.

(** Modelled from the spec: the raw bytes a ['0x...'] literal denotes. *)
Fixpoint bytesOfDigits (digits : string) : option string :=
  match digits with
  | EmptyString => Some EmptyString
  | String a (String b rest) =>
      match JS.hexDigit a, JS.hexDigit b, bytesOfDigits rest with
      | Some x, Some y, Some bs =>
          Some (String (ascii_of_nat (Z.to_nat (16 * x + y))) bs)
      | _, _, _ => None
      end
  | String _ EmptyString => None
  end.

Definition bytesOfHex (literal : string) : option string :=
  match literal with
  | String "0" (String "x" digits) => bytesOfDigits digits
  | _ => None
  end.

(** *** The head/tail rule *)

(** Modelled from the spec: the self-similar rule on a parameter list
    whose members are already encoded, each tagged dynamic or static.
    A static member goes to the head as it is; a dynamic one leaves the
    current tail cursor in its head word and its content in the tail. *)
Fixpoint layout (items : list (bool * string)) (tailCursor : nat)
  : string * string :=
  match items with
  | [] => ("", "")
  | (true, content) :: rest =>
      let '(head, tail) :=
        layout rest (tailCursor + String.length content / 2) in
      (word (Z.of_nat tailCursor) ++ head, content ++ tail)
  | (false, content) :: rest =>
      let '(head, tail) := layout rest tailCursor in
      (content ++ head, tail)
  end.

(** Modelled from the spec: the head takes one word per dynamic member
    and the words of each static one; the tail cursor starts after it. *)
Definition headBytes (items : list (bool * string)) : nat :=
  fold_right (fun '(d, content) acc =>
                (if d : bool then 32 else String.length content / 2) + acc)
             0 items.

(** Modelled from the spec: all head words, then all tail buffers, in
    declaration order. *)
Definition encodeParams (items : list (bool * string)) : string :=
  let '(head, tail) := layout items (headBytes items) in
  head ++ tail.

(** Modelled from the spec: Text and DynamicBytes are one word holding
    the byte length, followed by the raw bytes right-padded with zero
    bytes up to the next 32-byte boundary. *)
Definition encodeBlob (bytes : string) : string :=
  let hex := hexOfBytes bytes in
  word (Z.of_nat (String.length bytes))
    ++ JS.padEnd hex (JS.ceilDiv (String.length hex) 64 * 64).

(** Modelled from the spec: a leaf for a numeric kind must be a numeric
    literal (InvalidScalar), a leaf where a list stands is a
    TypeMismatch. *)
Definition numericLiteral (v : Value) : Encoded Z :=
  match v with
  | VBigInt z => Done z
  | VString s =>
      match stringToBigInt s with
      | Some z => Done z
      | None => Fail InvalidScalar
      end
  | VBoolean _ => Fail InvalidScalar
  | VArray _ => Fail TypeMismatch
  end.

(** Modelled from the spec: a leaf for an address or FixedBytes(n) is a
    ['0x'] literal of exactly that many bytes. *)
Definition hexLiteral (size : nat) (v : Value) : Encoded string :=
  match v with
  | VString s =>
      match bytesOfHex s with
      | Some bytes =>
          if (String.length bytes =? size)%nat then Done bytes
          else Fail InvalidScalar
      | None => Fail InvalidScalar
      end
  | VArray _ => Fail TypeMismatch
  | _ => Fail InvalidScalar
  end.

(** Modelled from the spec: the members of a record are encoded field by
    field against a value list of the same length, those of an array
    element by element. *)
Section EncodeList.
Variable encodeOne : TypeNode -> Value -> Encoded string.

Fixpoint encodeFields (fields : list (string * TypeNode))
         (values : list Value) {struct fields}
  : Encoded (list (bool * string)) :=
  match fields, values with
  | [], [] => Done []
  | (_, t) :: fields', v :: values' =>
      andThen (encodeOne t v) (fun c =>
      andThen (encodeFields fields' values') (fun cs =>
      Done ((dynamic t, c) :: cs)))
  | _, _ => Fail TypeMismatch
  end.

Fixpoint encodeElements (elem : TypeNode) (values : list Value)
  : Encoded (list (bool * string)) :=
  match values with
  | [] => Done []
  | v :: values' =>
      andThen (encodeOne elem v) (fun c =>
      andThen (encodeElements elem values') (fun cs =>
      Done ((dynamic elem, c) :: cs)))
  end.
End EncodeList.

(** Modelled from the spec: the content of one value, which is its head
    words when the type is static and its tail buffer when dynamic. *)
Fixpoint encodeValue (t : TypeNode) (v : Value) {struct t}
  : Encoded string :=
  match t with
  | UInt bits =>
      andThen (numericLiteral v) (fun z =>
      if ((0 <=? z) && (z <? 2 ^ Z.of_nat bits))%Z
      then Done (word z) else Fail NumericOverflow)
  | Int bits =>
      andThen (numericLiteral v) (fun z =>
      if ((- 2 ^ (Z.of_nat bits - 1) <=? z)
          && (z <? 2 ^ (Z.of_nat bits - 1)))%Z
      then Done (word (z mod 2 ^ 256)) else Fail NumericOverflow)
  | Bool =>
      match v with
      | VBoolean b => Done (word (if b then 1 else 0))
      | VArray _ => Fail TypeMismatch
      | _ => Fail InvalidScalar
      end
  | Address =>
      andThen (hexLiteral 20 v) (fun bytes =>
      Done (JS.padStart (hexOfBytes bytes) 64))
  | FixedBytes n =>
      andThen (hexLiteral n v) (fun bytes =>
      Done (JS.padEnd (hexOfBytes bytes) 64))
  | DynamicBytes =>
      match v with
      | VString s =>
          match bytesOfHex s with
          | Some bytes => Done (encodeBlob bytes)
          | None => Fail InvalidScalar
          end
      | VArray _ => Fail TypeMismatch
      | _ => Fail InvalidScalar
      end
  | Text =>
      match v with
      | VString s => Done (encodeBlob s)
      | VArray _ => Fail TypeMismatch
      | _ => Fail InvalidScalar
      end
  | Array elem =>
      match v with
      | VArray vs =>
          andThen (encodeElements encodeValue elem vs) (fun items =>
          Done (word (Z.of_nat (List.length vs)) ++ encodeParams items))
      | _ => Fail TypeMismatch
      end
  | Record fields =>
      match v with
      | VArray vs =>
          andThen (encodeFields encodeValue fields vs) (fun items =>
          Done (encodeParams items))
      | _ => Fail TypeMismatch
      end
  end.

(** Modelled from the spec: [encode(TypeNodes, ValueNodes)], the
    parameter area of the byte string (the selector is prepended by the
    caller), as hexadecimal digits. *)
Definition encode (types : list TypeNode) (values : list Value)
  : Encoded string :=
  andThen (encodeFields encodeValue
                        (map (fun t => (EmptyString, t)) types) values)
          (fun items => Done (encodeParams items)).

End Abi.

(** ** Notions used to state the properties *)

(** What the head part emitted for the parameter [p] carries: the
    unpacked fields of a static tuple as child components, nothing for an
    offset slot or a simple static slot. *)
Definition headPartFor (p : AbiParameter) (part : CalldataPart) : Prop :=
  if isDynamic p then components part = None
  else
    match pcomponents p, ptype p =? "tuple" with
    | Some cs, true =>
        exists window,
          components part =
          Some (headParts (buildFlatBreakdown cs window)
                  ++ tailParts (buildFlatBreakdown cs window))%list
    | _, _ => components part = None
    end.

(** The dynamic items the first pass records, in declaration order, and
    the same items as the tail loop meets them, after the sort. *)
Definition recordedItems (params : list AbiParameter)
           (encodedDataHex : string) : list DynamicItem :=
  map fst (snd (firstPass nestedBreakdown parseDynamicData encodedDataHex
                          params 0 0)).

Definition sortedItems (params : list AbiParameter)
           (encodedDataHex : string) : list DynamicItem :=
  JS.sort compareItems (recordedItems params encodedDataHex).

(** The two arguments of the [substring] call that cuts the content
    window of [item], as positions in [encodedDataHex]. *)
Definition windowBounds (encodedDataHex : string) (item : DynamicItem)
           (nextItem : option DynamicItem) : nat * nat :=
  (JS.toIndex (String.length encodedDataHex) (JS.timesTwo (offset item)),
   JS.toIndex (String.length encodedDataHex)
              (match nextItem with
               | Some next => JS.timesTwo (offset next)
               | None => JS.ofNat (String.length encodedDataHex)
               end)).

Definition itemWindow (encodedDataHex : string) (item : DynamicItem)
           (nextItem : option DynamicItem) : string :=
  JS.substring encodedDataHex
               (fst (windowBounds encodedDataHex item nextItem))
               (snd (windowBounds encodedDataHex item nextItem)).

(** The tail part of each item of a list, each item followed by its
    successor in the list. *)
Fixpoint tailPartsOf (encodedDataHex : string) (items : list DynamicItem)
  : list CalldataPart :=
  match items with
  | [] => []
  | item :: rest =>
      mkPart ("Tail for " ++ item_name item) (ptype (param item))
             "(see components)" (Some (DataLocatedAt (offset item)))
             (Some (parseDynamicData
                      (param item)
                      (itemWindow encodedDataHex item (hd_error rest))))
        :: tailPartsOf encodedDataHex rest
  end.

Fixpoint allBounds (encodedDataHex : string) (items : list DynamicItem)
  : list (nat * nat) :=
  match items with
  | [] => []
  | item :: rest =>
      windowBounds encodedDataHex item (hd_error rest)
        :: allBounds encodedDataHex rest
  end.

(** Windows that follow one another without gap or overlap and stop at
    [stop]: each starts before it ends and ends where the next starts. *)
Fixpoint chained (bounds : list (nat * nat)) (stop : nat) : Prop :=
  match bounds with
  | [] => True
  | (from, to) :: rest =>
      from <= to
      /\ to = match rest with
              | (next, _) :: _ => next
              | [] => stop
              end
      /\ chained rest stop
  end.

(** [n] digits [f]: the sign extension of a negative number. *)
Fixpoint effs (n : nat) : string :=
  match n with
  | O => ""
  | S n' => String "f" (effs n')
  end.

Definition isNumber (item : DynamicItem) : Prop := offset item <> JS.NaN.

(** [a.offset <= b.offset]. *)
Definition itemLe (a b : DynamicItem) : Prop := JS.le (offset a) (offset b).

Definition offsetValue (item : DynamicItem) : Z :=
  match offset item with
  | JS.Int z => z
  | JS.NaN => 0%Z
  end.

(** A string of hexadecimal digits, and the number of its characters the
    first pass reads as head slots. *)
Fixpoint allHex (s : string) : bool :=
  match s with
  | EmptyString => true
  | String c s' =>
      match JS.hexDigit c with
      | Some _ => allHex s'
      | None => false
      end
  end.

Fixpoint headChars (params : list AbiParameter) : nat :=
  match params with
  | [] => 0
  | p :: rest =>
      (if isDynamic p then 64
       else match pcomponents p, (ptype p =? "tuple")%string with
            | Some cs, true => List.length cs * 64
            | _, _ => 64
            end) + headChars rest
  end.

(** The parameter that describes one element of the array parameter
    [p]: the type without its [[]] suffix, with the same components. *)
Definition elementParam (p : AbiParameter) : AbiParameter :=
  mkParam (JS.dropLast2 (ptype p)) None (pcomponents p).

(** The part shown for element [i] of an array whose elements take
    [width] words each. *)
Definition elementPart (elementType itemsDataHex : string) (width i : nat)
  : CalldataPart :=
  mkPart ("[" ++ JS.ofIndex i ++ "]") elementType
         ("0x" ++ padTo32Bytes
                    (JS.substring itemsDataHex (64 * width * i)
                                  (64 * width * i + 64 * width))
                    elementType)
         None None.

(** The tail parsing of an array item as the specification words it: the
    count from the first word; for a dynamic element type the whole
    head/tail procedure on the element type repeated count times and the
    remaining window; for a static one, count consecutive words, or count
    times the field count for a static record element, one part each. *)
Definition parseArrayClaimed (p : AbiParameter) (dataHex : string)
  : list CalldataPart :=
  let elem := elementParam p in
  let length := JS.parseInt16 (JS.substring dataHex 0 64) in
  let remaining := JS.substringFrom dataHex 64 in
  mkPart "length" "uint256" ("0x" ++ JS.substring dataHex 0 64)
         (Some (NumberText length)) None
    :: (if isDynamic elem then
          let b := buildFlatBreakdown (repeat elem (JS.loopCount length))
                                      remaining in
          headParts b ++ tailParts b
        else
          let width :=
            match pcomponents elem, ptype elem =? "tuple" with
            | Some cs, true => List.length cs
            | _, _ => 1
            end in
          map (elementPart (ptype elem) remaining width)
              (seq 0 (JS.loopCount length)))%list.

(** The hexadecimal digits a leaf part shows: its value without the
    ['0x'] prefix.  Parts with child components are not leaves; their
    digits are those of their components, in order. *)
Fixpoint leafDigits (part : CalldataPart) : string :=
  match components part with
  | Some cs =>
      (fix all (ps : list CalldataPart) : string :=
         match ps with
         | [] => ""
         | p :: ps' => leafDigits p ++ all ps'
         end) cs
  | None => JS.strip0x (value part)
  end.

Fixpoint reassemble (parts : list CalldataPart) : string :=
  match parts with
  | [] => ""
  | p :: ps => leafDigits p ++ reassemble ps
  end.

(** Types decomposed slot by slot as they are encoded: a scalar, or a
    record of one such field. *)
Fixpoint oneWord (t : Abi.TypeNode) : bool :=
  match t with
  | Abi.UInt _ | Abi.Int _ | Abi.Bool | Abi.Address => true
  | Abi.FixedBytes n => (n <=? 32)%nat
  | Abi.Record [(_, f)] => oneWord f
  | _ => false
  end.

(** Types on which the breakdown covers every byte: arrays have one-word
    static elements, static records have one-word fields, and dynamic
    records have fields of this kind again. *)
Fixpoint flat (t : Abi.TypeNode) : bool :=
  match t with
  | Abi.FixedBytes n => (n <=? 32)%nat
  | Abi.Array elem => oneWord elem
  | Abi.Record fields =>
      if existsb (fun '(_, f) => Abi.dynamic f) fields
      then forallb (fun '(_, f) => flat f) fields
      else forallb (fun '(_, f) => oneWord f) fields
  | _ => true
  end.

Fixpoint lastChar (s : string) : option ascii :=
  match s with
  | EmptyString => None
  | String c EmptyString => Some c
  | String _ s' => lastChar s'
  end.

Definition isDigit (c : ascii) : bool :=
  (48 <=? nat_of_ascii c)%nat && (nat_of_ascii c <=? 57)%nat.

Fixpoint allDigits (s : string) : bool :=
  match s with
  | EmptyString => true
  | String c s' => isDigit c && allDigits s'
  end.

(** A string short enough for its length, and every offset and count in
    it, to be an exact double (any JavaScript string is). *)
Definition fitsDouble (s : string) : Prop :=
  (Z.of_nat (String.length s) < 2 ^ 53)%Z.

(** A member of an encoded parameter list seen from both sides: the
    parameter the decomposer is given, and the dynamic flag and content
    the encoder laid out. *)
Definition Slot : Type := AbiParameter * (bool * string).

(** The decomposer agrees with the encoder on a slot: same static or
    dynamic classification; a dynamic content is parsed back to itself;
    a static tuple takes as many words as it has components and is
    unpacked to itself; any other static content is one word. *)
Definition slotOK (slot : Slot) : Prop :=
  let '(p, (d, c)) := slot in
  isDynamic p = d
  /\ if d then
       (exists k, String.length c = 2 * k)
       /\ (fitsDouble c -> reassemble (parseDynamicData p c) = c)
     else
       match pcomponents p, ptype p =? "tuple" with
       | Some cs, true =>
           String.length c = List.length cs * 64
           /\ (fitsDouble c ->
               reassemble (headParts (buildFlatBreakdown cs c)
                             ++ tailParts (buildFlatBreakdown cs c))%list
               = c)
       | _, _ => String.length c = 64
       end.

(** What the round trip asks of one type, for every name and value. *)
Definition roundTrips (t : Abi.TypeNode) : Prop :=
  forall nm v c,
    flat t = true -> Abi.encodeValue t v = Abi.Done c ->
    slotOK (Abi.toAbi nm t, (Abi.dynamic t, c)).

(** The dynamic slots of a list with the tail cursor the encoder gives
    each. *)
Fixpoint expected (slots : list Slot) (tailCursor : nat)
  : list (AbiParameter * nat * string) :=
  match slots with
  | [] => []
  | (p, (true, c)) :: rest =>
      (p, tailCursor, c)
        :: expected rest (tailCursor + String.length c / 2)
  | (_, (false, _)) :: rest => expected rest tailCursor
  end.

Fixpoint contents (l : list (AbiParameter * nat * string)) : string :=
  match l with
  | [] => ""
  | (_, _, c) :: rest => c ++ contents rest
  end.

(** Tail cursors that follow one another from [tailCursor]. *)
Fixpoint chain (tailCursor : nat) (l : list (AbiParameter * nat * string))
  : Prop :=
  match l with
  | [] => True
  | (_, o, c) :: rest =>
      o = tailCursor /\ chain (tailCursor + String.length c / 2) rest
  end.

(** ** Example data *)

Module Example.
Definition address (n : option string) : AbiParameter :=
  mkParam "address" n None.
Definition uint256 (n : option string) : AbiParameter :=
  mkParam "uint256" n None.
Definition text (n : option string) : AbiParameter :=
  mkParam "string" n None.

(** A stand-in for the hash: every signature gets the digest of
    [transfer(address,uint256)]. *)
Definition digest (_ : string) : string :=
  "a9059cbb2ab09eb219583f4a59a5d0623ade346d962bcd4e46b11da047c9049b".

(** The parser on the two spellings of the [transfer] signature. *)
Definition parseTransfer (argsStr : string)
  : option (list AbiParameter) :=
  if argsStr =? "address to, uint256 amount"
  then Some [address (Some "to"); uint256 (Some "amount")]
  else if argsStr =? "address,uint256"
  then Some [address None; uint256 None]
  else None.

(** [string[]], and the tail window of its value [["hi"]]: the count,
    then the head and tail of the one element. *)
Definition stringArray : AbiParameter := mkParam "string[]" None None.
Definition stringArrayData : string :=
  "0000000000000000000000000000000000000000000000000000000000000001"
  ++ "0000000000000000000000000000000000000000000000000000000000000020"
  ++ "0000000000000000000000000000000000000000000000000000000000000002"
  ++ "6869000000000000000000000000000000000000000000000000000000000000".

(** [f(((uint256 a, uint256 b) inner, uint256 c) outer, uint256 d)] with
    the values [((1, 2), 3), 4]. *)
Definition nestedTypes : list Abi.TypeNode :=
  [ Abi.Record [ ("inner", Abi.Record [ ("a", Abi.UInt 256);
                                        ("b", Abi.UInt 256) ]);
                 ("c", Abi.UInt 256) ];
    Abi.UInt 256 ].
Definition nestedParams : list AbiParameter :=
  [ Abi.toAbi (Some "outer") (nth 0 nestedTypes Abi.Bool);
    Abi.toAbi (Some "d") (nth 1 nestedTypes Abi.Bool) ].
Definition nestedValues : list Value :=
  [ VArray [ VArray [ VBigInt 1; VBigInt 2 ]; VBigInt 3 ]; VBigInt 4 ].

(** Two [string] parameters whose offsets go against the declaration
    order: [a] points at byte 128 (["abc"]), [b] at byte 64 (["hi"]). *)
Definition swappedParams : list AbiParameter :=
  [ text (Some "a"); text (Some "b") ].
Definition swappedData : string :=
  Abi.word 128 ++ Abi.word 64
  ++ Abi.word 2 ++ JS.padEnd "6869" 64
  ++ Abi.word 3 ++ JS.padEnd "616263" 64.

(** The library encoder replaced by the encoding scheme at fixed types. *)
Definition schemeEncoder (types : list Abi.TypeNode)
           (_ : list AbiParameter) (values : list Value) : option string :=
  match Abi.encode types values with
  | Abi.Done digits => Some digits
  | Abi.Fail _ => None
  end.

(** A parser that knows one parameter list. *)
Definition parseAs (params : list AbiParameter) (_ : string)
  : option (list AbiParameter) := Some params.

(** [pay(address to, string note, uint256[] amounts, (uint8 a, bytes b) extra)]
    with values. *)
Definition mixedTypes : list (option string * Abi.TypeNode) :=
  [ (Some "to", Abi.Address);
    (Some "note", Abi.Text);
    (Some "amounts", Abi.Array (Abi.UInt 256));
    (Some "extra", Abi.Record [ ("a", Abi.UInt 8);
                                ("b", Abi.DynamicBytes) ]) ].
Definition mixedParams : list AbiParameter :=
  map (fun nt => Abi.toAbi (fst nt) (snd nt)) mixedTypes.
Definition mixedValues : list Value :=
  [ VString "0x1111111111111111111111111111111111111111";
    VString "hi";
    VArray [ VBigInt 1; VBigInt 2; VBigInt 3 ];
    VArray [ VBigInt 7; VString "0xdeadbeef" ] ].
Definition mixedInput : string :=
  "pay(address to, string note, uint256[] amounts, (uint8 a, bytes b) extra)".

(** [f(uint256 a, (uint256 b) p)], the same with [x] for [a], and
    [transfer(address to)]: the parser on their argument texts, the
    types and the values. *)
Definition structParams (first : string) : list AbiParameter :=
  [ uint256 (Some first);
    mkParam "tuple" (Some "p") (Some [uint256 (Some "b")]) ].
Definition parseStruct (argsStr : string) : option (list AbiParameter) :=
  if argsStr =? "uint256 a, (uint256 b) p" then Some (structParams "a")
  else if argsStr =? "uint256 x, (uint256 b) p" then Some (structParams "x")
  else if argsStr =? "address to" then Some [address (Some "to")]
  else None.
Definition structTypes : list Abi.TypeNode :=
  [ Abi.UInt 256; Abi.Record [ ("b", Abi.UInt 256) ] ].
Definition structValues : list Value :=
  [ VBigInt 1; VArray [ VBigInt 2 ] ].
Definition holder : string := "0x1111111111111111111111111111111111111111".
End Example.

(** ** The form state of [app/page.tsx] *)

(** [buildInitialValues]: the empty string for every field, a list of
    initial values for the components of a struct. *)
Fixpoint initialValue (c : AbiParameter) : Value :=
  match pcomponents c with
  | Some cs => VArray (map initialValue cs)
  | None => VString ""
  end.

Definition buildInitialValues (p : list AbiParameter) : list Value :=
  map initialValue p.

(** The effect run on a new input: the text between the first ['('] and
    the last [')'] of the input, not trimmed, is parsed; the parameters
    and their initial values become the state, and both are emptied when
    the parser throws. *)
Definition onInputChange
           (parseAbiParameters : string -> option (list AbiParameter))
           (debouncedInput : string) : list AbiParameter * list Value :=
  match parseAbiParameters (argsStrOf debouncedInput) with
  | Some params => (params, buildInitialValues params)
  | None => ([], [])
  end.

(** What [processValues] makes of an untouched field: [0n] for a numeric
    kind, [false] for a boolean, the empty string otherwise, and the
    list of these for the components of a struct. *)
Fixpoint processedDefault (p : AbiParameter) : Value :=
  match pcomponents p with
  | Some cs => VArray (map processedDefault cs)
  | None =>
      if JS.includes (ptype p) "uint" || JS.includes (ptype p) "int"
      then VBigInt 0
      else if ptype p =? "bool" then VBoolean false
      else VString ""
  end.

(** ** Notions about signatures *)

(** Strings of white space only, and strings without a line terminator. *)
Fixpoint blank (s : string) : bool :=
  match s with
  | EmptyString => true
  | String c s' => JS.isWhiteSpace c && blank s'
  end.

Fixpoint onOneLine (s : string) : bool :=
  match s with
  | EmptyString => true
  | String c s' => negb (JS.isLineTerminator c) && onOneLine s'
  end.

(** ** Notions about breakdowns *)

(** The digits that a list of parts shows as values, in order, each
    without its ['0x']. *)
Fixpoint shownDigits (parts : list CalldataPart) : string :=
  match parts with
  | [] => ""
  | p :: ps => JS.strip0x (value p) ++ shownDigits ps
  end.

(** Whether a part, or a part below it, is the 'Raw dynamic data'
    fallback of [parseDynamicData]. *)
Fixpoint hasRawData (part : CalldataPart) : bool :=
  match description part with
  | Some RawDynamicData => true
  | _ => false
  end
  || match components part with
     | Some cs => existsb hasRawData cs
     | None => false
     end.

Definition clean (part : CalldataPart) : Prop := hasRawData part = false.

(** The two recursive calls of the first pass produce clean parts on the
    parameter [p]: the parser when [p] is dynamic, the nested breakdown
    always. *)
Definition cleanOn (nested : AbiParameter -> string -> Breakdown)
           (parseDyn : AbiParameter -> string -> list CalldataPart)
           (p : AbiParameter) : Prop :=
  (forall d, isDynamic p = true -> Forall clean (parseDyn p d))
  /\ (forall d,
        Forall clean (headParts (nested p d) ++ tailParts (nested p d))).

(** A part with every name blanked, at every depth: what is left is
    what was read from the data. *)
Fixpoint unlabel (part : CalldataPart) : CalldataPart :=
  mkPart "" (type part) (value part) (description part)
         (option_map (map unlabel) (components part)).

(** Two recorded items that carry the same data: the same parameter up
    to names, and the same offset. *)
Definition sameData (a b : DynamicItem) : Prop :=
  eraseNames (param a) = eraseNames (param b) /\ offset a = offset b.

(** The names of [p] and of its components, at any depth, only label
    the parts that the two recursive calls of the first pass make of a
    window. *)
Definition labelFree (p : AbiParameter) : Prop :=
  (forall d, map unlabel (parseDynamicData (eraseNames p) d)
             = map unlabel (parseDynamicData p d))
  /\ (forall d,
        map unlabel (headParts (nestedBreakdown (eraseNames p) d)
                       ++ tailParts (nestedBreakdown (eraseNames p) d))
        = map unlabel (headParts (nestedBreakdown p d)
                         ++ tailParts (nestedBreakdown p d))).

(** ** Further examples *)

Module Sample.
(** The data of [f(string a, string b)] on ["hi"] and ["abc"], tails in
    parameter order. *)
Definition orderedData : string :=
  Abi.word 64 ++ Abi.word 128
  ++ Abi.word 2 ++ JS.padEnd "6869" 64
  ++ Abi.word 3 ++ JS.padEnd "616263" 64.

(** [set((uint256 a, uint256 b) p, address q)]: static parameters only. *)
Definition staticParams : list AbiParameter :=
  [ mkParam "tuple" (Some "p")
            (Some [Example.uint256 (Some "a"); Example.uint256 (Some "b")]);
    Example.address (Some "q") ].
Definition staticData : string :=
  Abi.word 1 ++ Abi.word 2 ++ Abi.word 3.
End Sample.

(** ** The earlier [encodeFunctionCall]

    The first version of the encoder, kept in the same file: types are
    plain strings taken from the signature text, every parameter is
    encoded on its own, and head and tail are assembled by hand. *)

Module Legacy.

(** Helper to determine if a type is dynamic. *)
Definition isDynamic (type : string) : bool :=
  JS.endsWith type "[]" || (type =? "string") || (type =? "bytes").

(** The names of the parts; [n] is the parameter index plus one. *)
Inductive PartName : Type :=
| FunctionSelector
| ParameterHead (n : nat)
| ParameterOffset (n : nat)
| ParameterTailLength (n : nat)
| ParameterTailData (n : nat).

(** The descriptions, each a template around a string. *)
Inductive Description : Type :=
| Keccak256Of (funcSignature : string)
| LengthOfData (type : string)
| DataAndPaddingFor (type : string).

Record CalldataPart : Type :=
  mkPart { name : PartName;
           type : string;
           value : string;
           description : option Description }.

Record EncodeResult : Type :=
  mkEncodeResult { calldata : string;
                   parts : list CalldataPart }.

(** *** The regular expression that removes argument names

    One or more white space characters followed by one or more word
    characters, replaced everywhere by the empty string. *)

Definition isWordChar (c : ascii) : bool :=
  let n := nat_of_ascii c in
  (((48 <=? n) && (n <=? 57)) || ((65 <=? n) && (n <=? 90))
   || ((97 <=? n) && (n <=? 122)) || (n =? 95))%nat.

Fixpoint countWhile (f : ascii -> bool) (s : string) : nat :=
  match s with
  | EmptyString => 0
  | String c s' => if f c then S (countWhile f s') else 0
  end.

(** The length of the match of the expression at the start of [s], if
    any.  Both runs are greedy, and giving white space back never helps
    the match: what follows the white space must be a word character. *)
Definition matchLength (s : string) : option nat :=
  let spaces := countWhile JS.isWhiteSpace s in
  let word := countWhile isWordChar (JS.substringFrom s spaces) in
  if ((0 <? spaces) && (0 <? word))%nat then Some (spaces + word) else None.

(** The replacement, scanning from the left: [skip] characters of the
    last match are still to be dropped; outside a match the expression
    is tried at each position, and the character is kept when it fails. *)
Fixpoint replaceFrom (s : string) (skip : nat) : string :=
  match s with
  | EmptyString => EmptyString
  | String c s' =>
      match skip with
      | S k => replaceFrom s' k
      | O =>
          match matchLength s with
          | Some n => replaceFrom s' (n - 1)
          | None => String c (replaceFrom s' 0)
          end
      end
  end.

Definition removeArgumentNames (s : string) : string := replaceFrom s 0.

(** [s.split(sep)] for a one-character separator. *)
Fixpoint split (sep : ascii) (s : string) : list string :=
  match s with
  | EmptyString => [EmptyString]
  | String c s' =>
      if Ascii.eqb c sep then EmptyString :: split sep s'
      else match split sep s' with
           | piece :: pieces => String c piece :: pieces
           | [] => [String c EmptyString]
           end
  end.

(** [argsStr.split(',').map((s) => s.trim().split(' ')[0]).filter((t) => t)] *)
Definition argTypesOf (argsStr : string) : list string :=
  filter (fun t => negb (t =? ""))
         (map (fun s => hd "" (split " " (JS.trim s))) (split "," argsStr)).

(** [funcNameWithTypes]: the signature up to its first [')']. *)
Definition funcNameWithTypesOf (fullSignature : string) : string :=
  JS.substringNum fullSignature (JS.Int 0)
                  (JS.Int (JS.indexOf fullSignature ")" + 1)).

Definition funcSignatureOf (fullSignature : string) : string :=
  removeArgumentNames (funcNameWithTypesOf fullSignature).

(** A dynamic parameter waiting for its tail: index, type and value,
    the value being [argValues[index]], which may be undefined. *)
Definition DynamicParam : Type := nat * string * option Value.

(** The functions taken from viem.  [encodeOneDigits type value] stands
    for the digits of [encodeAbiParameters([{ type }], [value])], and
    [toHex32Digits n] for those of [toHex(n / 2, { size: 32 })]: the
    offset is counted in hexadecimal digits, twice its value in bytes,
    which keeps it a whole number whatever the encodings are; string
    lengths are small integers, on which the arithmetic of numbers is
    exact.  [None] stands for a call that throws. *)
Section Viem.
Variable keccakDigits : string -> string.
Variable encodeOneDigits : string -> option Value -> option string.
Variable toHex32Digits : nat -> option string.

(** The loop over the argument types: the head entries, the dynamic
    parameters and the parts pushed, from index [i] with the tail offset
    [tailOffsetTimes2 / 2]. *)
Fixpoint headLoop (argTypes : list string) (i tailOffsetTimes2 : nat)
         (argValues : list Value)
  : option (list string * list DynamicParam * list CalldataPart) :=
  match argTypes with
  | [] => Some ([], [], [])
  | type :: rest =>
      if isDynamic type then
        match toHex32Digits tailOffsetTimes2 with
        | None => None
        | Some offsetDigits =>
            match encodeOneDigits type (nth_error argValues i) with
            | None => None
            | Some digits =>
                let encoded := "0x" ++ digits in
                (* tailOffset += (encoded.length - 2) / 2 *)
                match headLoop rest (S i)
                               (tailOffsetTimes2 + (String.length encoded - 2))
                               argValues with
                | None => None
                | Some (head, dynamicParams, parts) =>
                    Some (JS.substringFrom ("0x" ++ offsetDigits) 2 :: head,
                          (i, type, nth_error argValues i) :: dynamicParams,
                          mkPart (ParameterOffset (i + 1)) "bytes32"
                                 ("0x" ++ offsetDigits) None :: parts)
                end
            end
        end
      else
        match encodeOneDigits type (nth_error argValues i) with
        | None => None
        | Some digits =>
            let encoded := "0x" ++ digits in
            match headLoop rest (S i) tailOffsetTimes2 argValues with
            | None => None
            | Some (head, dynamicParams, parts) =>
                Some (JS.substringFrom encoded 2 :: head,   (* remove 0x prefix *)
                      dynamicParams,
                      mkPart (ParameterHead (i + 1)) type encoded None :: parts)
            end
        end
  end.

(** The loop over the dynamic parameters: the tail entries and the
    parts pushed. *)
Fixpoint tailLoop (dynamicParams : list DynamicParam)
  : option (list string * list CalldataPart) :=
  match dynamicParams with
  | [] => Some ([], [])
  | (index, type, value) :: rest =>
      match encodeOneDigits type value with
      | None => None
      | Some digits =>
          let encodedFull := "0x" ++ digits in
          let encodedWithout0x := JS.substringFrom encodedFull 2 in
          (* The first 32 bytes (64 hex chars) is an internal offset. *)
          let actualTailData := JS.substringFrom encodedWithout0x 64 in
          let lengthPart := JS.substring actualTailData 0 64 in
          let dataAndPaddingPart := JS.substringFrom actualTailData 64 in
          match tailLoop rest with
          | None => None
          | Some (tail, parts) =>
              Some (actualTailData :: tail,
                    mkPart (ParameterTailLength (index + 1)) "uint256"
                           ("0x" ++ lengthPart) (Some (LengthOfData type))
                    :: mkPart (ParameterTailData (index + 1)) type
                              ("0x" ++ dataAndPaddingPart)
                              (Some (DataAndPaddingFor type))
                    :: parts)
          end
      end
  end.

Definition encodeFunctionCall (input : string) (argValues : list Value)
  : option EncodeResult :=
  (* 1. Parse Input *)
  let fullSignature := JS.trim input in
  let funcSignature := funcSignatureOf fullSignature in
  let argTypes := argTypesOf (argsStrOf fullSignature) in
  (* 2. Calculate Function Selector *)
  let selector := selectorOf keccakDigits funcSignature in
  (* 3. Encode Parameters *)
  match headLoop argTypes 0 (List.length argTypes * 64) argValues with
  | None => None
  | Some (head, dynamicParams, headParts) =>
      match tailLoop dynamicParams with
      | None => None
      | Some (tail, tailParts) =>
          (* 4. Assemble Calldata *)
          Some (mkEncodeResult
                  (selector ++ String.concat "" head ++ String.concat "" tail)
                  (mkPart FunctionSelector "bytes4" selector
                          (Some (Keccak256Of funcSignature))
                     :: headParts ++ tailParts)%list)
      end
  end.
End Viem.

(** Words: one or more word characters. *)
Fixpoint wordChars (s : string) : bool :=
  match s with
  | EmptyString => true
  | String c s' => isWordChar c && wordChars s'
  end.

Definition isWord (s : string) : bool := negb (s =? "") && wordChars s.

End Legacy.

(** * Properties *)

(** ** Strings *)

Lemma length_zeros n : String.length (JS.zeros n) = n.
Proof. induction n; simpl; congruence. Qed.

Lemma length_app (s t : string) :
  String.length (s ++ t) = String.length s + String.length t.
Proof. induction s; simpl; congruence. Qed.

Lemma app_assoc_s (s t u : string) : (s ++ t) ++ u = s ++ (t ++ u).
Proof. induction s; simpl; congruence. Qed.

Lemma app_empty_r (s : string) : s ++ "" = s.
Proof. induction s; simpl; congruence. Qed.

(** [String.substring] on a concatenation. *)
Lemma stdsub_zero_all (s : string) : String.substring 0 (String.length s) s = s.
Proof. induction s; simpl; congruence. Qed.

Lemma stdsub_nil n m : String.substring n m "" = "".
Proof. destruct n, m; reflexivity. Qed.

Lemma stdsub_zero_app (s t : string) k :
  String.substring 0 (String.length s + k) (s ++ t)
  = s ++ String.substring 0 k t.
Proof. induction s; simpl; [reflexivity | congruence]. Qed.

Lemma stdsub_skip_app (s t : string) n m :
  String.substring (String.length s + n) m (s ++ t) = String.substring n m t.
Proof. induction s; simpl; auto. Qed.

Lemma stdsub_prefix (s t : string) :
  String.substring 0 (String.length s) (s ++ t) = s.
Proof.
  replace (String.length s) with (String.length s + 0) by lia.
  rewrite stdsub_zero_app. destruct t; simpl; apply app_empty_r.
Qed.

Lemma stdsub_zero_0 (s : string) : String.substring 0 0 s = "".
Proof. destruct s; reflexivity. Qed.

Lemma stdsub_past (s : string) n m :
  String.length s <= n -> String.substring n m s = "".
Proof.
  revert n m; induction s as [|c s IH]; intros n m H.
  - apply stdsub_nil.
  - destruct n; simpl in *; [lia|]. apply IH; lia.
Qed.

Lemma length_stdsub (s : string) n m :
  String.length (String.substring n m s)
  = Nat.min m (String.length s - n).
Proof.
  revert n m; induction s as [|c s IH]; intros n m.
  - rewrite stdsub_nil; simpl; lia.
  - destruct n; simpl.
    + destruct m; simpl; [reflexivity|]. rewrite IH. lia.
    + apply IH.
Qed.

(** The window of [a ++ b ++ c] that holds [b]. *)
Lemma substring_middle (a b c : string) :
  JS.substring (a ++ b ++ c) (String.length a)
               (String.length a + String.length b) = b.
Proof.
  unfold JS.substring. rewrite !length_app.
  replace (Nat.min (String.length a)
                   (String.length a + (String.length b + String.length c)))
    with (String.length a) by lia.
  replace (Nat.min (String.length a + String.length b)
                   (String.length a + (String.length b + String.length c)))
    with (String.length a + String.length b) by lia.
  replace (Nat.min (String.length a) (String.length a + String.length b))
    with (String.length a + 0) by lia.
  replace (Nat.max (String.length a) (String.length a + String.length b)
           - (String.length a + 0)) with (String.length b) by lia.
  rewrite stdsub_skip_app. apply stdsub_prefix.
Qed.

Lemma substring_prefix (b c : string) :
  JS.substring (b ++ c) 0 (String.length b) = b.
Proof. apply (substring_middle "" b c). Qed.

Lemma substringFrom_app (a b : string) :
  JS.substringFrom (a ++ b) (String.length a) = b.
Proof.
  unfold JS.substringFrom.
  pose proof (substring_middle a b "") as H.
  rewrite app_empty_r in H. rewrite length_app. exact H.
Qed.

Lemma substring_empty (s : string) a b :
  String.length s <= a -> String.length s <= b -> JS.substring s a b = "".
Proof.
  intros Ha Hb. unfold JS.substring.
  rewrite !Nat.min_r by lia. rewrite ?Nat.min_id, ?Nat.max_id.
  apply stdsub_past; lia.
Qed.

Lemma length_substring (s : string) a b :
  String.length (JS.substring s a b) <= Nat.max a b - Nat.min a b.
Proof. unfold JS.substring. rewrite length_stdsub. lia. Qed.

Lemma padStart_full (s : string) n :
  n <= String.length s -> JS.padStart s n = s.
Proof.
  intros H. unfold JS.padStart.
  replace (n - String.length s) with 0 by lia. reflexivity.
Qed.

Lemma padEnd_full (s : string) n :
  n <= String.length s -> JS.padEnd s n = s.
Proof.
  intros H. unfold JS.padEnd.
  replace (n - String.length s) with 0 by lia. apply app_empty_r.
Qed.

(** A full 32-byte slot is displayed as it is, whatever its type. *)
Lemma padTo32Bytes_full (hex ty : string) :
  64 <= String.length hex -> padTo32Bytes hex ty = hex.
Proof.
  intros H. unfold padTo32Bytes.
  destruct (_ || _ || _); [apply padStart_full; exact H|].
  destruct (_ && _); [apply padEnd_full; exact H | reflexivity].
Qed.

(** ** Induction on parameters *)

Section AbiParameterInduction.
Variable P : AbiParameter -> Prop.
Hypothesis step :
  forall ty nm cs,
    (forall l, cs = Some l -> Forall P l) -> P (mkParam ty nm cs).

Fixpoint AbiParameter_nested_ind (p : AbiParameter) : P p :=
  match p with
  | mkParam ty nm cs =>
      step ty nm cs
           (match cs as o return forall l, o = Some l -> Forall P l with
            | Some l0 =>
                fun l e =>
                  match e in _ = r
                        return match r with
                               | Some x => Forall P x
                               | None => True
                               end
                  with
                  | eq_refl =>
                      (fix all (xs : list AbiParameter) : Forall P xs :=
                         match xs with
                         | [] => Forall_nil P
                         | x :: xs' =>
                             Forall_cons x (AbiParameter_nested_ind x)
                                         (all xs')
                         end) l0
                  end
            | None => fun l e => match e with end
            end)
  end.
End AbiParameterInduction.

(** ** The recursion equations of the decomposer *)

Lemma nestedBreakdown_eq (p : AbiParameter) (hex : string) :
  nestedBreakdown p hex =
  match pcomponents p with
  | Some cs => buildFlatBreakdown cs hex
  | None => ([], [])
  end.
Proof. destruct p as [ty nm [cs|]]; reflexivity. Qed.

Lemma parseDynamicData_tuple (p : AbiParameter) (dataHex : string) cs :
  JS.endsWith (ptype p) "[]" = false ->
  (ptype p =? "string") || (ptype p =? "bytes") = false ->
  pcomponents p = Some cs ->
  parseDynamicData p dataHex =
  (headParts (buildFlatBreakdown cs dataHex)
     ++ tailParts (buildFlatBreakdown cs dataHex))%list.
Proof.
  destruct p as [ty nm c]; simpl; intros H1 H2 H3; subst c.
  rewrite H1, H2. reflexivity.
Qed.

Lemma parseDynamicData_array (p : AbiParameter) (dataHex : string) :
  JS.endsWith (ptype p) "[]" = true ->
  parseDynamicData p dataHex =
  mkPart "length" "uint256" ("0x" ++ JS.substring dataHex 0 64)
         (Some (NumberText (JS.parseInt16 (JS.substring dataHex 0 64)))) None
    :: arrayItems (JS.dropLast2 (ptype p)) (JS.substringFrom dataHex 64)
         (JS.loopCount (JS.parseInt16 (JS.substring dataHex 0 64))) 0 0.
Proof. destruct p as [ty nm c]; simpl; intros H1; rewrite H1; reflexivity. Qed.

Lemma parseDynamicData_blob (p : AbiParameter) (dataHex : string) :
  JS.endsWith (ptype p) "[]" = false ->
  (ptype p =? "string") || (ptype p =? "bytes") = true ->
  parseDynamicData p dataHex =
  let length := JS.parseInt16 (JS.substring dataHex 0 64) in
  let data :=
    JS.substringNum dataHex (JS.Int 64)
                    (JS.add (JS.Int 64) (JS.timesTwo length)) in
  [ mkPart "length" "uint256" ("0x" ++ JS.substring dataHex 0 64)
           (Some (NumberText length)) None;
    mkPart "value" (if ptype p =? "string" then "utf8" else "hex")
           ("0x" ++ JS.padEnd data (JS.ceilDiv (String.length data) 64 * 64))
           (Some (OriginalData data)) None ].
Proof.
  destruct p as [ty nm c]; simpl; intros H1 H2; rewrite H1, H2; reflexivity.
Qed.

(** ** Counting the parts *)

Section Passes.
Variable nested : AbiParameter -> string -> Breakdown.
Variable parseDyn : AbiParameter -> string -> list CalldataPart.
Variable hex : string.

Lemma firstPass_lengths params i c :
  List.length (fst (firstPass nested parseDyn hex params i c))
  = List.length params
  /\ List.length (snd (firstPass nested parseDyn hex params i c))
     = List.length (filter isDynamic params).
Proof.
  revert i c; induction params as [|p rest IH]; intros i c; simpl.
  - split; reflexivity.
  - destruct (isDynamic p).
    + specialize (IH (S i) (c + 64)).
      destruct (firstPass nested parseDyn hex rest (S i) (c + 64)); simpl in *.
      split; f_equal; apply IH.
    + destruct (pcomponents p) as [cs|]; [destruct (ptype p =? "tuple")|].
      * specialize (IH (S i) (c + List.length cs * 64)).
        destruct (firstPass nested parseDyn hex rest (S i)
                            (c + List.length cs * 64)); simpl in *.
        split; [f_equal|]; apply IH.
      * specialize (IH (S i) (c + 64)).
        destruct (firstPass nested parseDyn hex rest (S i) (c + 64));
          simpl in *.
        split; [f_equal|]; apply IH.
      * specialize (IH (S i) (c + 64)).
        destruct (firstPass nested parseDyn hex rest (S i) (c + 64));
          simpl in *.
        split; [f_equal|]; apply IH.
Qed.

Lemma firstPass_parsers params i c :
  Forall (fun pd : Pending => snd pd = parseDyn (param (fst pd)))
         (snd (firstPass nested parseDyn hex params i c)).
Proof.
  revert i c; induction params as [|p rest IH]; intros i c; simpl.
  - constructor.
  - destruct (isDynamic p).
    + specialize (IH (S i) (c + 64)).
      destruct (firstPass nested parseDyn hex rest (S i) (c + 64)); simpl in *.
      constructor; [reflexivity | exact IH].
    + destruct (pcomponents p) as [cs|]; [destruct (ptype p =? "tuple")|].
      * specialize (IH (S i) (c + List.length cs * 64)).
        destruct (firstPass nested parseDyn hex rest (S i)
                            (c + List.length cs * 64)); exact IH.
      * specialize (IH (S i) (c + 64)).
        destruct (firstPass nested parseDyn hex rest (S i) (c + 64)); exact IH.
      * specialize (IH (S i) (c + 64)).
        destruct (firstPass nested parseDyn hex rest (S i) (c + 64)); exact IH.
Qed.

Lemma length_tailPass items :
  List.length (tailPass hex items) = List.length items.
Proof.
  induction items as [|[it f] rest IH]; simpl; [reflexivity | congruence].
Qed.
End Passes.

Section SortFacts.
Context {A : Type} (cmp : A -> A -> JS.Num).

Lemma insert_perm x l : Permutation (x :: l) (JS.insert cmp x l).
Proof.
  induction l as [|y l IH]; simpl; [reflexivity|].
  destruct (JS.positive (cmp x y)); [|reflexivity].
  rewrite perm_swap. constructor. exact IH.
Qed.

Lemma sort_perm l : Permutation l (JS.sort cmp l).
Proof.
  induction l as [|x l IH]; simpl; [constructor|].
  rewrite <- insert_perm. constructor. exact IH.
Qed.

Lemma length_sort l : List.length (JS.sort cmp l) = List.length l.
Proof. symmetry. apply Permutation_length, sort_perm. Qed.
End SortFacts.

Lemma buildWith_lengths nested parseDyn hex params :
  List.length (headParts (buildWith nested parseDyn hex params))
  = List.length params
  /\ List.length (tailParts (buildWith nested parseDyn hex params))
     = List.length (filter isDynamic params).
Proof.
  unfold buildWith.
  pose proof (firstPass_lengths nested parseDyn hex params 0 0) as [H1 H2].
  destruct (firstPass nested parseDyn hex params 0 0) as [hs ds]; simpl in *.
  split; [exact H1|].
  rewrite length_tailPass, length_sort. exact H2.
Qed.

Lemma firstPass_headPartFor hex params i c :
  Forall2 headPartFor params
          (fst (firstPass nestedBreakdown parseDynamicData hex params i c)).
Proof.
  revert i c; induction params as [|p rest IH]; intros i c; simpl.
  - constructor.
  - unfold headPartFor at 1.
    destruct (isDynamic p) eqn:Hd.
    + specialize (IH (S i) (c + 64)).
      destruct (firstPass _ _ hex rest (S i) (c + 64)); simpl in *.
      constructor; [|exact IH].
      unfold headPartFor; rewrite Hd; reflexivity.
    + destruct (pcomponents p) as [cs|] eqn:Hc;
        [destruct (ptype p =? "tuple") eqn:Ht|].
      * specialize (IH (S i) (c + List.length cs * 64)).
        destruct (firstPass _ _ hex rest (S i) (c + List.length cs * 64));
          simpl in *.
        constructor; [|exact IH].
        unfold headPartFor; rewrite Hd, Hc, Ht.
        eexists. simpl. rewrite nestedBreakdown_eq, Hc. reflexivity.
      * specialize (IH (S i) (c + 64)).
        destruct (firstPass _ _ hex rest (S i) (c + 64)); simpl in *.
        constructor; [|exact IH].
        unfold headPartFor; rewrite Hd, Hc, Ht; reflexivity.
      * specialize (IH (S i) (c + 64)).
        destruct (firstPass _ _ hex rest (S i) (c + 64)); simpl in *.
        constructor; [|exact IH].
        unfold headPartFor; rewrite Hd, Hc; reflexivity.
Qed.

(** C10.  At every level of the recursion, i.e. for every parameter list
    and every window, [buildFlatBreakdown] emits exactly one head part per
    parameter and exactly one tail part per dynamic parameter; the head
    part of a static tuple carries the breakdown of its fields as child
    components, every other head part carries none. *)
Theorem C10_one_part_per_parameter :
  forall (params : list AbiParameter) (encodedDataHex : string),
    List.length (headParts (buildFlatBreakdown params encodedDataHex))
    = List.length params
    /\ List.length (tailParts (buildFlatBreakdown params encodedDataHex))
       = List.length (filter isDynamic params)
    /\ Forall2 headPartFor params
               (headParts (buildFlatBreakdown params encodedDataHex)).
Proof.
  intros params hex.
  pose proof (buildWith_lengths nestedBreakdown parseDynamicData hex params)
    as [H1 H2].
  split; [exact H1|]. split; [exact H2|].
  unfold buildFlatBreakdown, buildWith, headParts.
  pose proof (firstPass_headPartFor hex params 0 0) as H.
  destruct (firstPass nestedBreakdown parseDynamicData hex params 0 0).
  exact H.
Qed.

(** ** Signature parsing *)

Lemma includes_paren_cons c s :
  JS.includes (String c s) "(" = false ->
  Ascii.eqb c "(" = false /\ JS.includes s "(" = false.
Proof.
  cbn [JS.includes JS.startsWith]. rewrite andb_true_r, Ascii.eqb_sym.
  intros H. apply orb_false_elim in H. exact H.
Qed.

Lemma spacesThenParen_none s :
  JS.includes s "(" = false -> spacesThenParen s = false.
Proof.
  induction s as [|c s IH]; intros H; [reflexivity|].
  apply includes_paren_cons in H as [Hc Hs].
  simpl. rewrite Hc. destruct (JS.isWhiteSpace c); auto.
Qed.

Lemma funcNameMatch_none s :
  JS.includes s "(" = false -> funcNameMatch s = None.
Proof.
  induction s as [|c s IH]; intros H; [reflexivity|].
  pose proof (spacesThenParen_none _ H) as Hp.
  apply includes_paren_cons in H as [Hc Hs].
  cbn [funcNameMatch]. rewrite Hp, (IH Hs).
  destruct (JS.isLineTerminator c); reflexivity.
Qed.

Lemma trimStart_no_paren s :
  JS.includes s "(" = false -> JS.includes (JS.trimStart s) "(" = false.
Proof.
  induction s as [|c s IH]; intros H; [reflexivity|].
  cbn [JS.trimStart]. destruct (JS.isWhiteSpace c); [|exact H].
  apply includes_paren_cons in H as [_ Hs]. auto.
Qed.

Lemma includes_paren_build c s :
  Ascii.eqb c "(" = false -> JS.includes s "(" = false ->
  JS.includes (String c s) "(" = false.
Proof.
  intros Hc Hs. cbn [JS.includes JS.startsWith].
  rewrite andb_true_r, Ascii.eqb_sym, Hc, Hs. reflexivity.
Qed.

Lemma trimEnd_no_paren s :
  JS.includes s "(" = false -> JS.includes (JS.trimEnd s) "(" = false.
Proof.
  induction s as [|c s IH]; intros H; [reflexivity|].
  apply includes_paren_cons in H as [Hc Hs]. specialize (IH Hs).
  cbn [JS.trimEnd]. destruct (JS.trimEnd s) eqn:E.
  - destruct (JS.isWhiteSpace c); [reflexivity|].
    apply includes_paren_build; auto.
  - apply includes_paren_build; auto.
Qed.

(** C9.  An input with no opening parenthesis makes [encodeFunctionCall]
    throw its 'Invalid function signature' error, whatever the argument
    values and whatever the library functions do. *)
Theorem C9_no_parenthesis_is_rejected :
  forall keccakDigits parseAbiParameters encodeAbiParametersDigits
         (input : string) (argValues : list Value),
    JS.includes input "(" = false ->
    encodeFunctionCall keccakDigits parseAbiParameters
                       encodeAbiParametersDigits input argValues
    = Throw InvalidFunctionSignature.
Proof.
  intros k pa en input vals H.
  unfold encodeFunctionCall.
  rewrite funcNameMatch_none; [reflexivity|].
  unfold JS.trim. apply trimEnd_no_paren, trimStart_no_paren, H.
Qed.

Lemma C9_no_parenthesis_is_rejected_witness :
  JS.includes "transfer address to" "(" = false
  /\ encodeFunctionCall (fun _ => "") (fun _ => Some []) (fun _ _ => Some "")
                        "transfer address to" []
     = Throw InvalidFunctionSignature.
Proof.
  split; [reflexivity|].
  apply (C9_no_parenthesis_is_rejected (fun _ => "") (fun _ => Some [])
           (fun _ _ => Some "") "transfer address to" []).
  reflexivity.
Defined.

(** ** The selector *)

Lemma canonicalType_eraseNames (p : AbiParameter) :
  canonicalType (eraseNames p) = canonicalType p.
Proof.
  induction p as [ty nm cs IH] using AbiParameter_nested_ind.
  destruct cs as [l|]; [|reflexivity].
  specialize (IH l eq_refl). cbn.
  assert (E : map canonicalType (map eraseNames l) = map canonicalType l).
  { induction IH as [|x xs Hx _ IHxs]; [reflexivity|].
    cbn [map]. rewrite Hx, IHxs. reflexivity. }
  rewrite E. reflexivity.
Qed.

Lemma canonical_eraseNames (ps : list AbiParameter) :
  getCanonicalSignatureForParams (map eraseNames ps)
  = getCanonicalSignatureForParams ps.
Proof.
  unfold getCanonicalSignatureForParams. f_equal.
  rewrite map_map. apply map_ext. intros; apply canonicalType_eraseNames.
Qed.

Lemma canonical_same_types (ps1 ps2 : list AbiParameter) :
  map eraseNames ps1 = map eraseNames ps2 ->
  getCanonicalSignatureForParams ps1 = getCanonicalSignatureForParams ps2.
Proof.
  intros H. rewrite <- (canonical_eraseNames ps1), H.
  apply canonical_eraseNames.
Qed.

Lemma stdsub_trunc (s : string) n :
  String.substring 0 (Nat.min n (String.length s)) s = String.substring 0 n s.
Proof.
  revert n; induction s as [|c s IH]; intros n.
  - rewrite !stdsub_nil. reflexivity.
  - destruct n; [reflexivity|]. cbn [String.length Nat.min String.substring].
    f_equal. apply IH.
Qed.

Lemma substring_from_zero (s : string) n :
  JS.substring s 0 n = String.substring 0 n s.
Proof.
  unfold JS.substring. cbn [Nat.min].
  replace (Nat.max 0 (Nat.min n (String.length s)) - 0)
    with (Nat.min n (String.length s)) by lia.
  apply stdsub_trunc.
Qed.

Lemma selectorOf_digits keccakDigits (sig : string) :
  selectorOf keccakDigits sig
  = "0x" ++ String.substring 0 8 (keccakDigits sig).
Proof.
  unfold selectorOf, keccak256. rewrite substring_from_zero. reflexivity.
Qed.

(** The canonical parameter list never reads a name: two inputs for
    which the expression captures the same function name and whose
    parameters have the same types get the same canonical signature and
    the same selector, ['0x'] and the first 8 digits of the hash. *)
Lemma same_captured_name_same_selector :
  forall keccakDigits parseAbiParameters encodeAbiParametersDigits
         (input1 input2 : string) (argValues1 argValues2 : list Value)
         (funcName : string) (params1 params2 : list AbiParameter)
         (r1 r2 : EncodeResult),
    funcNameMatch (JS.trim input1) = Some funcName ->
    funcNameMatch (JS.trim input2) = Some funcName ->
    parseAbiParameters (argsStrOf (JS.trim input1)) = Some params1 ->
    parseAbiParameters (argsStrOf (JS.trim input2)) = Some params2 ->
    map eraseNames params1 = map eraseNames params2 ->
    encodeFunctionCall keccakDigits parseAbiParameters
                       encodeAbiParametersDigits input1 argValues1 = Ok r1 ->
    encodeFunctionCall keccakDigits parseAbiParameters
                       encodeAbiParametersDigits input2 argValues2 = Ok r2 ->
    let signature1 :=
      funcName ++ "(" ++ getCanonicalSignatureForParams params1 ++ ")" in
    let signature2 :=
      funcName ++ "(" ++ getCanonicalSignatureForParams params2 ++ ")" in
    let selector := "0x" ++ String.substring 0 8 (keccakDigits signature1) in
    signature1 = signature2
    /\ hd_error (parts r1)
       = Some (mkPart "Function Selector" "bytes4" selector
                      (Some (Keccak256Of signature1)) None)
    /\ hd_error (parts r2) = hd_error (parts r1)
    /\ (exists rest, calldata r1 = selector ++ rest)
    /\ (exists rest, calldata r2 = selector ++ rest).
Proof.
  intros k pa en in1 in2 v1 v2 fn ps1 ps2 r1 r2 Hn1 Hn2 Hp1 Hp2 He H1 H2.
  cbn zeta.
  pose proof (canonical_same_types _ _ He) as Hc.
  unfold encodeFunctionCall in H1, H2.
  rewrite Hn1, Hp1 in H1. rewrite Hn2, Hp2 in H2.
  destruct (encodeAbiParameters en ps1 v1) as [e1|]; [|discriminate].
  destruct (encodeAbiParameters en ps2 v2) as [e2|]; [|discriminate].
  rewrite selectorOf_digits in H1, H2. rewrite <- Hc in H2.
  apply (f_equal (fun r => match r with Ok a => a | Throw _ => r1 end)) in H1.
  apply (f_equal (fun r => match r with Ok a => a | Throw _ => r2 end)) in H2.
  cbv beta iota in H1, H2. subst r1 r2.
  rewrite <- Hc. cbn [parts calldata hd_error].
  repeat split; eauto.
Qed.

(** The result of a call whose three steps succeed. *)
Lemma encodeFunctionCall_ok keccakDigits parseAbiParameters
      encodeAbiParametersDigits (input : string) (argValues : list Value)
      (funcName signature digits : string) (abiParams : list AbiParameter) :
  funcNameMatch (JS.trim input) = Some funcName ->
  parseAbiParameters (argsStrOf (JS.trim input)) = Some abiParams ->
  encodeAbiParametersDigits abiParams argValues = Some digits ->
  funcName ++ "(" ++ getCanonicalSignatureForParams abiParams ++ ")"
  = signature ->
  encodeFunctionCall keccakDigits parseAbiParameters
                     encodeAbiParametersDigits input argValues
  = Ok (mkEncodeResult
          (selectorOf keccakDigits signature ++ digits)
          (mkPart "Function Selector" "bytes4"
                  (selectorOf keccakDigits signature)
                  (Some (Keccak256Of signature)) None
             :: headParts (buildFlatBreakdown abiParams digits)
             ++ tailParts (buildFlatBreakdown abiParams digits))%list).
Proof.
  intros Hn Hp He Hs. unfold encodeFunctionCall.
  rewrite Hn, Hp. unfold encodeAbiParameters. rewrite He.
  cbn [option_map]. rewrite Hs.
  change (JS.substringFrom ("0x" ++ digits) 2)
    with (JS.substringFrom ("0x" ++ digits) (String.length "0x")).
  rewrite substringFrom_app. reflexivity.
Qed.

(** C2.  The claim fails on the code.  The expression that captures the
    function name is greedy and runs to the last opening parenthesis of
    the input, so with a struct parameter the text captured holds the
    parameters written before the struct, their names included, and a
    space before the parenthesis is captured too.  For every hash
    function: [f(uint256 a, (uint256 b) p)] and
    [f(uint256 x, (uint256 b) p)], which differ in one argument name,
    are encoded to the same parameter bytes under the selectors of two
    different signatures, each holding the argument name, neither being
    [f(uint256,(uint256))]; and [transfer(address to)] and
    [transfer (address to)], which differ in one space, under those of
    [transfer(address)] and [transfer (address)]. *)
Theorem C2_greedy_capture_keeps_argument_names :
  forall keccakDigits : string -> string,
    let selectorPart := fun signature : string =>
      mkPart "Function Selector" "bytes4"
             (selectorOf keccakDigits signature)
             (Some (Keccak256Of signature)) None in
    (exists r1 r2,
        encodeFunctionCall keccakDigits Example.parseStruct
                           (Example.schemeEncoder Example.structTypes)
                           "f(uint256 a, (uint256 b) p)"
                           Example.structValues = Ok r1
        /\ encodeFunctionCall keccakDigits Example.parseStruct
                              (Example.schemeEncoder Example.structTypes)
                              "f(uint256 x, (uint256 b) p)"
                              Example.structValues = Ok r2
        /\ hd_error (parts r1)
           = Some (selectorPart "f(uint256 a, (uint256,(uint256))")
        /\ hd_error (parts r2)
           = Some (selectorPart "f(uint256 x, (uint256,(uint256))")
        /\ calldata r1
           = selectorOf keccakDigits "f(uint256 a, (uint256,(uint256))"
             ++ Abi.word 1 ++ Abi.word 2
        /\ calldata r2
           = selectorOf keccakDigits "f(uint256 x, (uint256,(uint256))"
             ++ Abi.word 1 ++ Abi.word 2)
    /\ (exists r1 r2,
           encodeFunctionCall keccakDigits Example.parseStruct
                              (Example.schemeEncoder [Abi.Address])
                              "transfer(address to)"
                              [VString Example.holder] = Ok r1
           /\ encodeFunctionCall keccakDigits Example.parseStruct
                                 (Example.schemeEncoder [Abi.Address])
                                 "transfer (address to)"
                                 [VString Example.holder] = Ok r2
           /\ hd_error (parts r1) = Some (selectorPart "transfer(address)")
           /\ hd_error (parts r2) = Some (selectorPart "transfer (address)")
           /\ calldata r1
              = selectorOf keccakDigits "transfer(address)"
                ++ JS.zeros 24 ++ "1111111111111111111111111111111111111111"
           /\ calldata r2
              = selectorOf keccakDigits "transfer (address)"
                ++ JS.zeros 24 ++ "1111111111111111111111111111111111111111").
Proof.
  intros k selectorPart. split.
  - eexists. eexists.
    split.
    { apply (encodeFunctionCall_ok
               k _ _ _ _ "f(uint256 a, "
               "f(uint256 a, (uint256,(uint256))"
               (Abi.word 1 ++ Abi.word 2) (Example.structParams "a"));
        vm_compute; reflexivity. }
    split.
    { apply (encodeFunctionCall_ok
               k _ _ _ _ "f(uint256 x, "
               "f(uint256 x, (uint256,(uint256))"
               (Abi.word 1 ++ Abi.word 2) (Example.structParams "x"));
        vm_compute; reflexivity. }
    cbn [parts calldata hd_error]. repeat split; reflexivity.
  - eexists. eexists.
    split.
    { apply (encodeFunctionCall_ok
               k _ _ _ _ "transfer" "transfer(address)"
               (JS.zeros 24 ++ "1111111111111111111111111111111111111111")
               [Example.address (Some "to")]);
        vm_compute; reflexivity. }
    split.
    { apply (encodeFunctionCall_ok
               k _ _ _ _ "transfer " "transfer (address)"
               (JS.zeros 24 ++ "1111111111111111111111111111111111111111")
               [Example.address (Some "to")]);
        vm_compute; reflexivity. }
    cbn [parts calldata hd_error]. repeat split; reflexivity.
Qed.

(** ** Array items *)

Lemma arrayItems_map elementType itemsDataHex n i :
  arrayItems elementType itemsDataHex n i (64 * i)
  = map (elementPart elementType itemsDataHex 1) (seq i n).
Proof.
  revert i; induction n as [|n IH]; intros i; [reflexivity|].
  cbn [arrayItems seq map]. rewrite <- (IH (S i)).
  replace (64 * S i) with (64 * i + 64) by lia.
  unfold elementPart.
  replace (64 * 1 * i) with (64 * i) by lia.
  replace (64 * 1) with 64 by lia.
  reflexivity.
Qed.

(** C3 (amended).  For an array-typed dynamic item the element count is
    read from the first 32-byte word of the window, and then exactly that
    many consecutive 32-byte words are read, one element part each,
    whatever the element type is: a dynamic element type is not
    decomposed recursively, and an element that is a static record gets
    one word as well. *)
Theorem C3_array_elements_one_word_each :
  forall (p : AbiParameter) (dataHex : string),
    JS.endsWith (ptype p) "[]" = true ->
    let length := JS.parseInt16 (JS.substring dataHex 0 64) in
    parseDynamicData p dataHex =
    mkPart "length" "uint256" ("0x" ++ JS.substring dataHex 0 64)
           (Some (NumberText length)) None
      :: map (elementPart (JS.dropLast2 (ptype p))
                          (JS.substringFrom dataHex 64) 1)
             (seq 0 (JS.loopCount length)).
Proof.
  intros p dataHex H. cbv zeta.
  rewrite (parseDynamicData_array p dataHex H). f_equal.
  apply (arrayItems_map _ _ _ 0).
Qed.

Lemma C3_array_elements_one_word_each_witness :
  parseDynamicData Example.stringArray Example.stringArrayData =
  mkPart "length" "uint256"
         ("0x" ++ JS.substring Example.stringArrayData 0 64)
         (Some (NumberText
                  (JS.parseInt16 (JS.substring Example.stringArrayData 0 64))))
         None
    :: map (elementPart (JS.dropLast2 (ptype Example.stringArray))
                        (JS.substringFrom Example.stringArrayData 64) 1)
           (seq 0 (JS.loopCount
                     (JS.parseInt16
                        (JS.substring Example.stringArrayData 0 64)))).
Proof.
  apply (C3_array_elements_one_word_each
           Example.stringArray Example.stringArrayData).
  reflexivity.
Defined.

(** C3 as stated fails on [string[]] with the value [["hi"]]: the code
    shows the count and one element part holding the raw head word of the
    element (its offset, 0x20); the head/tail procedure is not run on the
    elements, so the result differs from the claimed one, which goes on
    to the length and the bytes of ["hi"]. *)
Lemma C3_counterexample_string_array :
  parseDynamicData Example.stringArray Example.stringArrayData
  = [ mkPart "length" "uint256"
        "0x0000000000000000000000000000000000000000000000000000000000000001"
        (Some (NumberText (JS.Int 1))) None;
      mkPart "[0]" "string"
        "0x0000000000000000000000000000000000000000000000000000000000000020"
        None None ]
  /\ parseDynamicData Example.stringArray Example.stringArrayData
     <> parseArrayClaimed Example.stringArray Example.stringArrayData.
Proof.
  split; [vm_compute; reflexivity|].
  intros H. vm_compute in H. discriminate H.
Qed.

(** ** Static tuples in the head *)

(** C4 at the failing input: the nested static tuple
    [((uint256 a, uint256 b) inner, uint256 c) outer] is encoded on three
    head words, the sum of its fields' word counts, but the decomposer
    takes [components.length = 2] slots for it: the part for [outer]
    holds the words of 1 and 2 only, its field [c] is shown as zero, and
    the next parameter [d], whose value is 4, is shown with the word of
    3. *)
Lemma C4_nested_static_tuple_misread :
  Abi.staticWords (nth 0 Example.nestedTypes Abi.Bool) = 3
  /\ exists encoded,
      Abi.encode Example.nestedTypes Example.nestedValues = Abi.Done encoded
      /\ encoded = Abi.word 1 ++ Abi.word 2 ++ Abi.word 3 ++ Abi.word 4
      /\ map value (headParts (buildFlatBreakdown Example.nestedParams encoded))
         = [ "0x" ++ Abi.word 1 ++ Abi.word 2; "0x" ++ Abi.word 3 ]
      /\ tailParts (buildFlatBreakdown Example.nestedParams encoded) = [].
Proof.
  split; [reflexivity|].
  eexists. split; [vm_compute; reflexivity|].
  split; [vm_compute; reflexivity|].
  split; vm_compute; reflexivity.
Qed.

(** ** Numbers and the sort *)

Lemma toDouble_small (z : Z) :
  (Z.abs z < 2 ^ 53)%Z -> JS.toDouble z = z.
Proof.
  intros H. unfold JS.toDouble.
  destruct (Z.eq_dec z 0) as [->|Hz]; [reflexivity|].
  assert (Hl : (Z.log2 (Z.abs z) < 53)%Z)
    by (apply Z.log2_lt_pow2; lia).
  replace (Z.log2 (Z.abs z) + 1 <=? 53)%Z with true; [reflexivity|].
  symmetry. apply Z.leb_le. lia.
Qed.

Lemma toDouble_pos (z : Z) : (0 < z)%Z -> (0 < JS.toDouble z)%Z.
Proof.
  intros H. unfold JS.toDouble.
  destruct (Z.log2 (Z.abs z) + 1 <=? 53)%Z eqn:E; [exact H|].
  apply Z.leb_gt in E.
  rewrite (Z.abs_eq z) in * by lia.
  rewrite (Z.sgn_pos z H), Z.mul_1_l.
  set (sh := (Z.log2 z + 1 - 53)%Z) in *.
  assert (Hsh : (0 < sh <= Z.log2 z)%Z) by (subst sh; lia).
  assert (Hq : (0 < Z.shiftr z sh)%Z).
  { rewrite Z.shiftr_div_pow2 by lia.
    apply Z.div_str_pos. split; [apply Z.pow_pos_nonneg; lia|].
    transitivity (2 ^ Z.log2 z)%Z.
    - apply Z.pow_le_mono_r; lia.
    - apply Z.log2_spec; lia. }
  rewrite Z.shiftl_mul_pow2 by lia.
  apply Z.mul_pos_pos; [|apply Z.pow_pos_nonneg; lia].
  destruct (_ || _); lia.
Qed.

Lemma toDouble_nonpos (z : Z) : (z <= 0)%Z -> (JS.toDouble z <= 0)%Z.
Proof.
  intros H. unfold JS.toDouble.
  destruct (Z.log2 (Z.abs z) + 1 <=? 53)%Z eqn:E; [exact H|].
  apply Z.leb_gt in E.
  destruct (Z.eq_dec z 0) as [->|Hz]; [cbn in E; lia|].
  rewrite (Z.sgn_neg z) by lia.
  set (sh := (Z.log2 (Z.abs z) + 1 - 53)%Z) in *.
  assert (Hsh : (0 < sh)%Z) by (subst sh; lia).
  assert (Hq : (0 <= Z.shiftr (Z.abs z) sh)%Z)
    by (apply Z.shiftr_nonneg; lia).
  rewrite Z.shiftl_mul_pow2 by lia.
  assert (Hp : (0 < 2 ^ sh)%Z) by (apply Z.pow_pos_nonneg; lia).
  destruct (_ || _); nia.
Qed.

(** The comparator is positive exactly when the first offset is the
    larger one. *)
Lemma positive_sub (x y : Z) :
  JS.positive (JS.sub (JS.Int x) (JS.Int y)) = (y <? x)%Z.
Proof.
  cbn [JS.sub JS.positive].
  destruct (Z.ltb_spec y x) as [H|H].
  - apply Z.ltb_lt, toDouble_pos. lia.
  - apply Z.ltb_ge, toDouble_nonpos. lia.
Qed.

Lemma sort_map_fst (l : list Pending) :
  map fst (JS.sort compareOffsets l) = JS.sort compareItems (map fst l).
Proof.
  induction l as [|x l IH]; [reflexivity|].
  cbn [JS.sort fold_right map]. fold (JS.sort compareOffsets l).
  fold (JS.sort compareItems (map fst l)). rewrite <- IH.
  generalize (JS.sort compareOffsets l) as s. clear IH.
  induction s as [|y s IHs]; [reflexivity|].
  cbn [JS.insert map]. unfold compareOffsets at 1.
  destruct (JS.positive (compareItems (fst x) (fst y)));
    cbn [map]; [rewrite IHs|]; reflexivity.
Qed.

Lemma sort_parsers (P : Pending -> Prop) (l : list Pending) :
  Forall P l -> Forall P (JS.sort compareOffsets l).
Proof.
  intros H. eapply Permutation_Forall; [apply sort_perm | exact H].
Qed.

Lemma itemLe_trans a b c : itemLe a b -> itemLe b c -> itemLe a c.
Proof.
  unfold itemLe, JS.le.
  destruct (offset a), (offset b), (offset c); try tauto; lia.
Qed.

Lemma insert_sorted (x : DynamicItem) (l : list DynamicItem) :
  isNumber x -> Forall isNumber l ->
  Sorted itemLe l -> Sorted itemLe (JS.insert compareItems x l).
Proof.
  intros Hx Hl Hs. induction Hs as [|y l Hs IH Hd]; cbn [JS.insert].
  - repeat constructor.
  - inversion Hl as [|? ? Hy Hl']; subst.
    unfold isNumber in Hx, Hy.
    destruct (offset x) as [|zx] eqn:Ex; [congruence|].
    destruct (offset y) as [|zy] eqn:Ey; [congruence|].
    unfold compareItems at 1. rewrite Ex, Ey, positive_sub.
    destruct (Z.ltb_spec zy zx) as [H|H].
    + constructor; [apply IH; exact Hl'|].
      destruct l as [|w l]; cbn [JS.insert].
      * constructor. unfold itemLe, JS.le. rewrite Ex, Ey. lia.
      * destruct (JS.positive (compareItems x w)).
        -- inversion Hd; subst. constructor. assumption.
        -- constructor. unfold itemLe, JS.le. rewrite Ex, Ey. lia.
    + constructor; [constructor; assumption|].
      constructor. unfold itemLe, JS.le. rewrite Ex, Ey. exact H.
Qed.

Lemma sort_sorted (l : list DynamicItem) :
  Forall isNumber l -> StronglySorted itemLe (JS.sort compareItems l).
Proof.
  intros H. apply Sorted_StronglySorted; [exact itemLe_trans|].
  induction H as [|x l Hx Hl IH]; cbn [JS.sort fold_right]; [constructor|].
  apply insert_sorted; [exact Hx| |exact IH].
  eapply Permutation_Forall; [apply sort_perm | exact Hl].
Qed.

(** A stable sort leaves a sorted list as it is. *)
Lemma sort_id (l : list DynamicItem) :
  Forall isNumber l -> Sorted itemLe l -> JS.sort compareItems l = l.
Proof.
  intros Hn Hs. induction Hs as [|x l Hs IH Hd]; [reflexivity|].
  inversion Hn as [|? ? Hx Hl]; subst.
  cbn [JS.sort fold_right]. fold (JS.sort compareItems l).
  rewrite (IH Hl). destruct Hd as [|y l Hxy]; [reflexivity|].
  cbn [JS.insert]. inversion Hl as [|? ? Hy _]; subst.
  unfold isNumber in Hx, Hy. unfold itemLe, JS.le in Hxy.
  destruct (offset x) as [|zx] eqn:Ex; [congruence|].
  destruct (offset y) as [|zy] eqn:Ey; [congruence|].
  unfold compareItems. rewrite Ex, Ey, positive_sub.
  destruct (Z.ltb_spec zy zx); [lia | reflexivity].
Qed.

(** Two sorted lists of integers with the same members are equal. *)
Lemma sorted_Z_unique (l1 l2 : list Z) :
  Permutation l1 l2 ->
  StronglySorted Z.le l1 -> StronglySorted Z.le l2 -> l1 = l2.
Proof.
  revert l2. induction l1 as [|a l1 IH]; intros l2 Hp H1 H2.
  - apply Permutation_nil in Hp. subst. reflexivity.
  - destruct l2 as [|b l2];
      [apply Permutation_sym, Permutation_nil in Hp; discriminate|].
    inversion H1 as [|? ? H1' Ha]; subst.
    inversion H2 as [|? ? H2' Hb]; subst.
    rewrite Forall_forall in Ha, Hb.
    assert (Hba : (b <= a)%Z).
    { assert (Hin : In a (b :: l2))
        by (eapply Permutation_in; [exact Hp | left; reflexivity]).
      destruct Hin as [->|Hin]; [lia | exact (Hb a Hin)]. }
    assert (Hab : (a <= b)%Z).
    { assert (Hin : In b (a :: l1))
        by (eapply Permutation_in;
            [apply Permutation_sym, Hp | left; reflexivity]).
      destruct Hin as [->|Hin]; [lia | exact (Ha b Hin)]. }
    assert (a = b) by lia. subst b.
    f_equal. apply IH; [|assumption|assumption].
    eapply Permutation_cons_inv. exact Hp.
Qed.

Lemma offsets_as_values (l : list DynamicItem) :
  Forall isNumber l -> map offset l = map JS.Int (map offsetValue l).
Proof.
  induction 1 as [|x l Hx _ IH]; [reflexivity|].
  cbn [map]. rewrite IH. f_equal.
  unfold offsetValue, isNumber in *. destruct (offset x); congruence.
Qed.

Lemma sorted_values (l : list DynamicItem) :
  StronglySorted itemLe l -> StronglySorted Z.le (map offsetValue l).
Proof.
  induction 1 as [|x l Hs IH Hx]; cbn [map]; constructor; [exact IH|].
  rewrite Forall_map. eapply Forall_impl; [|exact Hx].
  intros y. unfold itemLe, JS.le, offsetValue.
  destruct (offset x), (offset y); tauto.
Qed.

(** The offsets met by the tail loop do not depend on the order in which
    the items were recorded. *)
Lemma sorted_offsets_unique (l1 l2 : list DynamicItem) :
  Permutation l1 l2 -> Forall isNumber l1 ->
  map offset (JS.sort compareItems l1) = map offset (JS.sort compareItems l2).
Proof.
  intros Hp Hn.
  assert (Hn2 : Forall isNumber l2)
    by (eapply Permutation_Forall; eassumption).
  rewrite !offsets_as_values
    by (eapply Permutation_Forall; [apply sort_perm | assumption]).
  f_equal. apply sorted_Z_unique.
  - apply Permutation_map.
    rewrite <- (sort_perm compareItems l1), <- (sort_perm compareItems l2).
    exact Hp.
  - apply sorted_values, sort_sorted, Hn.
  - apply sorted_values, sort_sorted, Hn2.
Qed.

(** ** Hexadecimal words *)

Lemma zeros_snoc n : JS.zeros n ++ "0" = JS.zeros (S n).
Proof.
  induction n as [|n IH]; [reflexivity|].
  cbn [JS.zeros append]. rewrite IH. reflexivity.
Qed.

Lemma zeros_app a b : JS.zeros a ++ JS.zeros b = JS.zeros (a + b).
Proof. induction a; cbn [JS.zeros append Nat.add]; congruence. Qed.

Lemma length_fixedHex w n : String.length (Abi.fixedHex w n) = w.
Proof.
  revert n; induction w as [|w IH]; intros n; [reflexivity|].
  cbn [Abi.fixedHex]. rewrite length_app, IH. cbn. lia.
Qed.

Lemma length_word n : String.length (Abi.word n) = 64.
Proof. apply length_fixedHex. Qed.

Lemma fixedHex_zero w : Abi.fixedHex w 0 = JS.zeros w.
Proof.
  induction w as [|w IH]; [reflexivity|].
  cbn [Abi.fixedHex]. change (0 / 16)%Z with 0%Z. rewrite IH.
  apply zeros_snoc.
Qed.

(** A value that fits [k] digits is rendered on [j + k] digits as [j]
    zeros followed by its [k] digits. *)
Lemma fixedHex_left_padded (j k : nat) (n : Z) :
  (0 <= n < 16 ^ Z.of_nat k)%Z ->
  Abi.fixedHex (j + k) n = JS.zeros j ++ Abi.fixedHex k n.
Proof.
  revert n; induction k as [|k IH]; intros n H.
  - cbn in H. assert (n = 0%Z) by lia. subst n.
    rewrite Nat.add_0_r, fixedHex_zero. cbn [Abi.fixedHex].
    symmetry; apply app_empty_r.
  - rewrite Nat.add_succ_r. cbn [Abi.fixedHex].
    rewrite IH, app_assoc_s; [reflexivity|].
    rewrite Nat2Z.inj_succ, Z.pow_succ_r in H by lia.
    split; [apply Z.div_pos; lia|].
    apply Z.div_lt_upper_bound; lia.
Qed.

Lemma hexDigit_hexChar (d : Z) :
  (0 <= d < 16)%Z -> JS.hexDigit (Abi.hexChar d) = Some d.
Proof.
  intros H.
  assert (E : (d = 0 \/ d = 1 \/ d = 2 \/ d = 3 \/ d = 4 \/ d = 5 \/ d = 6
               \/ d = 7 \/ d = 8 \/ d = 9 \/ d = 10 \/ d = 11 \/ d = 12
               \/ d = 13 \/ d = 14 \/ d = 15)%Z) by lia.
  repeat (destruct E as [->|E]; [reflexivity|]). subst d. reflexivity.
Qed.

Lemma hexChar_plain (d : Z) :
  (0 <= d < 16)%Z ->
  JS.isWhiteSpace (Abi.hexChar d) = false
  /\ Ascii.eqb (Abi.hexChar d) "-" = false
  /\ Ascii.eqb (Abi.hexChar d) "+" = false
  /\ Ascii.eqb (Abi.hexChar d) "x" = false
  /\ Ascii.eqb (Abi.hexChar d) "X" = false.
Proof.
  intros H.
  assert (E : (d = 0 \/ d = 1 \/ d = 2 \/ d = 3 \/ d = 4 \/ d = 5 \/ d = 6
               \/ d = 7 \/ d = 8 \/ d = 9 \/ d = 10 \/ d = 11 \/ d = 12
               \/ d = 13 \/ d = 14 \/ d = 15)%Z) by lia.
  repeat (destruct E as [->|E]; [repeat split; reflexivity|]).
  subst d. repeat split; reflexivity.
Qed.

Lemma hexPrefix_fixedHex (w : nat) (n acc : Z) (read : nat) (rest : string) :
  (0 <= n)%Z ->
  JS.hexPrefix (Abi.fixedHex w n ++ rest) acc read
  = JS.hexPrefix rest (acc * 16 ^ Z.of_nat w + n mod 16 ^ Z.of_nat w)%Z
                 (read + w).
Proof.
  revert n rest; induction w as [|w IH]; intros n rest Hn.
  - cbn [Abi.fixedHex append]. rewrite Nat.add_0_r.
    change (16 ^ Z.of_nat 0)%Z with 1%Z. rewrite Z.mod_1_r.
    f_equal. lia.
  - cbn [Abi.fixedHex]. rewrite app_assoc_s. cbn [append].
    rewrite IH by (apply Z.div_pos; lia).
    cbn [JS.hexPrefix].
    rewrite hexDigit_hexChar by (apply Z.mod_pos_bound; lia).
    f_equal; [|lia].
    rewrite Nat2Z.inj_succ, Z.pow_succ_r by lia.
    rewrite (Z.rem_mul_r n 16 (16 ^ Z.of_nat w)) by lia.
    lia.
Qed.

(** The head of a rendering of two digits or more. *)
Lemma fixedHex_two_heads (w : nat) (n : Z) :
  (0 <= n)%Z ->
  exists d1 d2 rest,
    (0 <= d1 < 16)%Z /\ (0 <= d2 < 16)%Z
    /\ Abi.fixedHex (S (S w)) n
       = String (Abi.hexChar d1) (String (Abi.hexChar d2) rest).
Proof.
  revert n; induction w as [|w IH]; intros n Hn.
  - exists ((n / 16) mod 16)%Z, (n mod 16)%Z, "".
    repeat split; try (apply Z.mod_pos_bound; lia).
  - destruct (IH (n / 16)%Z) as (d1 & d2 & rest & H1 & H2 & E);
      [apply Z.div_pos; lia|].
    exists d1, d2, (rest ++ String (Abi.hexChar (n mod 16)) "").
    split; [exact H1|]. split; [exact H2|].
    change (Abi.fixedHex (S (S (S w))) n)
      with (Abi.fixedHex (S (S w)) (n / 16)
              ++ String (Abi.hexChar (n mod 16)) "").
    rewrite E. reflexivity.
Qed.

Lemma parseInt16_plain (c1 c2 : ascii) (rest : string) :
  JS.isWhiteSpace c1 = false -> Ascii.eqb c1 "-" = false ->
  Ascii.eqb c1 "+" = false ->
  Ascii.eqb c2 "x" = false -> Ascii.eqb c2 "X" = false ->
  JS.parseInt16 (String c1 (String c2 rest))
  = let '(v, read) := JS.hexPrefix (String c1 (String c2 rest)) 0 0 in
    match read with
    | O => JS.NaN
    | S _ => JS.Int (JS.toDouble v)
    end.
Proof.
  intros Hw Hm Hp Hx HX.
  unfold JS.parseInt16. cbn [JS.trimStart]. rewrite Hw.
  assert (E1 : forall t : string,
             match String c1 t with
             | String "-" t' => ((-1)%Z, t')
             | String "+" t' => (1%Z, t')
             | _ => (1%Z, String c1 t)
             end = (1%Z, String c1 t)).
  { intros t. destruct c1 as [[] [] [] [] [] [] [] []];
      try reflexivity; discriminate. }
  rewrite E1.
  assert (E2 : JS.strip0x (String c1 (String c2 rest))
               = String c1 (String c2 rest)).
  { unfold JS.strip0x.
    destruct c1 as [[] [] [] [] [] [] [] []]; try reflexivity.
    destruct c2 as [[] [] [] [] [] [] [] []]; try reflexivity;
      discriminate. }
  rewrite E2.
  destruct (JS.hexPrefix (String c1 (String c2 rest)) 0 0) as [v read].
  destruct read; [reflexivity|]. rewrite Z.mul_1_l. reflexivity.
Qed.

Lemma parseInt16_word (n : Z) :
  (0 <= n < 2 ^ 53)%Z -> JS.parseInt16 (Abi.word n) = JS.Int n.
Proof.
  intros H. unfold Abi.word.
  destruct (fixedHex_two_heads 62 n) as (d1 & d2 & rest & H1 & H2 & E);
    [lia|].
  pose proof (hexChar_plain d1 H1) as (A1 & A2 & A3 & _ & _).
  pose proof (hexChar_plain d2 H2) as (_ & _ & _ & B4 & B5).
  rewrite E, parseInt16_plain by assumption. rewrite <- E.
  pose proof (hexPrefix_fixedHex 64 n 0 0 "") as P.
  rewrite app_empty_r in P. rewrite P by lia.
  cbn [JS.hexPrefix Nat.add]. rewrite Z.mul_0_l, Z.add_0_l.
  rewrite Z.mod_small.
  - rewrite toDouble_small; [reflexivity|]. rewrite Z.abs_eq; lia.
  - split; [lia|]. change (Z.of_nat 64) with 64%Z.
    assert (2 ^ 53 < 16 ^ 64)%Z by reflexivity. lia.
Qed.

Lemma length_hexOfBytes (bytes : string) :
  String.length (Abi.hexOfBytes bytes) = 2 * String.length bytes.
Proof.
  induction bytes as [|c bytes IH]; [reflexivity|].
  cbn [Abi.hexOfBytes]. rewrite length_app, length_fixedHex, IH.
  cbn [String.length]. lia.
Qed.

(** ** Head slots that are numbers *)

Lemma hexPrefix_read (s : string) :
  forall acc read, read <= snd (JS.hexPrefix s acc read).
Proof.
  induction s as [|c s IH]; intros acc read; cbn [JS.hexPrefix snd]; [lia|].
  destruct (JS.hexDigit c); cbn [snd]; [|lia].
  specialize (IH (16 * acc + z)%Z (S read)). lia.
Qed.

Lemma hexDigit_plain (c : ascii) (d : Z) :
  JS.hexDigit c = Some d ->
  JS.isWhiteSpace c = false
  /\ Ascii.eqb c "-" = false /\ Ascii.eqb c "+" = false
  /\ Ascii.eqb c "x" = false /\ Ascii.eqb c "X" = false.
Proof.
  destruct c as [[] [] [] [] [] [] [] []]; intros H;
    try discriminate H; repeat split.
Qed.

(** [parseInt] of a non-empty string of hexadecimal digits is a number. *)
Lemma parseInt16_allHex (s : string) :
  s <> "" -> allHex s = true -> JS.parseInt16 s <> JS.NaN.
Proof.
  destruct s as [|c1 r]; [congruence|]. intros _ H.
  cbn [allHex] in H. destruct (JS.hexDigit c1) as [d1|] eqn:E1;
    [|discriminate H].
  destruct (hexDigit_plain c1 d1 E1) as (A1 & A2 & A3 & _ & _).
  assert (Hread : 1 <= snd (JS.hexPrefix (String c1 r) 0 0)).
  { cbn [JS.hexPrefix]. rewrite E1. apply hexPrefix_read. }
  destruct r as [|c2 r'].
  - unfold JS.parseInt16. cbn [JS.trimStart]. rewrite A1.
    destruct c1 as [[] [] [] [] [] [] [] []]; try discriminate E1;
      cbn; discriminate.
  - cbn [allHex] in H. destruct (JS.hexDigit c2) as [d2|] eqn:E2;
      [|discriminate H].
    destruct (hexDigit_plain c2 d2 E2) as (_ & _ & _ & B4 & B5).
    rewrite parseInt16_plain by assumption.
    destruct (JS.hexPrefix (String c1 (String c2 r')) 0 0) as [v read].
    cbn [snd] in Hread. destruct read; [lia | discriminate].
Qed.

Lemma allHex_stdsub (s : string) :
  allHex s = true -> forall n m, allHex (String.substring n m s) = true.
Proof.
  induction s as [|c s IH]; intros H n m.
  - rewrite stdsub_nil. reflexivity.
  - cbn [allHex] in H. destruct (JS.hexDigit c) eqn:E; [|discriminate H].
    destruct n as [|n]; cbn [String.substring].
    + destruct m as [|m]; [reflexivity|]. cbn [allHex]. rewrite E.
      apply IH, H.
    + apply IH, H.
Qed.

Lemma slot_is_number (hex : string) (cursor : nat) :
  allHex hex = true -> cursor + 64 <= String.length hex ->
  JS.parseInt16 (JS.substring hex cursor (cursor + 64)) <> JS.NaN.
Proof.
  intros Hh Hl. apply parseInt16_allHex.
  - intros E. apply (f_equal String.length) in E.
    unfold JS.substring in E. rewrite length_stdsub in E. cbn in E. lia.
  - unfold JS.substring. apply allHex_stdsub, Hh.
Qed.

Lemma firstPass_numbers (hex : string) :
  allHex hex = true ->
  forall (params : list AbiParameter) (i cursor : nat),
    cursor + headChars params <= String.length hex ->
    Forall isNumber
           (map fst (snd (firstPass nestedBreakdown parseDynamicData hex
                                    params i cursor))).
Proof.
  intros Hh params.
  induction params as [|p rest IH]; intros i cursor Hl.
  - constructor.
  - cbn [headChars] in Hl. cbn [firstPass].
    destruct (isDynamic p).
    + specialize (IH (S i) (cursor + 64)).
      destruct (firstPass nestedBreakdown parseDynamicData hex rest (S i)
                          (cursor + 64)) as [hs ds].
      cbn [snd map fst]. constructor; [|apply IH; lia].
      unfold isNumber. cbn [offset]. apply slot_is_number; [exact Hh | lia].
    + destruct (pcomponents p) as [cs|]; [destruct (ptype p =? "tuple")|].
      * specialize (IH (S i) (cursor + List.length cs * 64)).
        destruct (firstPass nestedBreakdown parseDynamicData hex rest (S i)
                            (cursor + List.length cs * 64)) as [hs ds].
        cbn [snd]. apply IH. lia.
      * specialize (IH (S i) (cursor + 64)).
        destruct (firstPass nestedBreakdown parseDynamicData hex rest (S i)
                            (cursor + 64)) as [hs ds].
        cbn [snd]. apply IH. lia.
      * specialize (IH (S i) (cursor + 64)).
        destruct (firstPass nestedBreakdown parseDynamicData hex rest (S i)
                            (cursor + 64)) as [hs ds].
        cbn [snd]. apply IH. lia.
Qed.

(** On a window of hexadecimal digits that holds its head slots, every
    recorded offset is a number. *)
Lemma recorded_offsets_are_numbers (params : list AbiParameter)
      (hex : string) :
  allHex hex = true -> headChars params <= String.length hex ->
  Forall isNumber (recordedItems params hex).
Proof.
  intros Hh Hl. unfold recordedItems.
  apply firstPass_numbers; [exact Hh | exact Hl].
Qed.

(** ** The tail loop *)

Lemma tailPass_items (hex : string) (pend : list Pending) :
  Forall (fun pd : Pending => snd pd = parseDynamicData (param (fst pd)))
         pend ->
  tailPass hex pend = tailPartsOf hex (map fst pend).
Proof.
  induction 1 as [|[it f] rest Hf _ IH]; [reflexivity|].
  cbn [tailPass tailPartsOf map fst]. cbn [snd fst] in Hf. subst f.
  rewrite IH. f_equal. f_equal. f_equal. f_equal.
  unfold itemWindow, windowBounds, JS.substringNum. cbn [fst snd].
  destruct rest as [|[nx g] rest]; reflexivity.
Qed.

(** The tail parts are the parts of the recorded items, sorted. *)
Lemma tailParts_sorted (params : list AbiParameter) (hex : string) :
  tailParts (buildFlatBreakdown params hex)
  = tailPartsOf hex (sortedItems params hex).
Proof.
  unfold buildFlatBreakdown, buildWith, sortedItems, recordedItems, tailParts.
  pose proof (firstPass_parsers nestedBreakdown parseDynamicData hex params 0 0)
    as Hp.
  destruct (firstPass nestedBreakdown parseDynamicData hex params 0 0)
    as [hs ds]. cbn [snd] in *.
  rewrite tailPass_items by (apply sort_parsers; exact Hp).
  rewrite sort_map_fst. reflexivity.
Qed.

Lemma toIndex_mono (len : nat) (x y : Z) :
  (x <= y)%Z ->
  JS.toIndex len (JS.timesTwo (JS.Int x))
  <= JS.toIndex len (JS.timesTwo (JS.Int y)).
Proof. intros H. cbn [JS.toIndex JS.timesTwo]. lia. Qed.

Lemma toIndex_le_len (len : nat) (x : JS.Num) : JS.toIndex len x <= len.
Proof. destruct x; cbn [JS.toIndex]; lia. Qed.

Lemma toIndex_len (len : nat) : JS.toIndex len (JS.ofNat len) = len.
Proof. cbn [JS.toIndex JS.ofNat]. lia. Qed.

Lemma allBounds_chained (hex : string) (l : list DynamicItem) :
  Forall isNumber l -> StronglySorted itemLe l ->
  chained (allBounds hex l) (String.length hex).
Proof.
  intros Hn Hs. induction Hs as [|x l Hs IH Hx]; [exact I|].
  inversion Hn as [|? ? Hnx Hnl]; subst.
  cbn [allBounds chained]. unfold windowBounds at 1.
  split; [|split; [|apply IH; exact Hnl]].
  - destruct l as [|y l]; cbn [hd_error].
    + rewrite toIndex_len. apply toIndex_le_len.
    + inversion Hx as [|? ? Hxy _]; subst.
      inversion Hnl as [|? ? Hny _]; subst.
      unfold itemLe, JS.le, isNumber in *.
      destruct (offset x) as [|zx]; [congruence|].
      destruct (offset y) as [|zy]; [congruence|].
      apply toIndex_mono. exact Hxy.
  - destruct l as [|y l]; cbn [hd_error allBounds].
    + apply toIndex_len.
    + reflexivity.
Qed.

Lemma allBounds_offsets (hex : string) (l1 l2 : list DynamicItem) :
  map offset l1 = map offset l2 -> allBounds hex l1 = allBounds hex l2.
Proof.
  revert l2. induction l1 as [|a l1 IH]; intros [|b l2] H;
    try discriminate; [reflexivity|].
  cbn [map] in H. injection H as Hab Hrest.
  cbn [allBounds]. rewrite (IH l2 Hrest). f_equal.
  unfold windowBounds. rewrite Hab. f_equal.
  destruct l1 as [|a' l1], l2 as [|b' l2]; try discriminate; [reflexivity|].
  cbn [map] in Hrest. injection Hrest as Hab' _.
  cbn [hd_error]. rewrite Hab'. reflexivity.
Qed.

(** C5.  The tail parts are those of the recorded dynamic items taken in
    the order of the sort, each with the window that runs from its own
    offset to the offset of the next item, or to the end of the window
    for the last one.  When every recorded offset is a number, which is
    so on every window of hexadecimal digits that holds its head slots,
    the sorted offsets ascend, the windows follow one another without gap
    or overlap up to the end of the byte-window, and any other order of
    recording the same items gives the same windows. *)
Theorem C5_tail_windows_follow_sorted_offsets :
  forall (params : list AbiParameter) (encodedDataHex : string),
    let recorded := recordedItems params encodedDataHex in
    let sorted := sortedItems params encodedDataHex in
    Permutation recorded sorted
    /\ tailParts (buildFlatBreakdown params encodedDataHex)
       = tailPartsOf encodedDataHex sorted
    /\ (Forall isNumber recorded ->
        StronglySorted itemLe sorted
        /\ chained (allBounds encodedDataHex sorted)
                   (String.length encodedDataHex)
        /\ forall reordered,
            Permutation reordered recorded ->
            allBounds encodedDataHex (JS.sort compareItems reordered)
            = allBounds encodedDataHex sorted)
    /\ (allHex encodedDataHex = true ->
        headChars params <= String.length encodedDataHex ->
        Forall isNumber recorded).
Proof.
  intros params hex recorded sorted.
  split; [apply sort_perm|]. split; [apply tailParts_sorted|].
  split; [|apply recorded_offsets_are_numbers].
  intros Hn. split; [apply sort_sorted, Hn|]. split.
  - apply allBounds_chained; [|apply sort_sorted, Hn].
    eapply Permutation_Forall; [apply sort_perm | exact Hn].
  - intros reordered Hp. apply allBounds_offsets.
    apply sorted_offsets_unique; [exact Hp|].
    eapply Permutation_Forall; [apply Permutation_sym, Hp | exact Hn].
Qed.

Lemma C5_tail_windows_follow_sorted_offsets_witness :
  Forall isNumber (recordedItems Example.swappedParams Example.swappedData)
  /\ map offset (recordedItems Example.swappedParams Example.swappedData)
     = [JS.Int 128; JS.Int 64]
  /\ map offset (sortedItems Example.swappedParams Example.swappedData)
     = [JS.Int 64; JS.Int 128]
  /\ allBounds Example.swappedData
               (sortedItems Example.swappedParams Example.swappedData)
     = [(128, 256); (256, 384)]
  /\ chained (allBounds Example.swappedData
                (sortedItems Example.swappedParams Example.swappedData))
             (String.length Example.swappedData).
Proof.
  destruct (C5_tail_windows_follow_sorted_offsets
              Example.swappedParams Example.swappedData)
    as (_ & _ & H & Hinput).
  assert (Hn : Forall isNumber
                 (recordedItems Example.swappedParams Example.swappedData)).
  { apply Hinput; [vm_compute; reflexivity|].
    apply Nat.leb_le. vm_compute. reflexivity. }
  split; [exact Hn|].
  split; [vm_compute; reflexivity|].
  split; [vm_compute; reflexivity|].
  split; [vm_compute; reflexivity|].
  destruct (H Hn) as (_ & Hc & _). exact Hc.
Defined.

(** ** Offsets out of the window *)

Lemma sorted_after (before rest : list DynamicItem) (item : DynamicItem) :
  StronglySorted itemLe (before ++ item :: rest) ->
  Forall (itemLe item) rest.
Proof.
  induction before as [|b before IH]; cbn [app]; intros H.
  - inversion H; assumption.
  - inversion H; subst. apply IH. assumption.
Qed.

Lemma toIndex_past (len : nat) (z : Z) :
  (Z.of_nat len <= 2 * z)%Z ->
  JS.toIndex len (JS.timesTwo (JS.Int z)) = len.
Proof. intros H. cbn [JS.toIndex JS.timesTwo]. lia. Qed.

Lemma window_past_the_end (hex : string) (before rest : list DynamicItem)
      (item : DynamicItem) (z : Z) :
  Forall isNumber (before ++ item :: rest) ->
  StronglySorted itemLe (before ++ item :: rest) ->
  offset item = JS.Int z ->
  (Z.of_nat (String.length hex) <= 2 * z)%Z ->
  itemWindow hex item (hd_error rest) = "".
Proof.
  intros Hn Hs Hz Hout.
  apply sorted_after in Hs.
  apply Forall_app in Hn as [_ Hn].
  inversion Hn as [|? ? _ Hrest]; subst.
  unfold itemWindow, windowBounds. cbn [fst snd]. rewrite Hz.
  rewrite (toIndex_past _ _ Hout).
  apply substring_empty; [lia|].
  destruct rest as [|y rest]; cbn [hd_error].
  - rewrite toIndex_len. lia.
  - inversion Hs as [|? ? Hxy _]; subst.
    inversion Hrest as [|? ? Hy _]; subst.
    unfold itemLe, JS.le, isNumber in *. rewrite Hz in Hxy.
    destruct (offset y) as [|zy]; [congruence|].
    rewrite toIndex_past; lia.
Qed.

(** C8 (amended).  The decomposer validates no offset and signals
    nothing: for every parameter list and every byte string it returns a
    breakdown with one tail part per dynamic parameter, taken in the
    order of the sort.  When the recorded offsets are numbers, an item
    whose offset lies at or beyond the end of the byte-window gets the
    empty string as its content window (the bounds are clamped), and its
    tail part is produced from that. *)
Theorem C8_offsets_are_not_validated :
  forall (params : list AbiParameter) (encodedDataHex : string),
    let sorted := sortedItems params encodedDataHex in
    tailParts (buildFlatBreakdown params encodedDataHex)
    = tailPartsOf encodedDataHex sorted
    /\ List.length (tailParts (buildFlatBreakdown params encodedDataHex))
       = List.length (filter isDynamic params)
    /\ (Forall isNumber (recordedItems params encodedDataHex) ->
        forall before item rest z,
          sorted = (before ++ item :: rest)%list ->
          offset item = JS.Int z ->
          (Z.of_nat (String.length encodedDataHex) <= 2 * z)%Z ->
          itemWindow encodedDataHex item (hd_error rest) = "").
Proof.
  intros params hex sorted.
  split; [apply tailParts_sorted|].
  split; [apply buildWith_lengths|].
  intros Hn before item rest z Hs Hz Hout.
  assert (Hn' : Forall isNumber sorted)
    by (eapply Permutation_Forall; [apply sort_perm | exact Hn]).
  pose proof (sort_sorted _ Hn) as Hsorted. fold (sortedItems params hex) in Hsorted.
  fold sorted in Hsorted. rewrite Hs in Hn', Hsorted.
  eapply window_past_the_end; eassumption.
Qed.

Lemma C8_offsets_are_not_validated_witness :
  Forall isNumber (recordedItems [Example.text None] (Abi.word 256))
  /\ sortedItems [Example.text None] (Abi.word 256)
     = [mkItem (Example.text None) "param0" (JS.Int 256)]
  /\ itemWindow (Abi.word 256)
                (mkItem (Example.text None) "param0" (JS.Int 256)) None
     = "".
Proof.
  assert (Hn : Forall isNumber
                 (recordedItems [Example.text None] (Abi.word 256))).
  { vm_compute. repeat constructor; discriminate. }
  assert (Hs : sortedItems [Example.text None] (Abi.word 256)
               = ([] ++ mkItem (Example.text None) "param0" (JS.Int 256)
                     :: [])%list) by (vm_compute; reflexivity).
  split; [exact Hn|]. split; [exact Hs|].
  destruct (C8_offsets_are_not_validated [Example.text None] (Abi.word 256))
    as (_ & _ & H).
  apply (H Hn [] (mkItem (Example.text None) "param0" (JS.Int 256)) [] 256%Z
           Hs eq_refl).
  vm_compute. discriminate.
Defined.

(** C8 as stated fails on the parameter list [(string)] with a head whose
    offset, 256, lies beyond the 32 bytes of the window: nothing is
    signalled, and a tail part is produced for the item at the bad
    offset, parsed from an empty window. *)
Lemma C8_counterexample_offset_outside_window :
  buildFlatBreakdown [Example.text None] (Abi.word 256)
  = ( [ mkPart "param0 (string)" "bytes32"
          "0x0000000000000000000000000000000000000000000000000000000000000100"
          (Some (OffsetToData (JS.Int 256))) None ],
      [ mkPart "Tail for param0" "string" "(see components)"
          (Some (DataLocatedAt (JS.Int 256)))
          (Some [ mkPart "length" "uint256" "0x"
                         (Some (NumberText JS.NaN)) None;
                  mkPart "value" "utf8" "0x"
                         (Some (OriginalData "")) None ]) ] ).
Proof. vm_compute. reflexivity. Qed.

(** ** Values that are not numbers *)

Lemma processValue_scalar (p : AbiParameter) (val : Value) :
  pcomponents p = None ->
  JS.includes (ptype p) "uint" || JS.includes (ptype p) "int" = true ->
  processValue p val
  = Ok (VBigInt match toBigInt val with
                | Some z => z
                | None => 0%Z
                end).
Proof.
  destruct p as [ty nm cs]; cbn [pcomponents ptype]; intros -> H.
  cbn [processValue pcomponents ptype]. rewrite H.
  destruct (toBigInt val); reflexivity.
Qed.

Lemma mapValues_replace (f : AbiParameter -> Value -> Result Value)
      (ps1 ps2 : list AbiParameter) (p : AbiParameter)
      (vs1 vs2 : list Value) (v v' : Value) :
  List.length ps1 = List.length vs1 ->
  f p v = f p v' ->
  mapValues f (ps1 ++ p :: ps2) (vs1 ++ v :: vs2)
  = mapValues f (ps1 ++ p :: ps2) (vs1 ++ v' :: vs2).
Proof.
  revert vs1. induction ps1 as [|q ps1 IH]; intros [|w vs1] Hl Hf;
    try discriminate Hl.
  - cbn [app mapValues]. rewrite Hf. reflexivity.
  - cbn [app mapValues]. rewrite (IH vs1); [reflexivity | | exact Hf].
    cbn in Hl. lia.
Qed.

(** White space around a number is not an error for [BigInt]; the
    no-break space is white space. *)
Lemma stringToBigInt_no_break_space :
  stringToBigInt (String "160" "12") = Some 12%Z
  /\ stringToBigInt (String " " (String "009" (String "160" "0x1f")))
     = Some 31%Z.
Proof. split; vm_compute; reflexivity. Qed.

Lemma encode_zero_unsigned (bits : nat) :
  Abi.encodeValue (Abi.UInt bits) (VBigInt 0) = Abi.Done (Abi.word 0).
Proof.
  cbn [Abi.encodeValue Abi.numericLiteral Abi.andThen].
  assert (P : (0 < 2 ^ Z.of_nat bits)%Z) by (apply Z.pow_pos_nonneg; lia).
  destruct (Z.ltb_spec 0 (2 ^ Z.of_nat bits)); [reflexivity|lia].
Qed.

Lemma encode_zero_signed (bits : nat) :
  Abi.encodeValue (Abi.Int (S bits)) (VBigInt 0) = Abi.Done (Abi.word 0).
Proof.
  cbn [Abi.encodeValue Abi.numericLiteral Abi.andThen].
  replace (Z.of_nat (S bits) - 1)%Z with (Z.of_nat bits) by lia.
  assert (P : (0 < 2 ^ Z.of_nat bits)%Z) by (apply Z.pow_pos_nonneg; lia).
  destruct (Z.leb_spec (- 2 ^ Z.of_nat bits) 0); [|lia].
  destruct (Z.ltb_spec 0 (2 ^ Z.of_nat bits)); [reflexivity|lia].
Qed.

(** C7 (amended).  A numeric-kind parameter (one whose type contains
    [uint] or [int] and that has no components) supplied with a literal
    that [BigInt] does not parse is given the value [0n] by
    [processValues], and the encode step then runs exactly as it does on
    the value [0n], to the same calldata or to the same error: no error
    comes from the literal.  What the step does on [0n] depends on the
    type: in the encoding scheme an integer type takes it and gives the
    word of zeros, an array type (such as [uint256[]], whose name
    contains [int] too) refuses it, as it is no list. *)
Theorem C7_non_numeric_literal_becomes_zero :
  forall keccakDigits parseAbiParameters encodeAbiParametersDigits
         (params1 params2 : list AbiParameter) (p : AbiParameter)
         (values1 values2 : list Value) (literal input : string),
    pcomponents p = None ->
    JS.includes (ptype p) "uint" || JS.includes (ptype p) "int" = true ->
    stringToBigInt literal = None ->
    List.length params1 = List.length values1 ->
    processValue p (VString literal) = Ok (VBigInt 0)
    /\ processValues (params1 ++ p :: params2)
                     (values1 ++ VString literal :: values2)
       = processValues (params1 ++ p :: params2)
                       (values1 ++ VBigInt 0 :: values2)
    /\ handleEncode keccakDigits parseAbiParameters encodeAbiParametersDigits
                    (params1 ++ p :: params2)
                    (values1 ++ VString literal :: values2) input
       = handleEncode keccakDigits parseAbiParameters
                      encodeAbiParametersDigits
                      (params1 ++ p :: params2)
                      (values1 ++ VBigInt 0 :: values2) input
    /\ (forall bits,
           Abi.encodeValue (Abi.UInt bits) (VBigInt 0)
           = Abi.Done (Abi.word 0))
    /\ (forall bits,
           Abi.encodeValue (Abi.Int (S bits)) (VBigInt 0)
           = Abi.Done (Abi.word 0))
    /\ (forall elem,
           Abi.encodeValue (Abi.Array elem) (VBigInt 0)
           = Abi.Fail Abi.TypeMismatch).
Proof.
  intros k pa en ps1 ps2 p vs1 vs2 lit input Hc Hn Hlit Hlen.
  assert (H1 : processValue p (VString lit) = Ok (VBigInt 0)).
  { rewrite (processValue_scalar p _ Hc Hn). cbn [toBigInt].
    rewrite Hlit. reflexivity. }
  assert (H2 : processValues (ps1 ++ p :: ps2) (vs1 ++ VString lit :: vs2)
               = processValues (ps1 ++ p :: ps2) (vs1 ++ VBigInt 0 :: vs2)).
  { unfold processValues.
    apply (mapValues_replace processValue ps1 ps2 p vs1 vs2
                             (VString lit) (VBigInt 0) Hlen).
    rewrite H1. rewrite (processValue_scalar p _ Hc Hn). reflexivity. }
  split; [exact H1|]. split; [exact H2|].
  split; [unfold handleEncode; rewrite H2; reflexivity|].
  split; [exact encode_zero_unsigned|].
  split; [exact encode_zero_signed|].
  intros elem. reflexivity.
Qed.

Lemma C7_non_numeric_literal_becomes_zero_witness :
  processValue (Example.uint256 (Some "amount")) (VString "abc")
  = Ok (VBigInt 0)
  /\ processValues ([] ++ Example.uint256 (Some "amount") :: [])
                   ([] ++ VString "abc" :: [])
     = processValues ([] ++ Example.uint256 (Some "amount") :: [])
                     ([] ++ VBigInt 0 :: [])
  /\ handleEncode Example.digest
                  (Example.parseAs [Example.uint256 (Some "amount")])
                  (Example.schemeEncoder [Abi.UInt 256])
                  ([] ++ Example.uint256 (Some "amount") :: [])
                  ([] ++ VString "abc" :: []) "mint(uint256 amount)"
     = handleEncode Example.digest
                    (Example.parseAs [Example.uint256 (Some "amount")])
                    (Example.schemeEncoder [Abi.UInt 256])
                    ([] ++ Example.uint256 (Some "amount") :: [])
                    ([] ++ VBigInt 0 :: []) "mint(uint256 amount)".
Proof.
  destruct (C7_non_numeric_literal_becomes_zero
              Example.digest
              (Example.parseAs [Example.uint256 (Some "amount")])
              (Example.schemeEncoder [Abi.UInt 256])
              [] [] (Example.uint256 (Some "amount")) [] [] "abc"
              "mint(uint256 amount)") as (H1 & H2 & H3 & _).
  - reflexivity.
  - vm_compute. reflexivity.
  - vm_compute. reflexivity.
  - reflexivity.
  - split; [exact H1|]. split; [exact H2|exact H3].
Defined.

(** C7 as stated fails on [mint(uint256 amount)] with the literal ["abc"]:
    [BigInt] rejects the literal, the value becomes 0, and the calldata is
    produced, with the word of 0 as the parameter. *)
Lemma C7_counterexample_literal_abc :
  stringToBigInt "abc" = None
  /\ processValues [Example.uint256 (Some "amount")] [VString "abc"]
     = Ok [VBigInt 0]
  /\ option_map calldata
       match handleEncode Example.digest
               (Example.parseAs [Example.uint256 (Some "amount")])
               (Example.schemeEncoder [Abi.UInt 256])
               [Example.uint256 (Some "amount")] [VString "abc"]
               "mint(uint256 amount)"
       with
       | Ok r => Some r
       | Throw _ => None
       end
     = Some ("0xa9059cbb" ++ Abi.word 0).
Proof.
  split; [vm_compute; reflexivity|].
  split; vm_compute; reflexivity.
Qed.

(** ** Type strings *)

Lemma stdsub_split (s : string) (n : nat) :
  n <= String.length s ->
  s = String.substring 0 n s
      ++ String.substring n (String.length s - n) s.
Proof.
  revert n; induction s as [|c s IH]; intros n H.
  - rewrite !stdsub_nil. reflexivity.
  - destruct n as [|n].
    + rewrite stdsub_zero_0, Nat.sub_0_r, stdsub_zero_all. reflexivity.
    + cbn [String.substring String.length Nat.sub append].
      f_equal. apply IH. cbn in H. lia.
Qed.

Lemma endsWith_split (s p : string) :
  JS.endsWith s p = true -> exists pre, s = pre ++ p.
Proof.
  unfold JS.endsWith. intros H.
  apply andb_prop in H as [Hl He].
  apply Nat.leb_le in Hl. apply String.eqb_eq in He.
  exists (String.substring 0 (String.length s - String.length p) s).
  pose proof (stdsub_split s (String.length s - String.length p)) as Hs.
  replace (String.length s - (String.length s - String.length p))
    with (String.length p) in Hs by lia.
  rewrite He in Hs. apply Hs. lia.
Qed.

Lemma endsWith_app (s p : string) : JS.endsWith (s ++ p) p = true.
Proof.
  unfold JS.endsWith. rewrite length_app.
  apply andb_true_intro. split; [apply Nat.leb_le; lia|].
  apply String.eqb_eq.
  replace (String.length s + String.length p - String.length p)
    with (String.length s + 0) by lia.
  rewrite stdsub_skip_app. apply stdsub_zero_all.
Qed.

Lemma lastChar_app (s p : string) :
  p <> "" -> lastChar (s ++ p) = lastChar p.
Proof.
  intros Hp. induction s as [|c s IH]; [reflexivity|].
  cbn [append lastChar]. rewrite IH.
  destruct (s ++ p) eqn:E; [|reflexivity].
  destruct s; [cbn in E; congruence | discriminate].
Qed.

Lemma endsWith_lastChar (s p : string) :
  p <> "" -> JS.endsWith s p = true -> lastChar s = lastChar p.
Proof.
  intros Hp H. apply endsWith_split in H as [pre ->].
  apply lastChar_app, Hp.
Qed.

Lemma not_endsWith (s p : string) (c : ascii) :
  p <> "" -> lastChar s = Some c -> lastChar p <> Some c ->
  JS.endsWith s p = false.
Proof.
  intros Hp Hs Hne. destruct (JS.endsWith s p) eqn:E; [|reflexivity].
  apply endsWith_lastChar in E; [|exact Hp]. congruence.
Qed.

Lemma allDigits_uint (d : Decimal.uint) :
  allDigits (NilEmpty.string_of_uint d) = true.
Proof. induction d; cbn [NilEmpty.string_of_uint allDigits]; auto. Qed.

Lemma ofIndex_digits (n : nat) :
  JS.ofIndex n <> "" /\ allDigits (JS.ofIndex n) = true.
Proof.
  unfold JS.ofIndex, NilZero.string_of_uint.
  destruct (Nat.to_uint n) eqn:E;
    try (split; [discriminate | apply (allDigits_uint (_ _))]).
  split; [discriminate | reflexivity].
Qed.

Lemma lastChar_digits (s : string) :
  s <> "" -> allDigits s = true ->
  exists c, lastChar s = Some c /\ isDigit c = true.
Proof.
  induction s as [|c s IH]; intros Hne Hd; [congruence|].
  cbn [allDigits] in Hd. apply andb_prop in Hd as [Hc Hs].
  destruct s as [|c' s'].
  - exists c. split; [reflexivity | exact Hc].
  - destruct IH as (x & Hx & Hdx); [discriminate | exact Hs|].
    exists x. split; [exact Hx | exact Hdx].
Qed.

Lemma lastChar_suffix_digits (pre : string) (n : nat) :
  exists c, lastChar (pre ++ JS.ofIndex n) = Some c /\ isDigit c = true.
Proof.
  destruct (ofIndex_digits n) as [Hne Hd].
  rewrite lastChar_app by exact Hne.
  apply lastChar_digits; assumption.
Qed.

Lemma digit_not_bracket (c : ascii) : isDigit c = true -> c <> "]"%char.
Proof. intros H ->. discriminate H. Qed.

Lemma numbered_not_array (pre : string) (n : nat) :
  JS.endsWith (pre ++ JS.ofIndex n) "[]" = false
  /\ JS.endsWith (pre ++ JS.ofIndex n) "]" = false.
Proof.
  destruct (lastChar_suffix_digits pre n) as (c & Hc & Hd).
  pose proof (digit_not_bracket c Hd) as Hb.
  split; eapply not_endsWith; try exact Hc; try discriminate;
    cbn; congruence.
Qed.

Lemma eqb_app_absurd (pre : string) (n : nat) :
  (pre ++ JS.ofIndex n =? pre) = false.
Proof.
  apply String.eqb_neq. intros H.
  apply (f_equal String.length) in H. rewrite length_app in H.
  destruct (ofIndex_digits n) as [Hne _].
  destruct (JS.ofIndex n); [congruence | cbn in H; lia].
Qed.

(** ** Induction on Type Nodes *)

Section TypeNodeInduction.
Variable P : Abi.TypeNode -> Prop.
Hypothesis onUInt : forall bits, P (Abi.UInt bits).
Hypothesis onInt : forall bits, P (Abi.Int bits).
Hypothesis onBool : P Abi.Bool.
Hypothesis onAddress : P Abi.Address.
Hypothesis onFixedBytes : forall n, P (Abi.FixedBytes n).
Hypothesis onDynamicBytes : P Abi.DynamicBytes.
Hypothesis onText : P Abi.Text.
Hypothesis onArray : forall elem, P elem -> P (Abi.Array elem).
Hypothesis onRecord :
  forall fields, Forall (fun f => P (snd f)) fields -> P (Abi.Record fields).

Fixpoint TypeNode_nested_ind (t : Abi.TypeNode) : P t :=
  match t with
  | Abi.UInt bits => onUInt bits
  | Abi.Int bits => onInt bits
  | Abi.Bool => onBool
  | Abi.Address => onAddress
  | Abi.FixedBytes n => onFixedBytes n
  | Abi.DynamicBytes => onDynamicBytes
  | Abi.Text => onText
  | Abi.Array elem => onArray elem (TypeNode_nested_ind elem)
  | Abi.Record fields =>
      onRecord fields
        ((fix all (fs : list (string * Abi.TypeNode))
            : Forall (fun f => P (snd f)) fs :=
            match fs with
            | [] => Forall_nil _
            | (n, f) :: fs' =>
                Forall_cons (n, f) (TypeNode_nested_ind f) (all fs')
            end) fields)
  end.
End TypeNodeInduction.

Lemma pcomponents_toAbi (nm : option string) (t : Abi.TypeNode) :
  pcomponents (Abi.toAbi nm t)
  = match t with
    | Abi.Record fields =>
        Some (map (fun '(n, f) => Abi.toAbi (Some n) f) fields)
    | Abi.Array elem => pcomponents (Abi.toAbi nm elem)
    | _ => None
    end.
Proof. destruct t as [| | | | | | |elem|]; try reflexivity. destruct elem; reflexivity. Qed.

Lemma ptype_toAbi (nm : option string) (t : Abi.TypeNode) :
  ptype (Abi.toAbi nm t) = Abi.typeString t.
Proof. destruct t; reflexivity. Qed.

(** The source and the scheme agree on which types are dynamic. *)
Lemma isDynamic_toAbi (t : Abi.TypeNode) :
  forall nm, isDynamic (Abi.toAbi nm t) = Abi.dynamic t.
Proof.
  induction t as [bits|bits| | |n| | |elem IH|fields IH]
    using TypeNode_nested_ind; intros nm.
  - destruct (numbered_not_array "uint" bits) as [E _].
    cbn [Abi.toAbi isDynamic ptype pcomponents Abi.typeString Abi.dynamic].
    rewrite E. reflexivity.
  - destruct (numbered_not_array "int" bits) as [E _].
    cbn [Abi.toAbi isDynamic ptype pcomponents Abi.typeString Abi.dynamic].
    rewrite E. reflexivity.
  - reflexivity.
  - reflexivity.
  - destruct (numbered_not_array "bytes" n) as [E _].
    cbn [Abi.toAbi isDynamic ptype pcomponents Abi.typeString Abi.dynamic].
    rewrite E, (eqb_app_absurd "bytes" n). reflexivity.
  - reflexivity.
  - reflexivity.
  - destruct (Abi.toAbi nm (Abi.Array elem)) as [ty nm' cs] eqn:E.
    pose proof (ptype_toAbi nm (Abi.Array elem)) as Ht.
    rewrite E in Ht. cbn [ptype Abi.typeString] in Ht. subst ty.
    cbn [isDynamic ptype]. rewrite endsWith_app. reflexivity.
  - cbn [Abi.dynamic].
    change (isDynamic (Abi.toAbi nm (Abi.Record fields)))
      with (existsb isDynamic
                    (map (fun '(n, f) => Abi.toAbi (Some n) f) fields)).
    induction IH as [|[n f] fs Hf _ IHfs]; [reflexivity|].
    cbn [map existsb]. cbn [snd] in Hf. rewrite Hf, IHfs. reflexivity.
Qed.

(** ** Scalar padding *)

Lemma padTo32Bytes_left (hex ty : string) :
  JS.startsWith ty "uint" || JS.startsWith ty "int" || (ty =? "address")
  = true ->
  padTo32Bytes hex ty = JS.zeros (64 - String.length hex) ++ hex.
Proof. intros H. unfold padTo32Bytes. rewrite H. reflexivity. Qed.

Lemma padTo32Bytes_right (hex ty : string) :
  JS.startsWith ty "bytes" = true -> JS.endsWith ty "]" = false ->
  padTo32Bytes hex ty = hex ++ JS.zeros (64 - String.length hex).
Proof.
  intros Hb He. unfold padTo32Bytes. rewrite Hb, He.
  destruct ty as [|c ty]; [discriminate Hb|].
  cbn [JS.startsWith] in Hb. apply andb_prop in Hb as [Hc _].
  apply Ascii.eqb_eq in Hc. subst c. reflexivity.
Qed.

(** A simple static parameter over a full slot: the slot is shown as it
    is. *)
Lemma static_slot_shown (p : AbiParameter) (w : string) :
  isDynamic p = false -> pcomponents p = None -> String.length w = 64 ->
  map value (headParts (buildFlatBreakdown [p] w)) = ["0x" ++ w]
  /\ tailParts (buildFlatBreakdown [p] w) = [].
Proof.
  intros Hd Hc Hl.
  unfold buildFlatBreakdown, buildWith. cbn [firstPass].
  rewrite Hd, Hc. cbn [JS.sort fold_right tailPass headParts tailParts
                        fst snd map value].
  change (0 + 64) with 64. rewrite <- Hl.
  pose proof (substring_prefix w "") as E. rewrite app_empty_r in E.
  rewrite E, padTo32Bytes_full by lia. split; reflexivity.
Qed.

Lemma encode_uint (bits : nat) (v : Value) (w : string) :
  Abi.encodeValue (Abi.UInt bits) v = Abi.Done w ->
  exists z, Abi.numericLiteral v = Abi.Done z
            /\ (0 <= z < 2 ^ Z.of_nat bits)%Z /\ w = Abi.word z.
Proof.
  cbn [Abi.encodeValue]. destruct (Abi.numericLiteral v) as [z|e];
    cbn [Abi.andThen]; [|discriminate].
  destruct (_ && _) eqn:E; [|discriminate]. intros [= <-].
  apply andb_prop in E as [E1 E2].
  apply Z.leb_le in E1. apply Z.ltb_lt in E2. eauto.
Qed.

Lemma encode_int (bits : nat) (v : Value) (w : string) :
  Abi.encodeValue (Abi.Int bits) v = Abi.Done w ->
  exists z, Abi.numericLiteral v = Abi.Done z
            /\ (- 2 ^ (Z.of_nat bits - 1) <= z < 2 ^ (Z.of_nat bits - 1))%Z
            /\ w = Abi.word (z mod 2 ^ 256).
Proof.
  cbn [Abi.encodeValue]. destruct (Abi.numericLiteral v) as [z|e];
    cbn [Abi.andThen]; [|discriminate].
  destruct (_ && _) eqn:E; [|discriminate]. intros [= <-].
  apply andb_prop in E as [E1 E2].
  apply Z.leb_le in E1. apply Z.ltb_lt in E2. eauto.
Qed.

Lemma encode_bool (v : Value) (w : string) :
  Abi.encodeValue Abi.Bool v = Abi.Done w ->
  exists b, v = VBoolean b /\ w = Abi.word (if b then 1 else 0).
Proof. destruct v; cbn; try discriminate. intros [= <-]. eauto. Qed.

Lemma hexLiteral_size (size : nat) (v : Value) (bytes : string) :
  Abi.hexLiteral size v = Abi.Done bytes -> String.length bytes = size.
Proof.
  destruct v as [s| | |]; cbn; try discriminate.
  destruct (Abi.bytesOfHex s) as [b|]; [|discriminate].
  destruct (Nat.eqb_spec (String.length b) size); [|discriminate].
  intros [= <-]. assumption.
Qed.

Lemma encode_address (v : Value) (w : string) :
  Abi.encodeValue Abi.Address v = Abi.Done w ->
  exists bytes, Abi.hexLiteral 20 v = Abi.Done bytes
                /\ w = JS.zeros 24 ++ Abi.hexOfBytes bytes.
Proof.
  cbn [Abi.encodeValue]. destruct (Abi.hexLiteral 20 v) as [b|e] eqn:E;
    cbn [Abi.andThen]; [|discriminate].
  intros [= <-]. exists b. split; [reflexivity|].
  unfold JS.padStart. rewrite length_hexOfBytes, (hexLiteral_size _ _ _ E).
  reflexivity.
Qed.

Lemma encode_fixedBytes (n : nat) (v : Value) (w : string) :
  Abi.encodeValue (Abi.FixedBytes n) v = Abi.Done w ->
  exists bytes, Abi.hexLiteral n v = Abi.Done bytes
                /\ w = Abi.hexOfBytes bytes ++ JS.zeros (64 - 2 * n).
Proof.
  cbn [Abi.encodeValue]. destruct (Abi.hexLiteral n v) as [b|e] eqn:E;
    cbn [Abi.andThen]; [|discriminate].
  intros [= <-]. exists b. split; [reflexivity|].
  unfold JS.padEnd. rewrite length_hexOfBytes, (hexLiteral_size _ _ _ E).
  reflexivity.
Qed.

Lemma word_left_padded (z : Z) (k : nat) :
  k <= 64 -> (0 <= z < 16 ^ Z.of_nat k)%Z ->
  Abi.word z = JS.zeros (64 - k) ++ Abi.fixedHex k z.
Proof.
  intros Hk Hz. unfold Abi.word.
  replace 64 with ((64 - k) + k) at 1 by lia.
  apply fixedHex_left_padded, Hz.
Qed.

Lemma effs_snoc n : effs n ++ "f" = effs (S n).
Proof.
  induction n as [|n IH]; [reflexivity|].
  cbn [effs append]. rewrite IH. reflexivity.
Qed.

Lemma fixedHex_all_ones (j : nat) :
  Abi.fixedHex j (16 ^ Z.of_nat j - 1) = effs j.
Proof.
  induction j as [|j IH]; [reflexivity|].
  cbn [Abi.fixedHex].
  assert (P : (0 < 16 ^ Z.of_nat j)%Z) by (apply Z.pow_pos_nonneg; lia).
  assert (E : (16 ^ Z.of_nat (S j) - 1
               = (16 ^ Z.of_nat j - 1) * 16 + 15)%Z).
  { rewrite Nat2Z.inj_succ, Z.pow_succ_r by lia. lia. }
  assert (D : ((16 ^ Z.of_nat (S j) - 1) / 16 = 16 ^ Z.of_nat j - 1)%Z).
  { rewrite E. symmetry.
    apply Z.div_unique with (r := 15%Z); [left; lia | ring]. }
  assert (M : ((16 ^ Z.of_nat (S j) - 1) mod 16 = 15)%Z).
  { rewrite E. symmetry.
    apply Z.mod_unique with (q := (16 ^ Z.of_nat j - 1)%Z);
      [left; lia | ring]. }
  rewrite D, M, IH. apply effs_snoc.
Qed.

(** The digits of [hi * 16^k + lo] are those of [hi] followed by the
    [k] digits of [lo]. *)
Lemma fixedHex_split (j k : nat) (hi lo : Z) :
  (0 <= lo < 16 ^ Z.of_nat k)%Z ->
  Abi.fixedHex (j + k) (hi * 16 ^ Z.of_nat k + lo)
  = Abi.fixedHex j hi ++ Abi.fixedHex k lo.
Proof.
  revert lo; induction k as [|k IH]; intros lo H.
  - cbn in H. assert (lo = 0%Z) by lia. subst lo.
    rewrite Nat.add_0_r. cbn [Z.of_nat Abi.fixedHex].
    rewrite Z.pow_0_r, Z.mul_1_r, Z.add_0_r. symmetry. apply app_empty_r.
  - rewrite Nat.add_succ_r. cbn [Abi.fixedHex].
    rewrite Nat2Z.inj_succ, Z.pow_succ_r in * by lia.
    assert (D : ((hi * (16 * 16 ^ Z.of_nat k) + lo) / 16
                 = hi * 16 ^ Z.of_nat k + lo / 16)%Z).
    { replace (hi * (16 * 16 ^ Z.of_nat k) + lo)%Z
        with (lo + (hi * 16 ^ Z.of_nat k) * 16)%Z by lia.
      rewrite Z.div_add by lia. lia. }
    assert (M : ((hi * (16 * 16 ^ Z.of_nat k) + lo) mod 16 = lo mod 16)%Z).
    { replace (hi * (16 * 16 ^ Z.of_nat k) + lo)%Z
        with (lo + (hi * 16 ^ Z.of_nat k) * 16)%Z by lia.
      apply Z.mod_add. lia. }
    rewrite D, M, IH, app_assoc_s; [reflexivity|].
    split; [apply Z.div_pos; lia|].
    apply Z.div_lt_upper_bound; lia.
Qed.

(** A negative number that fits [k] digits is rendered on the word as
    its two's complement: digits [f] on the left, then the [k] digits of
    [16^k + z]. *)
Lemma word_sign_extended (z : Z) (k : nat) :
  k <= 64 -> (- 16 ^ Z.of_nat k <= z < 0)%Z ->
  Abi.word (z mod 2 ^ 256) = effs (64 - k) ++ Abi.fixedHex k (16 ^ Z.of_nat k + z).
Proof.
  intros Hk Hz. unfold Abi.word.
  assert (P : (0 < 16 ^ Z.of_nat k)%Z) by (apply Z.pow_pos_nonneg; lia).
  assert (E256 : (2 ^ 256 = 16 ^ Z.of_nat (64 - k) * 16 ^ Z.of_nat k)%Z).
  { rewrite <- Z.pow_add_r by lia.
    replace (Z.of_nat (64 - k) + Z.of_nat k)%Z with 64%Z by lia.
    reflexivity. }
  assert (Q : (0 < 16 ^ Z.of_nat (64 - k))%Z)
    by (apply Z.pow_pos_nonneg; lia).
  assert (M : (z mod 2 ^ 256
               = (16 ^ Z.of_nat (64 - k) - 1) * 16 ^ Z.of_nat k
                 + (16 ^ Z.of_nat k + z))%Z).
  { symmetry. apply Z.mod_unique with (q := (-1)%Z); [left; nia | nia]. }
  rewrite M. replace 64 with ((64 - k) + k) at 1 by lia.
  rewrite fixedHex_split by lia. rewrite fixedHex_all_ones. reflexivity.
Qed.

Lemma padTo32Bytes_other (hex ty : string) :
  JS.startsWith ty "uint" || JS.startsWith ty "int" || (ty =? "address")
  = false ->
  JS.startsWith ty "bytes" && negb (JS.endsWith ty "]") = false ->
  padTo32Bytes hex ty = hex.
Proof. intros H1 H2. unfold padTo32Bytes. rewrite H1, H2. reflexivity. Qed.

(** C6 (amended).  In the encoding scheme the head word of an unsigned
    integer, of a signed integer that is not negative, of a boolean and
    of an address is the digits of the value after zeros on the left, up
    to 32 bytes; the head word of a negative signed integer is its two's
    complement on 256 bits, the digits of the value after digits [f] on
    the left; the head word of a FixedBytes(n) value is its bytes
    followed by zeros on the right.  [uint8] 1 gives 31 zero bytes and
    [01]; [bytes4] [0xAABBCCDD] gives [aabbccdd] and 28 zero bytes.  The
    decomposer shows a full slot as it is; it pads a shorter slot on the
    left for [uint...], [int...] and [address], on the right for
    [bytesN], and leaves it as it is for any other type, [bool]
    included. *)
Theorem C6_scalar_padding_direction :
  (forall bits v w,
      Abi.encodeValue (Abi.UInt bits) v = Abi.Done w ->
      exists z, Abi.numericLiteral v = Abi.Done z
                /\ forall k, k <= 64 -> (z < 16 ^ Z.of_nat k)%Z ->
                             w = JS.zeros (64 - k) ++ Abi.fixedHex k z)
  /\ (forall bits v w,
         Abi.encodeValue (Abi.Int bits) v = Abi.Done w ->
         exists z,
           Abi.numericLiteral v = Abi.Done z
           /\ (forall k, k <= 64 -> (0 <= z < 16 ^ Z.of_nat k)%Z ->
                         w = JS.zeros (64 - k) ++ Abi.fixedHex k z)
           /\ (forall k, k <= 64 -> (- 16 ^ Z.of_nat k <= z < 0)%Z ->
                         w = effs (64 - k)
                             ++ Abi.fixedHex k (16 ^ Z.of_nat k + z)))
  /\ (forall v w,
         Abi.encodeValue Abi.Bool v = Abi.Done w ->
         exists b, v = VBoolean b
                   /\ w = JS.zeros 63 ++ (if b : bool then "1" else "0"))
  /\ (forall v w,
         Abi.encodeValue Abi.Address v = Abi.Done w ->
         exists bytes, Abi.hexLiteral 20 v = Abi.Done bytes
                       /\ w = JS.zeros 24 ++ Abi.hexOfBytes bytes)
  /\ (forall n v w,
         Abi.encodeValue (Abi.FixedBytes n) v = Abi.Done w ->
         exists bytes, Abi.hexLiteral n v = Abi.Done bytes
                       /\ String.length bytes = n
                       /\ w = Abi.hexOfBytes bytes ++ JS.zeros (64 - 2 * n))
  /\ Abi.encodeValue (Abi.UInt 8) (VBigInt 1)
     = Abi.Done (JS.zeros 62 ++ "01")
  /\ Abi.encodeValue (Abi.FixedBytes 4) (VString "0xAABBCCDD")
     = Abi.Done ("aabbccdd" ++ JS.zeros 56)
  /\ (forall p w,
         isDynamic p = false -> pcomponents p = None ->
         String.length w = 64 ->
         map value (headParts (buildFlatBreakdown [p] w)) = ["0x" ++ w])
  /\ (forall hex ty,
         JS.startsWith ty "uint" || JS.startsWith ty "int"
         || (ty =? "address") = true ->
         padTo32Bytes hex ty = JS.zeros (64 - String.length hex) ++ hex)
  /\ (forall hex ty,
         JS.startsWith ty "bytes" = true -> JS.endsWith ty "]" = false ->
         padTo32Bytes hex ty = hex ++ JS.zeros (64 - String.length hex))
  /\ (forall hex ty,
         JS.startsWith ty "uint" || JS.startsWith ty "int"
         || (ty =? "address") = false ->
         JS.startsWith ty "bytes" && negb (JS.endsWith ty "]") = false ->
         padTo32Bytes hex ty = hex)
  /\ (forall hex, padTo32Bytes hex "bool" = hex).
Proof.
  split.
  { intros bits v w H. apply encode_uint in H as (z & Hz & Hr & ->).
    exists z. split; [exact Hz|]. intros k Hk Hlt.
    apply word_left_padded; [exact Hk | lia]. }
  split.
  { intros bits v w H. apply encode_int in H as (z & Hz & Hr & ->).
    exists z. split; [exact Hz|]. split.
    - intros k Hk Hlt.
      assert (B : (16 ^ Z.of_nat k <= 2 ^ 256)%Z).
      { change (2 ^ 256)%Z with (16 ^ 64)%Z.
        apply Z.pow_le_mono_r; lia. }
      rewrite Z.mod_small by lia.
      apply word_left_padded; [exact Hk | exact Hlt].
    - intros k Hk Hlt. apply word_sign_extended; assumption. }
  split.
  { intros v w H. apply encode_bool in H as (b & -> & ->).
    exists b. split; [reflexivity|]. destruct b; vm_compute; reflexivity. }
  split; [exact encode_address|].
  split.
  { intros n v w H. apply encode_fixedBytes in H as (b & Hb & ->).
    exists b. split; [exact Hb|]. split; [|reflexivity].
    eapply hexLiteral_size, Hb. }
  split; [vm_compute; reflexivity|].
  split; [vm_compute; reflexivity|].
  split; [intros p w Hd Hc Hl; apply static_slot_shown; assumption|].
  split; [exact padTo32Bytes_left|].
  split; [exact padTo32Bytes_right|].
  split; [exact padTo32Bytes_other|].
  intros hex. apply padTo32Bytes_other; reflexivity.
Qed.

Lemma C6_scalar_padding_direction_witness :
  Abi.encodeValue (Abi.UInt 8) (VBigInt 1)
  = Abi.Done (Abi.word 1)
  /\ Abi.word 1 = JS.zeros (64 - 2) ++ Abi.fixedHex 2 1
  /\ Abi.encodeValue (Abi.Int 8) (VBigInt (-2))
     = Abi.Done (Abi.word ((-2) mod 2 ^ 256))
  /\ Abi.word ((-2) mod 2 ^ 256)
     = effs (64 - 2) ++ Abi.fixedHex 2 (16 ^ Z.of_nat 2 + -2)
  /\ padTo32Bytes "01" "uint8" = JS.zeros (64 - String.length "01") ++ "01"
  /\ padTo32Bytes "aabbccdd" "bytes4"
     = "aabbccdd" ++ JS.zeros (64 - String.length "aabbccdd")
  /\ padTo32Bytes "1" "bool" = "1".
Proof.
  destruct C6_scalar_padding_direction
    as (HU & HI & _ & _ & _ & _ & _ & _ & HL & HR & HO & _).
  assert (E : Abi.encodeValue (Abi.UInt 8) (VBigInt 1)
              = Abi.Done (Abi.word 1)) by (vm_compute; reflexivity).
  assert (F : Abi.encodeValue (Abi.Int 8) (VBigInt (-2))
              = Abi.Done (Abi.word ((-2) mod 2 ^ 256)))
    by (vm_compute; reflexivity).
  split; [exact E|].
  destruct (HU 8 (VBigInt 1) (Abi.word 1) E) as (z & Hz & Hk).
  cbn [Abi.numericLiteral] in Hz. injection Hz as <-.
  split; [apply Hk; [lia | vm_compute; reflexivity]|].
  split; [exact F|].
  destruct (HI 8 (VBigInt (-2)) _ F) as (z & Hz & _ & Hneg).
  cbn [Abi.numericLiteral] in Hz. injection Hz as <-.
  split; [apply (Hneg 2); [lia | simpl; lia]|].
  split; [apply HL; vm_compute; reflexivity|].
  split; [apply HR; vm_compute; reflexivity|].
  apply HO; vm_compute; reflexivity.
Defined.

(** C6 as stated fails on a negative signed value: [int8] -1 is a value
    of one byte, and its head word is 64 digits [f], the two's
    complement, with no zero on the left at all. *)
Lemma C6_counterexample_negative_int8 :
  Abi.encodeValue (Abi.Int 8) (VBigInt (-1)) = Abi.Done (effs 64)
  /\ (forall k digits, 0 < k -> effs 64 <> JS.zeros k ++ digits)
  /\ effs 64 <> JS.zeros 62 ++ "ff".
Proof.
  split; [vm_compute; reflexivity|]. split.
  - intros [|k] digits Hk; [lia|]. cbn [effs JS.zeros append]. discriminate.
  - cbn [effs JS.zeros append]. discriminate.
Qed.

(** ** Re-assembling the leaves *)

Lemma reassemble_app (a b : list CalldataPart) :
  reassemble (a ++ b) = reassemble a ++ reassemble b.
Proof.
  induction a as [|p a IH]; [reflexivity|].
  cbn [app reassemble]. rewrite IH, app_assoc_s. reflexivity.
Qed.

Lemma leafDigits_node n t v d (cs : list CalldataPart) :
  leafDigits (mkPart n t v d (Some cs)) = reassemble cs.
Proof.
  cbn [leafDigits components].
  induction cs as [|c cs IH]; [reflexivity|].
  cbn [reassemble]. rewrite <- IH. reflexivity.
Qed.

Lemma leafDigits_leaf n t (w : string) d :
  leafDigits (mkPart n t ("0x" ++ w) d None) = w.
Proof. reflexivity. Qed.

Lemma half_even (k b : nat) : (2 * k + b) / 2 = k + b / 2.
Proof.
  replace (2 * k + b) with (k * 2 + b) by lia.
  apply Nat.div_add_l. discriminate.
Qed.

Lemma half_double (k : nat) : (2 * k) / 2 = k.
Proof. pose proof (half_even k 0) as H. rewrite Nat.add_0_r in H.
       rewrite H. cbn. lia. Qed.

Lemma toIndex_exact (len n : nat) :
  n <= len -> JS.toIndex len (JS.Int (Z.of_nat n)) = n.
Proof. intros H. cbn [JS.toIndex]. lia. Qed.

(** The windows cut by the tail loop on contents laid out one after the
    other, each at twice its tail cursor. *)
Lemma tail_windows (hex : string) :
  fitsDouble hex ->
  forall (l : list (AbiParameter * nat * string)) (items : list DynamicItem)
         (pre : string) (tc : nat),
    chain tc l ->
    map (fun it => (param it, offset it)) items
    = map (fun '(p, o, _) => (p, JS.Int (Z.of_nat o))) l ->
    hex = pre ++ contents l ->
    String.length pre = 2 * tc ->
    Forall (fun '(p, _, c) =>
              (exists k, String.length c = 2 * k)
              /\ (fitsDouble c -> reassemble (parseDynamicData p c) = c)) l ->
    reassemble (tailPartsOf hex items) = contents l.
Proof.
  intros Hfit l. induction l as [|[[p o] c] l IH];
    intros items pre tc Hch Hmap Hhex Hpre Hok.
  - destruct items; [reflexivity | discriminate Hmap].
  - destruct items as [|it rest]; [discriminate Hmap|].
    cbn [map] in Hmap. injection Hmap as Hp Ho Hrest.
    cbn beta iota in Hp, Ho.
    cbn [chain] in Hch. destruct Hch as [-> Hch].
    apply Forall_cons_iff in Hok as [Hhd Hok'].
    cbn beta iota in Hhd. destruct Hhd as [[k Hk] Hc].
    assert (Hhalf : String.length c / 2 = k)
      by (rewrite Hk; apply half_double).
    cbn [contents] in Hhex. subst hex.
    assert (Hlen : String.length (pre ++ c ++ contents l)
                   = String.length pre + String.length c
                     + String.length (contents l))
      by (rewrite !length_app; lia).
    assert (Hwin : itemWindow (pre ++ c ++ contents l) it (hd_error rest) = c).
    { unfold itemWindow, windowBounds. cbn [fst snd]. rewrite Ho.
      cbn [JS.timesTwo].
      replace (2 * Z.of_nat tc)%Z with (Z.of_nat (String.length pre)) by lia.
      rewrite toIndex_exact by lia.
      assert (E : JS.toIndex (String.length (pre ++ c ++ contents l))
                    match hd_error rest with
                    | Some next => JS.timesTwo (offset next)
                    | None =>
                        JS.ofNat (String.length (pre ++ c ++ contents l))
                    end
                  = String.length pre + String.length c).
      { destruct rest as [|it' rest']; cbn [hd_error].
        - destruct l; [|discriminate Hrest].
          rewrite toIndex_len, Hlen. cbn [contents String.length]. lia.
        - destruct l as [|[[p' o'] c'] l']; [discriminate Hrest|].
          cbn [map] in Hrest. injection Hrest as _ Ho' _.
          cbn [chain] in Hch. destruct Hch as [-> _].
          rewrite Ho'. cbn [JS.timesTwo].
          replace (2 * Z.of_nat (tc + String.length c / 2))%Z
            with (Z.of_nat (String.length pre + String.length c)) by lia.
          rewrite toIndex_exact by lia. reflexivity. }
      rewrite E. apply substring_middle. }
    cbn [tailPartsOf reassemble]. rewrite leafDigits_node, Hwin, Hp.
    rewrite Hc.
    + cbn [contents]. f_equal.
      apply (IH rest (pre ++ c) (tc + String.length c / 2));
        try assumption.
      * rewrite app_assoc_s. reflexivity.
      * rewrite length_app. lia.
    + unfold fitsDouble in *. lia.
Qed.

(** ** The first pass over an encoded head *)

Lemma substring_at (pre b post : string) (n : nat) :
  n = String.length b ->
  JS.substring (pre ++ b ++ post) (String.length pre) (String.length pre + n)
  = b.
Proof. intros ->. apply substring_middle. Qed.

Lemma head_pass (hex : string) :
  fitsDouble hex ->
  forall (slots : list Slot) (pre post : string) (tc i : nat)
         (head tail : string),
    Forall slotOK slots ->
    Abi.layout (map snd slots) tc = (head, tail) ->
    hex = pre ++ head ++ post ->
    (Z.of_nat (tc + String.length tail / 2) < 2 ^ 53)%Z ->
    reassemble
      (fst (firstPass nestedBreakdown parseDynamicData hex (map fst slots)
                      i (String.length pre)))
    = head
    /\ map (fun it => (param it, offset it))
           (map fst
                (snd (firstPass nestedBreakdown parseDynamicData hex
                                (map fst slots) i (String.length pre))))
       = map (fun '(p, o, _) => (p, JS.Int (Z.of_nat o))) (expected slots tc)
    /\ tail = contents (expected slots tc).
Proof.
  intros Hfit slots.
  induction slots as [|[p [d c]] slots IH];
    intros pre post tc i head tail Hok Hl Hhex Hb.
  - cbn in Hl. apply pair_equal_spec in Hl as [<- <-]. repeat split.
  - apply Forall_cons_iff in Hok as [Hs Hok].
    cbn [map fst snd Abi.layout] in Hl |- *.
    destruct d.
    + (* a dynamic slot: its head word is the tail cursor *)
      destruct (Abi.layout (map snd slots) (tc + String.length c / 2))
        as [h t] eqn:El.
      apply pair_equal_spec in Hl as [<- <-].
      destruct Hs as [Hdyn [[k Hk] _]].
      assert (Hhex' : hex = (pre ++ Abi.word (Z.of_nat tc)) ++ h ++ post)
        by (rewrite Hhex, !app_assoc_s; reflexivity).
      assert (Hb' : (Z.of_nat (tc + String.length c / 2
                               + String.length t / 2) < 2 ^ 53)%Z).
      { rewrite length_app, Hk, half_even in Hb.
        rewrite Hk, half_double. lia. }
      specialize (IH (pre ++ Abi.word (Z.of_nat tc)) post
                     (tc + String.length c / 2) (S i) h t Hok El Hhex' Hb').
      rewrite length_app, length_word in IH.
      cbn [firstPass]. rewrite Hdyn.
      assert (Hslot : JS.substring hex (String.length pre)
                                   (String.length pre + 64)
                      = Abi.word (Z.of_nat tc)).
      { rewrite Hhex, app_assoc_s. apply substring_at.
        symmetry; apply length_word. }
      rewrite Hslot, parseInt16_word by lia.
      destruct (firstPass nestedBreakdown parseDynamicData hex
                          (map fst slots) (S i) (String.length pre + 64))
        as [hs ds].
      cbn [fst snd map reassemble expected contents param offset] in IH |- *.
      destruct IH as (IH1 & IH2 & IH3).
      rewrite leafDigits_leaf, IH1, IH2, IH3. repeat split.
    + (* a static slot: its content is in the head *)
      destruct (Abi.layout (map snd slots) tc) as [h t] eqn:El.
      apply pair_equal_spec in Hl as [<- <-].
      destruct Hs as [Hdyn Hs].
      assert (Hhex' : hex = (pre ++ c) ++ h ++ post)
        by (rewrite Hhex, !app_assoc_s; reflexivity).
      specialize (IH (pre ++ c) post tc (S i) h t Hok El Hhex' Hb).
      rewrite length_app in IH.
      assert (Hfc : fitsDouble c).
      { unfold fitsDouble in *. rewrite Hhex', !length_app in Hfit. lia. }
      assert (Hdata : forall n, n = String.length c ->
                JS.substring hex (String.length pre) (String.length pre + n)
                = c).
      { intros n Hn. rewrite Hhex, app_assoc_s. apply substring_at, Hn. }
      cbn [firstPass]. rewrite Hdyn.
      destruct (pcomponents p) as [cs|] eqn:Hc;
        [destruct (ptype p =? "tuple") eqn:Ht|].
      * destruct Hs as [Hlen Hre].
        rewrite (Hdata _ (eq_sym Hlen)), <- Hlen.
        destruct (firstPass nestedBreakdown parseDynamicData hex
                            (map fst slots) (S i)
                            (String.length pre + String.length c))
          as [hs ds].
        cbn [fst snd map reassemble expected] in IH |- *.
        destruct IH as (IH1 & IH2 & IH3).
        rewrite leafDigits_node, nestedBreakdown_eq, Hc, (Hre Hfc), IH1.
        repeat split; assumption.
      * rewrite (Hdata 64 (eq_sym Hs)), padTo32Bytes_full by lia.
        rewrite Hs in IH.
        destruct (firstPass nestedBreakdown parseDynamicData hex
                            (map fst slots) (S i) (String.length pre + 64))
          as [hs ds].
        cbn [fst snd map reassemble expected] in IH |- *.
        destruct IH as (IH1 & IH2 & IH3).
        rewrite leafDigits_leaf, IH1. repeat split; assumption.
      * rewrite (Hdata 64 (eq_sym Hs)), padTo32Bytes_full by lia.
        rewrite Hs in IH.
        destruct (firstPass nestedBreakdown parseDynamicData hex
                            (map fst slots) (S i) (String.length pre + 64))
          as [hs ds].
        cbn [fst snd map reassemble expected] in IH |- *.
        destruct IH as (IH1 & IH2 & IH3).
        rewrite leafDigits_leaf, IH1. repeat split; assumption.
Qed.

(** ** A parameter list laid out by the encoder *)

Lemma headParts_firstPass (params : list AbiParameter) (hex : string) :
  headParts (buildFlatBreakdown params hex)
  = fst (firstPass nestedBreakdown parseDynamicData hex params 0 0).
Proof.
  unfold buildFlatBreakdown, buildWith, headParts.
  destruct (firstPass nestedBreakdown parseDynamicData hex params 0 0).
  reflexivity.
Qed.

Lemma static_length_even (p : AbiParameter) (c : string) :
  match pcomponents p, ptype p =? "tuple" with
  | Some cs, true =>
      String.length c = List.length cs * 64
      /\ (fitsDouble c ->
          reassemble (headParts (buildFlatBreakdown cs c)
                        ++ tailParts (buildFlatBreakdown cs c))%list = c)
  | _, _ => String.length c = 64
  end ->
  exists k, String.length c = 2 * k.
Proof.
  destruct (pcomponents p) as [cs|]; [destruct (ptype p =? "tuple")|].
  - intros [H _]. exists (List.length cs * 32). lia.
  - intros H. exists 32. lia.
  - intros H. exists 32. lia.
Qed.

Lemma layout_head_length (slots : list Slot) :
  Forall slotOK slots ->
  forall tc head tail,
    Abi.layout (map snd slots) tc = (head, tail) ->
    String.length head = 2 * Abi.headBytes (map snd slots).
Proof.
  induction 1 as [|[p [d c]] slots Hs _ IH]; intros tc head tail Hl.
  - cbn in Hl. apply pair_equal_spec in Hl as [<- _]. reflexivity.
  - cbn [map snd Abi.layout] in Hl.
    unfold Abi.headBytes. cbn [map snd fold_right].
    fold (Abi.headBytes (map snd slots)).
    destruct d.
    + destruct (Abi.layout (map snd slots) (tc + String.length c / 2))
        as [h t] eqn:El.
      apply pair_equal_spec in Hl as [<- _].
      rewrite length_app, length_word, (IH _ _ _ El). lia.
    + destruct (Abi.layout (map snd slots) tc) as [h t] eqn:El.
      apply pair_equal_spec in Hl as [<- _].
      destruct Hs as [_ Hs]. apply static_length_even in Hs as [k Hk].
      rewrite length_app, (IH _ _ _ El), Hk, half_double. lia.
Qed.

Lemma expected_chain (slots : list Slot) (tc : nat) :
  chain tc (expected slots tc).
Proof.
  revert tc. induction slots as [|[p [[] c]] slots IH]; intros tc;
    cbn [expected chain]; auto.
Qed.

Lemma expected_ok (slots : list Slot) :
  Forall slotOK slots ->
  forall tc,
    Forall (fun '(p, _, c) =>
              (exists k, String.length c = 2 * k)
              /\ (fitsDouble c -> reassemble (parseDynamicData p c) = c))
           (expected slots tc).
Proof.
  induction 1 as [|[p [d c]] slots Hs _ IH]; intros tc; cbn [expected].
  - constructor.
  - destruct d; [|apply IH].
    constructor; [|apply IH]. destruct Hs as [_ Hs]. exact Hs.
Qed.

Lemma chain_sorted (l : list (AbiParameter * nat * string)) :
  forall (items : list DynamicItem) (tc : nat),
    chain tc l ->
    map (fun it => (param it, offset it)) items
    = map (fun '(p, o, _) => (p, JS.Int (Z.of_nat o))) l ->
    Forall isNumber items
    /\ Sorted itemLe items
    /\ Forall (fun it => JS.le (JS.Int (Z.of_nat tc)) (offset it)) items.
Proof.
  induction l as [|[[p o] c] l IH]; intros items tc Hch Hmap.
  - destruct items; [|discriminate Hmap]. repeat constructor.
  - destruct items as [|it items]; [discriminate Hmap|].
    cbn [map] in Hmap. injection Hmap as _ Ho Hrest.
    cbn [chain] in Hch. destruct Hch as [-> Hch].
    destruct (IH items _ Hch Hrest) as (Hn & Hs & Hge).
    assert (Hle : Forall (fun it' => itemLe it it') items).
    { eapply Forall_impl; [|exact Hge].
      intros it'. unfold itemLe, JS.le. rewrite Ho.
      destruct (offset it'); [tauto | lia]. }
    split; [|split].
    + constructor; [unfold isNumber; rewrite Ho; discriminate | exact Hn].
    + constructor; [exact Hs|].
      destruct Hle; constructor; assumption.
    + constructor; [rewrite Ho; cbn; lia|].
      eapply Forall_impl; [|exact Hge].
      intros it'. unfold JS.le. destruct (offset it'); [tauto | lia].
Qed.

(** The breakdown of a laid-out parameter list gives back its digits. *)
Lemma layout_roundtrip (slots : list Slot) :
  Forall slotOK slots ->
  fitsDouble (Abi.encodeParams (map snd slots)) ->
  reassemble
    (headParts (buildFlatBreakdown (map fst slots)
                                   (Abi.encodeParams (map snd slots)))
       ++ tailParts (buildFlatBreakdown (map fst slots)
                                        (Abi.encodeParams (map snd slots))))
  = Abi.encodeParams (map snd slots).
Proof.
  intros Hok. unfold Abi.encodeParams.
  destruct (Abi.layout (map snd slots) (Abi.headBytes (map snd slots)))
    as [head tail] eqn:El.
  intros Hfit.
  pose proof (layout_head_length slots Hok _ _ _ El) as Hhead.
  assert (Hb : (Z.of_nat (Abi.headBytes (map snd slots)
                          + String.length tail / 2) < 2 ^ 53)%Z).
  { unfold fitsDouble in Hfit. rewrite length_app in Hfit.
    assert (String.length tail / 2 <= String.length tail)
      by (apply Nat.Div0.div_le_upper_bound; lia).
    lia. }
  destruct (head_pass (head ++ tail) Hfit slots "" tail
                      (Abi.headBytes (map snd slots)) 0 head tail
                      Hok El eq_refl Hb) as (H1 & H2 & H3).
  cbn [String.length] in H1, H2.
  rewrite reassemble_app, headParts_firstPass, H1. f_equal.
  rewrite tailParts_sorted. unfold sortedItems, recordedItems.
  pose proof (expected_chain slots (Abi.headBytes (map snd slots))) as Hch.
  destruct (chain_sorted _ _ _ Hch H2) as (Hn & Hs & _).
  rewrite (sort_id _ Hn Hs).
  transitivity (contents (expected slots (Abi.headBytes (map snd slots))));
    [|symmetry; exact H3].
  apply (tail_windows (head ++ tail) Hfit _ _ head
                      (Abi.headBytes (map snd slots)) Hch H2).
  - rewrite <- H3. reflexivity.
  - exact Hhead.
  - apply expected_ok, Hok.
Qed.

(** ** Dynamic contents *)

Lemma ceil_pad (n : nat) : n <= JS.ceilDiv n 64 * 64.
Proof.
  unfold JS.ceilDiv. cbn [Nat.sub].
  pose proof (Nat.div_mod_eq (n + 63) 64) as E.
  pose proof (Nat.mod_upper_bound (n + 63) 64) as B.
  lia.
Qed.

Lemma length_encodeBlob (bytes : string) :
  String.length (Abi.encodeBlob bytes)
  = 64 + JS.ceilDiv (2 * String.length bytes) 64 * 64.
Proof.
  unfold Abi.encodeBlob, JS.padEnd.
  rewrite !length_app, length_word, length_zeros, length_hexOfBytes.
  pose proof (ceil_pad (2 * String.length bytes)). lia.
Qed.

Lemma toDouble_nat (n : nat) :
  (Z.of_nat n < 2 ^ 53)%Z -> JS.toDouble (Z.of_nat n) = Z.of_nat n.
Proof. intros H. apply toDouble_small. rewrite Z.abs_eq; lia. Qed.

(** A text or byte blob is parsed back to its length word and its padded
    bytes. *)
Lemma blob_roundtrip (p : AbiParameter) (bytes : string) :
  JS.endsWith (ptype p) "[]" = false ->
  (ptype p =? "string") || (ptype p =? "bytes") = true ->
  fitsDouble (Abi.encodeBlob bytes) ->
  reassemble (parseDynamicData p (Abi.encodeBlob bytes))
  = Abi.encodeBlob bytes.
Proof.
  intros Ha Hb Hfit.
  rewrite (parseDynamicData_blob p _ Ha Hb). cbv zeta.
  unfold fitsDouble in Hfit. rewrite length_encodeBlob in Hfit.
  pose proof (ceil_pad (2 * String.length bytes)) as Hpad.
  pose proof (length_encodeBlob bytes) as Hlen.
  unfold Abi.encodeBlob in *.
  set (hex := Abi.hexOfBytes bytes) in *.
  assert (Hhex : String.length hex = 2 * String.length bytes)
    by apply length_hexOfBytes.
  rewrite Hhex in *.
  set (w := Abi.word (Z.of_nat (String.length bytes))) in *.
  assert (Hw : String.length w = 64) by apply length_word.
  set (padded := JS.padEnd hex (JS.ceilDiv (2 * String.length bytes) 64 * 64))
    in *.
  assert (Hword : JS.substring (w ++ padded) 0 64 = w)
    by (rewrite <- Hw; apply substring_prefix).
  assert (Hparse : JS.parseInt16 w
                   = JS.Int (Z.of_nat (String.length bytes)))
    by (apply parseInt16_word; lia).
  rewrite Hword, !Hparse.
  assert (Hdata : JS.substringNum (w ++ padded) (JS.Int 64)
                    (JS.add (JS.Int 64)
                            (JS.timesTwo
                               (JS.Int (Z.of_nat (String.length bytes)))))
                  = hex).
  { unfold JS.substringNum. cbn [JS.timesTwo JS.add].
    replace (64 + 2 * Z.of_nat (String.length bytes))%Z
      with (Z.of_nat (64 + 2 * String.length bytes)) by lia.
    rewrite toDouble_nat by lia.
    change 64%Z with (Z.of_nat 64).
    rewrite !toIndex_exact by lia.
    unfold padded, JS.padEnd. rewrite <- Hw, <- Hhex.
    apply substring_middle. }
  rewrite Hdata, Hhex. fold padded.
  cbn [reassemble]. rewrite !leafDigits_leaf. rewrite app_empty_r.
  reflexivity.
Qed.

Lemma split_string (s : string) (k : nat) :
  k <= String.length s ->
  exists a b, s = a ++ b /\ String.length a = k.
Proof.
  intros H. exists (String.substring 0 k s),
              (String.substring k (String.length s - k) s).
  split; [apply stdsub_split, H|].
  rewrite length_stdsub. lia.
Qed.

Lemma arrayItems_leaves (elementType : string) :
  forall (n : nat) (pre body : string) (i : nat),
    String.length body = 64 * n ->
    reassemble (arrayItems elementType (pre ++ body) n i (String.length pre))
    = body.
Proof.
  induction n as [|n IH]; intros pre body i Hlen.
  - destruct body; [reflexivity | discriminate Hlen].
  - destruct (split_string body 64) as (w & body' & -> & Hw); [lia|].
    rewrite length_app in Hlen.
    cbn [arrayItems reassemble].
    rewrite substring_at by (symmetry; exact Hw).
    rewrite padTo32Bytes_full, leafDigits_leaf by lia.
    f_equal.
    specialize (IH (pre ++ w) body' (S i)).
    rewrite length_app, Hw, app_assoc_s in IH. apply IH. lia.
Qed.

(** An array of one-word elements is parsed back to its count and its
    words. *)
Lemma array_roundtrip (p : AbiParameter) (n : nat) (body : string) :
  JS.endsWith (ptype p) "[]" = true ->
  String.length body = 64 * n ->
  fitsDouble (Abi.word (Z.of_nat n) ++ body) ->
  reassemble (parseDynamicData p (Abi.word (Z.of_nat n) ++ body))
  = Abi.word (Z.of_nat n) ++ body.
Proof.
  intros Ha Hlen Hfit.
  rewrite (parseDynamicData_array p _ Ha).
  set (w := Abi.word (Z.of_nat n)) in *.
  assert (Hw : String.length w = 64) by apply length_word.
  unfold fitsDouble in Hfit. rewrite length_app in Hfit.
  assert (Hword : JS.substring (w ++ body) 0 64 = w)
    by (rewrite <- Hw; apply substring_prefix).
  assert (Hbody : JS.substringFrom (w ++ body) 64 = body)
    by (rewrite <- Hw; apply substringFrom_app).
  assert (Hparse : JS.parseInt16 w = JS.Int (Z.of_nat n))
    by (apply parseInt16_word; lia).
  rewrite Hword, Hbody, !Hparse.
  cbn [JS.loopCount reassemble]. rewrite Nat2Z.id, leafDigits_leaf.
  f_equal. apply (arrayItems_leaves _ n "" body 0 Hlen).
Qed.

(** ** One-word types *)

Lemma encodeParams_single (c : string) :
  Abi.encodeParams [(false, c)] = c.
Proof.
  unfold Abi.encodeParams. cbn. rewrite !app_empty_r. reflexivity.
Qed.

Lemma oneWord_length (t : Abi.TypeNode) :
  forall v c,
    oneWord t = true -> Abi.encodeValue t v = Abi.Done c ->
    String.length c = 64 /\ Abi.dynamic t = false.
Proof.
  induction t as [bits|bits| | |n| | |elem IH|fields IH]
    using TypeNode_nested_ind; intros v c Ho He;
    try discriminate Ho.
  - apply encode_uint in He as (z & _ & _ & ->).
    split; [apply length_word | reflexivity].
  - apply encode_int in He as (z & _ & _ & ->).
    split; [apply length_word | reflexivity].
  - apply encode_bool in He as (b & _ & ->).
    split; [apply length_word | reflexivity].
  - apply encode_address in He as (b & Hb & ->).
    apply hexLiteral_size in Hb.
    rewrite length_app, length_zeros, length_hexOfBytes, Hb.
    split; reflexivity.
  - apply encode_fixedBytes in He as (b & Hb & ->).
    apply hexLiteral_size in Hb. cbn [oneWord] in Ho.
    apply Nat.leb_le in Ho.
    rewrite length_app, length_zeros, length_hexOfBytes, Hb.
    split; [lia | reflexivity].
  - destruct fields as [|[nm f] [|]]; try discriminate Ho.
    cbn [oneWord] in Ho.
    apply Forall_inv in IH. cbn [snd] in IH.
    destruct v as [|vs| |]; try discriminate He.
    cbn [Abi.encodeValue Abi.encodeFields] in He.
    destruct vs as [|v' [|]]; try discriminate He.
    + destruct (Abi.encodeValue f v') as [c'|] eqn:Ef;
        cbn [Abi.andThen Abi.encodeFields] in He; [|discriminate He].
      destruct (IH v' c' Ho Ef) as [Hl Hd].
      rewrite Hd in He. injection He as <-.
      rewrite encodeParams_single.
      split; [exact Hl|]. cbn [Abi.dynamic existsb]. rewrite Hd. reflexivity.
    + destruct (Abi.encodeValue f v'); cbn in He; discriminate He.
Qed.

(** ** Flat types *)

Lemma length_layout_static (items : list (bool * string)) :
  Forall (fun it => fst it = false /\ String.length (snd it) = 64) items ->
  forall tc,
    String.length (fst (Abi.layout items tc) ++ snd (Abi.layout items tc))
    = 64 * List.length items.
Proof.
  induction 1 as [|[d c] items [Hd Hc] _ IH]; intros tc; [reflexivity|].
  cbn [fst snd] in Hd, Hc. subst d. cbn [Abi.layout].
  specialize (IH tc). destruct (Abi.layout items tc) as [h t].
  cbn [fst snd List.length] in IH |- *.
  rewrite app_assoc_s, length_app, IH, Hc. lia.
Qed.

Lemma length_encodeParams_static (items : list (bool * string)) :
  Forall (fun it => fst it = false /\ String.length (snd it) = 64) items ->
  String.length (Abi.encodeParams items) = 64 * List.length items.
Proof.
  intros H. unfold Abi.encodeParams.
  pose proof (length_layout_static items H (Abi.headBytes items)) as E.
  destruct (Abi.layout items (Abi.headBytes items)). exact E.
Qed.

Lemma encodeElements_oneWord (elem : Abi.TypeNode) :
  oneWord elem = true ->
  forall vs items,
    Abi.encodeElements Abi.encodeValue elem vs = Abi.Done items ->
    List.length items = List.length vs
    /\ Forall (fun it => fst it = false /\ String.length (snd it) = 64)
              items.
Proof.
  intros Ho vs. induction vs as [|v vs IH]; intros items He.
  - cbn in He. injection He as <-. split; [reflexivity | constructor].
  - cbn [Abi.encodeElements] in He.
    destruct (Abi.encodeValue elem v) as [c|] eqn:Ec;
      cbn [Abi.andThen] in He; [|discriminate He].
    destruct (Abi.encodeElements Abi.encodeValue elem vs) as [cs|];
      cbn [Abi.andThen] in He; [|discriminate He].
    injection He as <-.
    destruct (IH cs eq_refl) as [Hl Hf].
    destruct (oneWord_length elem v c Ho Ec) as [Hc Hd].
    split; [cbn; congruence|].
    constructor; [cbn [fst snd]; auto | exact Hf].
Qed.

Lemma encodeFields_oneWord (fields : list (string * Abi.TypeNode)) :
  forallb (fun '(_, f) => oneWord f) fields = true ->
  forall vs items,
    Abi.encodeFields Abi.encodeValue fields vs = Abi.Done items ->
    List.length items = List.length fields
    /\ Forall (fun it => fst it = false /\ String.length (snd it) = 64)
              items.
Proof.
  induction fields as [|[n f] fields IH]; intros Ho vs items He.
  - destruct vs; [|discriminate He]. cbn in He. injection He as <-.
    split; [reflexivity | constructor].
  - cbn [forallb] in Ho. apply andb_prop in Ho as [Hf Ho].
    destruct vs as [|v vs]; [discriminate He|].
    cbn [Abi.encodeFields] in He.
    destruct (Abi.encodeValue f v) as [c|] eqn:Ec;
      cbn [Abi.andThen] in He; [|discriminate He].
    destruct (Abi.encodeFields Abi.encodeValue fields vs) as [cs|] eqn:Ecs;
      cbn [Abi.andThen] in He; [|discriminate He].
    injection He as <-.
    destruct (IH Ho vs cs Ecs) as [Hl Hall].
    destruct (oneWord_length f v c Hf Ec) as [Hc Hd].
    split; [cbn; congruence|].
    constructor; [cbn [fst snd]; auto | exact Hall].
Qed.

Lemma oneWord_static (t : Abi.TypeNode) :
  oneWord t = true -> Abi.dynamic t = false.
Proof.
  induction t as [bits|bits| | |n| | |elem IH|fields IH]
    using TypeNode_nested_ind; intros Ho; try reflexivity;
    try discriminate Ho.
  destruct fields as [|[nm f] [|]]; try discriminate Ho.
  cbn [oneWord] in Ho. apply Forall_inv in IH. cbn [snd] in IH.
  cbn [Abi.dynamic existsb]. rewrite (IH Ho). reflexivity.
Qed.

Lemma oneWord_flat (t : Abi.TypeNode) : oneWord t = true -> flat t = true.
Proof.
  destruct t as [bits|bits| | |n| | |elem|fields]; intros Ho;
    try reflexivity; try discriminate Ho.
  - exact Ho.
  - destruct fields as [|[nm f] [|]]; try discriminate Ho.
    cbn [oneWord] in Ho. cbn [flat existsb forallb].
    rewrite (oneWord_static f Ho), Ho. reflexivity.
Qed.

Lemma layout_tail (slots : list Slot) :
  forall tc head tail,
    Abi.layout (map snd slots) tc = (head, tail) ->
    tail = contents (expected slots tc).
Proof.
  induction slots as [|[p [d c]] slots IH]; intros tc head tail Hl.
  - cbn in Hl. apply pair_equal_spec in Hl as [_ <-]. reflexivity.
  - cbn [map snd Abi.layout] in Hl. destruct d.
    + destruct (Abi.layout (map snd slots) (tc + String.length c / 2))
        as [h t] eqn:El.
      apply pair_equal_spec in Hl as [_ <-].
      cbn [expected contents]. rewrite (IH _ _ _ El). reflexivity.
    + destruct (Abi.layout (map snd slots) tc) as [h t] eqn:El.
      apply pair_equal_spec in Hl as [_ <-].
      cbn [expected]. apply (IH _ _ _ El).
Qed.

Lemma contents_even (l : list (AbiParameter * nat * string)) :
  Forall (fun '(p, _, c) =>
            (exists k, String.length c = 2 * k)
            /\ (fitsDouble c -> reassemble (parseDynamicData p c) = c)) l ->
  exists k, String.length (contents l) = 2 * k.
Proof.
  induction 1 as [|[[p o] c] l [[k Hk] _] _ [k' IH]].
  - exists 0. reflexivity.
  - exists (k + k'). cbn [contents]. rewrite length_app. lia.
Qed.

Lemma length_encodeParams_even (slots : list Slot) :
  Forall slotOK slots ->
  exists k, String.length (Abi.encodeParams (map snd slots)) = 2 * k.
Proof.
  intros Hok. unfold Abi.encodeParams.
  destruct (Abi.layout (map snd slots) (Abi.headBytes (map snd slots)))
    as [head tail] eqn:El.
  pose proof (layout_head_length slots Hok _ _ _ El) as Hh.
  pose proof (layout_tail slots _ _ _ El) as Ht.
  destruct (contents_even _ (expected_ok slots Hok
                                         (Abi.headBytes (map snd slots))))
    as [k Hk].
  exists (Abi.headBytes (map snd slots) + k).
  rewrite length_app, Hh, Ht, Hk. lia.
Qed.

Lemma encodeFields_slots (fields : list (string * Abi.TypeNode)) :
  Forall (fun f => roundTrips (snd f)) fields ->
  Forall (fun f => flat (snd f) = true) fields ->
  forall (names : list (option string)) (vs : list Value)
         (items : list (bool * string)),
    List.length names = List.length fields ->
    Abi.encodeFields Abi.encodeValue fields vs = Abi.Done items ->
    exists slots : list Slot,
      map fst slots
      = map (fun nf => Abi.toAbi (fst nf) (snd (snd nf)))
            (combine names fields)
      /\ map snd slots = items
      /\ Forall slotOK slots.
Proof.
  induction 1 as [|[n f] fields Hf _ IH]; intros Hflat names vs items Hn He.
  - destruct vs; [|discriminate He]. cbn in He. injection He as <-.
    exists []. destruct names; [|discriminate Hn].
    repeat split; constructor.
  - apply Forall_cons_iff in Hflat as [Hff Hflat]. cbn [snd] in Hf, Hff.
    destruct names as [|nm names]; [discriminate Hn|].
    destruct vs as [|v vs]; [discriminate He|].
    cbn [Abi.encodeFields] in He.
    destruct (Abi.encodeValue f v) as [c|] eqn:Ec;
      cbn [Abi.andThen] in He; [|discriminate He].
    destruct (Abi.encodeFields Abi.encodeValue fields vs) as [cs|] eqn:Ecs;
      cbn [Abi.andThen] in He; [|discriminate He].
    injection He as <-.
    destruct (IH Hflat names vs cs) as (slots & H1 & H2 & H3);
      [cbn in Hn; lia | exact Ecs|].
    exists ((Abi.toAbi nm f, (Abi.dynamic f, c)) :: slots).
    cbn [map fst snd combine]. rewrite H1, H2.
    repeat split. constructor; [exact (Hf nm v c Hff Ec) | exact H3].
Qed.

Lemma record_components (fields : list (string * Abi.TypeNode)) :
  map (fun nf : option string * (string * Abi.TypeNode) =>
         Abi.toAbi (fst nf) (snd (snd nf)))
      (combine (map (fun f => Some (fst f)) fields) fields)
  = map (fun '(n, f) => Abi.toAbi (Some n) f) fields.
Proof.
  induction fields as [|[n f] fields IH]; [reflexivity|].
  cbn [map combine fst snd]. rewrite IH. reflexivity.
Qed.

Lemma flat_fields (fields : list (string * Abi.TypeNode)) :
  flat (Abi.Record fields) = true ->
  Forall (fun f => flat (snd f) = true) fields.
Proof.
  cbn [flat]. destruct (existsb _ fields); intros H;
    apply Forall_forall; intros [n f] Hin;
    rewrite forallb_forall in H; specialize (H _ Hin); cbn [snd].
  - exact H.
  - apply oneWord_flat, H.
Qed.

Lemma Done_inj {A : Type} (a b : A) : Abi.Done a = Abi.Done b -> a = b.
Proof. intros H. congruence. Qed.

(** Every flat type is decomposed as it is encoded. *)
Lemma flat_roundTrips (t : Abi.TypeNode) : roundTrips t.
Proof.
  induction t as [bits|bits| | |n| | |elem IH|fields IH]
    using TypeNode_nested_ind; intros nm v c Hflat He.
  1-5: (unfold slotOK; rewrite isDynamic_toAbi, pcomponents_toAbi;
        split; [reflexivity|];
        eapply oneWord_length; [|exact He]; exact Hflat).
  - (* DynamicBytes *)
    destruct v as [s| | |]; try discriminate He.
    cbn [Abi.encodeValue] in He.
    destruct (Abi.bytesOfHex s) as [bytes|]; [|discriminate He].
    apply Done_inj in He. subst c.
    unfold slotOK. split; [reflexivity|]. split.
    + rewrite length_encodeBlob.
      exists (32 + JS.ceilDiv (2 * String.length bytes) 64 * 32). lia.
    + apply blob_roundtrip; reflexivity.
  - (* Text *)
    destruct v as [s| | |]; try discriminate He.
    cbn [Abi.encodeValue] in He. apply Done_inj in He. subst c.
    unfold slotOK. split; [reflexivity|]. split.
    + rewrite length_encodeBlob.
      exists (32 + JS.ceilDiv (2 * String.length s) 64 * 32). lia.
    + apply blob_roundtrip; reflexivity.
  - (* Array *)
    cbn [flat] in Hflat.
    destruct v as [|vs| |]; try discriminate He.
    cbn [Abi.encodeValue] in He.
    destruct (Abi.encodeElements Abi.encodeValue elem vs) as [items|] eqn:Ei;
      cbn [Abi.andThen] in He; [|discriminate He].
    apply Done_inj in He. subst c.
    destruct (encodeElements_oneWord elem Hflat vs items Ei) as [Hl Hall].
    pose proof (length_encodeParams_static items Hall) as Hbody.
    rewrite Hl in Hbody.
    assert (Ha : JS.endsWith (ptype (Abi.toAbi nm (Abi.Array elem))) "[]"
                 = true).
    { rewrite ptype_toAbi. cbn [Abi.typeString]. apply endsWith_app. }
    unfold slotOK. split; [apply isDynamic_toAbi|].
    cbn [Abi.dynamic]. split.
    + rewrite length_app, length_word, Hbody.
      exists (32 + 32 * List.length vs). lia.
    + intros Hfit. apply array_roundtrip; assumption.
  - (* Record *)
    destruct v as [|vs| |]; try discriminate He.
    cbn [Abi.encodeValue] in He.
    destruct (Abi.encodeFields Abi.encodeValue fields vs) as [items|] eqn:Ei;
      cbn [Abi.andThen] in He; [|discriminate He].
    apply Done_inj in He. subst c.
    destruct (encodeFields_slots fields IH (flat_fields fields Hflat)
                (map (fun f => Some (fst f)) fields) vs items)
      as (slots & H1 & H2 & H3); [apply length_map | exact Ei|].
    rewrite record_components in H1.
    set (p := Abi.toAbi nm (Abi.Record fields)).
    assert (Hc : pcomponents p
                 = Some (map (fun '(n, f) => Abi.toAbi (Some n) f) fields))
      by reflexivity.
    assert (Ht : ptype p = "tuple") by reflexivity.
    pose proof (layout_roundtrip slots H3) as Hround.
    rewrite H1, H2 in Hround.
    unfold slotOK. split; [apply isDynamic_toAbi|].
    destruct (Abi.dynamic (Abi.Record fields)) eqn:Hd.
    + split.
      * rewrite <- H2. apply length_encodeParams_even, H3.
      * intros Hfit.
        rewrite (parseDynamicData_tuple p _ _ eq_refl eq_refl Hc).
        apply Hround, Hfit.
    + rewrite Hc, Ht. cbn [String.eqb Ascii.eqb Bool.eqb].
      split; [|exact Hround].
      cbn [flat] in Hflat. cbn [Abi.dynamic] in Hd. rewrite Hd in Hflat.
      destruct (encodeFields_oneWord fields Hflat vs items Ei) as [Hl Hall].
      rewrite (length_encodeParams_static items Hall), length_map, Hl. lia.
Qed.

Lemma named_components (named : list (option string * Abi.TypeNode)) :
  map (fun nf : option string * (string * Abi.TypeNode) =>
         Abi.toAbi (fst nf) (snd (snd nf)))
      (combine (map fst named)
               (map (fun t => (EmptyString, t)) (map snd named)))
  = map (fun nt => Abi.toAbi (fst nt) (snd nt)) named.
Proof.
  induction named as [|[n t] named IH]; [reflexivity|].
  cbn [map combine fst snd]. rewrite IH. reflexivity.
Qed.

(** The parameter area of flat types is decomposed into leaves that give
    it back. *)
Lemma encode_roundtrip (named : list (option string * Abi.TypeNode))
      (values : list Value) (encoded : string) :
  forallb (fun nt => flat (snd nt)) named = true ->
  Abi.encode (map snd named) values = Abi.Done encoded ->
  fitsDouble encoded ->
  let params := map (fun nt => Abi.toAbi (fst nt) (snd nt)) named in
  reassemble (headParts (buildFlatBreakdown params encoded)
                ++ tailParts (buildFlatBreakdown params encoded))
  = encoded.
Proof.
  intros Hflat He Hfit params. unfold Abi.encode in He.
  destruct (Abi.encodeFields Abi.encodeValue
              (map (fun t => (EmptyString, t)) (map snd named)) values)
    as [items|] eqn:Ei; cbn [Abi.andThen] in He; [|discriminate He].
  apply Done_inj in He. subst encoded.
  destruct (encodeFields_slots
              (map (fun t => (EmptyString, t)) (map snd named)))
    with (names := map fst named) (vs := values) (items := items)
    as (slots & H1 & H2 & H3).
  - apply Forall_forall. intros f _. apply flat_roundTrips.
  - apply Forall_forall. intros [n t] Hin.
    apply in_map_iff in Hin as (t' & [= <- <-] & Hin).
    apply in_map_iff in Hin as ([n' t''] & <- & Hin).
    rewrite forallb_forall in Hflat. exact (Hflat _ Hin).
  - rewrite !length_map. reflexivity.
  - exact Ei.
  - rewrite named_components in H1. fold params in H1.
    pose proof (layout_roundtrip slots H3) as Hround.
    rewrite H1, H2 in Hround. apply Hround, Hfit.
Qed.

(** C1 (amended).  For every list of flat types (every array has static
    one-word elements, every static record has one-word fields, dynamic
    records have flat fields) and every value list the encoder accepts,
    when the signature parses to these types and the library encoder
    returns the bytes of the encoding scheme, the breakdown that
    [encodeFunctionCall] returns with the calldata gives the calldata
    back: the digits of its leaves, in order, after ['0x']. *)
Theorem C1_roundtrip_on_flat_types :
  forall keccakDigits parseAbiParameters encodeAbiParametersDigits
         (input : string) (named : list (option string * Abi.TypeNode))
         (values : list Value) (encoded : string) (r : EncodeResult),
    forallb (fun nt => flat (snd nt)) named = true ->
    parseAbiParameters (argsStrOf (JS.trim input))
    = Some (map (fun nt => Abi.toAbi (fst nt) (snd nt)) named) ->
    Abi.encode (map snd named) values = Abi.Done encoded ->
    encodeAbiParametersDigits
      (map (fun nt => Abi.toAbi (fst nt) (snd nt)) named) values
    = Some encoded ->
    fitsDouble encoded ->
    encodeFunctionCall keccakDigits parseAbiParameters
                       encodeAbiParametersDigits input values = Ok r ->
    calldata r = "0x" ++ reassemble (parts r).
Proof.
  intros k pa en input named values encoded r Hflat Hp He Hen Hfit Hr.
  pose proof (encode_roundtrip named values encoded Hflat He Hfit) as Hround.
  cbv zeta in Hround.
  unfold encodeFunctionCall in Hr.
  destruct (funcNameMatch (JS.trim input)) as [fn|]; [|discriminate Hr].
  rewrite Hp in Hr. unfold encodeAbiParameters in Hr. rewrite Hen in Hr.
  cbn [option_map] in Hr.
  change "0x" with (String "0" (String "x" "")) in Hr at 1.
  assert (Hs : JS.substringFrom ("0x" ++ encoded) 2 = encoded)
    by (apply (substringFrom_app "0x" encoded)).
  rewrite Hs, selectorOf_digits in Hr.
  apply (f_equal (fun x => match x with Ok a => a | Throw _ => r end)) in Hr.
  cbv beta iota in Hr. subst r.
  cbn [calldata parts reassemble].
  rewrite leafDigits_leaf, Hround. reflexivity.
Qed.

Lemma C1_roundtrip_on_flat_types_witness :
  exists r encoded,
    forallb (fun nt => flat (snd nt)) Example.mixedTypes = true
    /\ Abi.encode (map snd Example.mixedTypes) Example.mixedValues
       = Abi.Done encoded
    /\ fitsDouble encoded
    /\ encodeFunctionCall Example.digest
                          (Example.parseAs Example.mixedParams)
                          (Example.schemeEncoder
                             (map snd Example.mixedTypes))
                          Example.mixedInput Example.mixedValues
       = Ok r
    /\ calldata r = "0x" ++ reassemble (parts r).
Proof.
  destruct (encodeFunctionCall Example.digest
              (Example.parseAs Example.mixedParams)
              (Example.schemeEncoder (map snd Example.mixedTypes))
              Example.mixedInput Example.mixedValues)
    as [r|e] eqn:Er; [|vm_compute in Er; discriminate Er].
  destruct (Abi.encode (map snd Example.mixedTypes) Example.mixedValues)
    as [encoded|e] eqn:Ee; [|vm_compute in Ee; discriminate Ee].
  assert (Hflat : forallb (fun nt => flat (snd nt)) Example.mixedTypes = true)
    by (vm_compute; reflexivity).
  assert (Hfit : fitsDouble encoded).
  { vm_compute in Ee. apply Done_inj in Ee. subst encoded.
    unfold fitsDouble. vm_compute. reflexivity. }
  assert (Hen : Example.schemeEncoder (map snd Example.mixedTypes)
                  (map (fun nt => Abi.toAbi (fst nt) (snd nt))
                       Example.mixedTypes)
                  Example.mixedValues
                = Some encoded)
    by (unfold Example.schemeEncoder; rewrite Ee; reflexivity).
  exists r, encoded.
  split; [exact Hflat|]. split; [reflexivity|]. split; [exact Hfit|].
  split; [reflexivity|].
  exact (C1_roundtrip_on_flat_types
           Example.digest (Example.parseAs Example.mixedParams)
           (Example.schemeEncoder (map snd Example.mixedTypes))
           Example.mixedInput Example.mixedTypes Example.mixedValues
           encoded r Hflat eq_refl Ee Hen Hfit Er).
Defined.

(** C1 as stated fails on [f(string[])] with the value [["hi"]], which
    the encoder accepts: the calldata holds, after the selector, the
    offset word, the count, and the head and tail of the element; the
    leaves of the breakdown hold the selector, the offset word, the count
    and the head word of the element only, so the length and the bytes of
    ["hi"] are in no leaf and the leaves do not give the calldata back. *)
Lemma C1_counterexample_string_array :
  exists r,
    Abi.encode [Abi.Array Abi.Text] [VArray [VString "hi"]]
    = Abi.Done (Abi.word 32 ++ Example.stringArrayData)
    /\ encodeFunctionCall Example.digest
                          (Example.parseAs [Example.stringArray])
                          (Example.schemeEncoder [Abi.Array Abi.Text])
                          "f(string[])" [VArray [VString "hi"]]
       = Ok r
    /\ calldata r = "0xa9059cbb" ++ Abi.word 32 ++ Example.stringArrayData
    /\ "0x" ++ reassemble (parts r)
       = "0xa9059cbb" ++ Abi.word 32 ++ Abi.word 1 ++ Abi.word 32
    /\ calldata r <> "0x" ++ reassemble (parts r).
Proof.
  eexists. split; [vm_compute; reflexivity|].
  split; [vm_compute; reflexivity|].
  split; [vm_compute; reflexivity|].
  split; [vm_compute; reflexivity|].
  vm_compute. discriminate.
Qed.

(** * Further properties of the code *)

(** ** The form and [processValues] *)

Lemma mapValues_ok (f : AbiParameter -> Value -> Result Value)
      (g : AbiParameter -> Value) (h : AbiParameter -> Value)
      (ps : list AbiParameter) :
  Forall (fun p => f p (g p) = Ok (h p)) ps ->
  mapValues f ps (map g ps) = Ok (map h ps).
Proof.
  induction 1 as [|p ps Hp _ IH]; [reflexivity|].
  cbn [map mapValues]. rewrite Hp. cbn [bind]. rewrite IH. reflexivity.
Qed.

Lemma processValue_initial (p : AbiParameter) :
  processValue p (initialValue p) = Ok (processedDefault p).
Proof.
  induction p as [ty nm cs IH] using AbiParameter_nested_ind.
  destruct cs as [l|].
  - specialize (IH l eq_refl).
    cbn [processValue initialValue processedDefault pcomponents truthy].
    change (mapValues processValue l (map initialValue l))
      with (mapValues processValue l (map initialValue l)).
    rewrite (mapValues_ok processValue initialValue processedDefault l IH).
    reflexivity.
  - cbn [processValue initialValue processedDefault pcomponents ptype].
    destruct (JS.includes ty "uint" || JS.includes ty "int");
      [reflexivity|].
    destruct (ty =? "bool"); reflexivity.
Qed.

(** X1.  The values of a freshly built form are always accepted by
    [processValues]: whatever the parameters, structs included, the
    untouched form gives [0n] for each numeric field, [false] for each
    boolean and the empty string elsewhere, and nothing is thrown. *)
Theorem fresh_form_is_processed :
  forall (parseAbiParameters : string -> option (list AbiParameter))
         (debouncedInput : string),
    let '(abiParams, argValues) :=
      onInputChange parseAbiParameters debouncedInput in
    processValues abiParams argValues = Ok (map processedDefault abiParams)
    /\ List.length argValues = List.length abiParams.
Proof.
  intros parse input. unfold onInputChange.
  destruct (parse (argsStrOf input)) as [params|]; [|split; reflexivity].
  split; [|apply length_map].
  unfold processValues, buildInitialValues.
  apply mapValues_ok, Forall_forall. intros p _. apply processValue_initial.
Qed.

Lemma mapValues_length (f : AbiParameter -> Value -> Result Value)
      (ps : list AbiParameter) :
  forall vs rs, mapValues f ps vs = Ok rs ->
  List.length rs = List.length vs /\ List.length vs <= List.length ps.
Proof.
  induction ps as [|p ps IH]; intros [|v vs] rs H; cbn [mapValues] in H.
  - inversion H. cbn. lia.
  - discriminate.
  - inversion H. cbn. lia.
  - destruct (f p v) as [r|e]; cbn [bind] in H; [|discriminate].
    destruct (mapValues f ps vs) as [rs'|e] eqn:E; cbn [bind] in H;
      [|discriminate].
    inversion H. destruct (IH vs rs' E). cbn [List.length]. lia.
Qed.

Lemma mapValues_throws (f : AbiParameter -> Value -> Result Value)
      (ps : list AbiParameter) :
  Forall (fun p => forall v e, f p v = Throw e -> e = TypeError) ps ->
  forall vs e, mapValues f ps vs = Throw e -> e = TypeError.
Proof.
  induction 1 as [|p ps Hp _ IH]; intros [|v vs] e H; cbn [mapValues] in H;
    try discriminate.
  - congruence.
  - destruct (f p v) as [r|e'] eqn:E; cbn [bind] in H.
    + destruct (mapValues f ps vs) as [rs'|e''] eqn:E'; cbn [bind] in H;
        [discriminate|].
      inversion H; subst. exact (IH vs e E').
    + inversion H; subst. exact (Hp v e E).
Qed.

Lemma processValue_throws (p : AbiParameter) :
  forall v e, processValue p v = Throw e -> e = TypeError.
Proof.
  induction p as [ty nm cs IH] using AbiParameter_nested_ind.
  intros v e H. destruct cs as [l|]; cbn [processValue pcomponents ptype] in H.
  - specialize (IH l eq_refl).
    destruct (if truthy v then v else VArray []) as [s|vs|z|b];
      try congruence.
    destruct (mapValues processValue l vs) as [r|e'] eqn:E; cbn [bind] in H;
      [discriminate|].
    inversion H; subst. exact (mapValues_throws _ _ IH vs e E).
  - destruct (JS.includes ty "uint" || JS.includes ty "int").
    + destruct (toBigInt v); discriminate.
    + destruct (ty =? "bool"); [|discriminate].
      destruct v; congruence.
Qed.

(** X2.  [processValues] maps over the values, not over the parameters:
    with more values than parameters the call throws a TypeError,
    whatever the values are; nothing is dropped silently. *)
Theorem surplus_values_throw_TypeError :
  forall (params : list AbiParameter) (values : list Value),
    List.length params < List.length values ->
    processValues params values = Throw TypeError.
Proof.
  intros params values Hlt. unfold processValues.
  destruct (mapValues processValue params values) as [rs|e] eqn:E.
  - apply mapValues_length in E. lia.
  - f_equal. apply (mapValues_throws processValue params) with (vs := values).
    + apply Forall_forall. intros p _. apply processValue_throws.
    + exact E.
Qed.

Lemma surplus_values_throw_TypeError_witness :
  processValues [Example.uint256 (Some "amount")]
                [VString "1"; VString "2"] = Throw TypeError.
Proof.
  apply surplus_values_throw_TypeError. cbn. lia.
Defined.

(** X3.  On success [processValues] returns one processed value per
    value given, and there were no more values than parameters; missing
    trailing values are not filled in. *)
Theorem processed_values_keep_their_number :
  forall (params : list AbiParameter) (values processed : list Value),
    processValues params values = Ok processed ->
    List.length processed = List.length values /\
    List.length values <= List.length params.
Proof.
  intros params values processed H.
  exact (mapValues_length processValue params values processed H).
Qed.

Lemma processed_values_keep_their_number_witness :
  List.length [VBigInt 1] = List.length [VString "1"] /\
  List.length [VString "1"] <=
  List.length [Example.uint256 (Some "amount"); Example.uint256 None].
Proof.
  apply (processed_values_keep_their_number
           [Example.uint256 (Some "amount"); Example.uint256 None]
           [VString "1"] [VBigInt 1]).
  vm_compute. reflexivity.
Defined.

(** *** A comma never reads as a number *)

Lemma includes_comma_cons (c : ascii) (s : string) :
  JS.includes (String c s) "," = Ascii.eqb "," c || JS.includes s ",".
Proof.
  cbn [JS.includes JS.startsWith]. rewrite andb_true_r. reflexivity.
Qed.

Lemma digitsValue_comma (radix : Z) (s : string) :
  forall acc, JS.includes s "," = true -> digitsValue radix s acc = None.
Proof.
  induction s as [|c s IH]; intros acc H; [discriminate|].
  rewrite includes_comma_cons in H. cbn [digitsValue].
  destruct (Ascii.eqb "," c) eqn:E.
  - apply Ascii.eqb_eq in E. subst c. reflexivity.
  - destruct (digitOf radix c); [apply IH; exact H|reflexivity].
Qed.

Lemma nonEmptyDigits_comma (radix : Z) (s : string) :
  JS.includes s "," = true -> nonEmptyDigits radix s = None.
Proof.
  destruct s; [discriminate|]. intros H. unfold nonEmptyDigits.
  apply digitsValue_comma. exact H.
Qed.

Lemma trimStart_comma (s : string) :
  JS.includes s "," = true -> JS.includes (JS.trimStart s) "," = true.
Proof.
  induction s as [|c s IH]; intros H; [discriminate|].
  cbn [JS.trimStart]. destruct (JS.isWhiteSpace c) eqn:W; [|exact H].
  apply IH. rewrite includes_comma_cons in H.
  destruct (Ascii.eqb "," c) eqn:E; [|exact H].
  apply Ascii.eqb_eq in E. subst c. discriminate.
Qed.

Lemma trimEnd_comma (s : string) :
  JS.includes s "," = true -> JS.includes (JS.trimEnd s) "," = true.
Proof.
  induction s as [|c s IH]; intros H; [discriminate|].
  rewrite includes_comma_cons in H. cbn [JS.trimEnd].
  destruct (Ascii.eqb "," c) eqn:E.
  - apply Ascii.eqb_eq in E. subst c.
    destruct (JS.trimEnd s); reflexivity.
  - cbn [orb] in H. specialize (IH H).
    destruct (JS.trimEnd s) as [|d t]; [discriminate|].
    rewrite includes_comma_cons, E. exact IH.
Qed.

Lemma trim_comma (s : string) :
  JS.includes s "," = true -> JS.includes (JS.trim s) "," = true.
Proof.
  intros H. apply trimEnd_comma, trimStart_comma, H.
Qed.

Ltac comma_free_head H :=
  rewrite includes_comma_cons in H;
  first [ discriminate H
        | cbn [Ascii.eqb Bool.eqb andb orb] in H ].

Ltac no_number H :=
  first [ apply nonEmptyDigits_comma; exact H
        | rewrite (nonEmptyDigits_comma _ _ H); reflexivity ].

Lemma stringToBigInt_comma (s : string) :
  JS.includes s "," = true -> stringToBigInt s = None.
Proof.
  intros H. apply trim_comma in H. unfold stringToBigInt.
  destruct (JS.trim s) as [|c1 t1]; [discriminate|].
  assert (H1 : Ascii.eqb "," c1 = false ->
               JS.includes t1 "," = true).
  { intros E. rewrite includes_comma_cons, E in H. exact H. }
  destruct c1 as [[] [] [] [] [] [] [] []]; cbv beta iota;
    try (no_number H); try (specialize (H1 eq_refl); no_number H1).
  specialize (H1 eq_refl).
  destruct t1 as [|c2 t2]; [discriminate|].
  assert (H2 : Ascii.eqb "," c2 = false ->
               JS.includes t2 "," = true).
  { intros E. rewrite includes_comma_cons, E in H1. exact H1. }
  destruct c2 as [[] [] [] [] [] [] [] []]; cbv beta iota;
    try (no_number H); try (specialize (H2 eq_refl); no_number H2).
Qed.

(** X4.  A field whose type has no components and contains ['int'] is
    always read as one number, array types included: a comma-separated
    list typed for [uint256[]] is not split, it fails [BigInt] and
    becomes [0n]. *)
Theorem comma_list_for_integer_type_is_zero :
  forall (param : AbiParameter) (text : string),
    pcomponents param = None ->
    JS.includes (ptype param) "int" = true ->
    JS.includes text "," = true ->
    processValue param (VString text) = Ok (VBigInt 0).
Proof.
  intros [ty nm cs] text Hc Ht Hs. cbn [pcomponents ptype] in Hc, Ht.
  subst cs. cbn [processValue pcomponents ptype]. rewrite Ht, orb_true_r.
  cbn [toBigInt]. rewrite (stringToBigInt_comma text Hs). reflexivity.
Qed.

Lemma comma_list_for_integer_type_is_zero_witness :
  processValue (mkParam "uint256[]" (Some "amounts") None)
               (VString "1, 2, 3") = Ok (VBigInt 0).
Proof.
  apply comma_list_for_integer_type_is_zero; reflexivity.
Defined.

(** ** The signature text *)

Lemma funcNameMatch_last_paren (pre rest : string) :
  onOneLine pre = true ->
  JS.includes rest "(" = false ->
  funcNameMatch (pre ++ String "(" rest) = Some pre.
Proof.
  intros Hl Hr. induction pre as [|c pre IH].
  - cbn [append funcNameMatch spacesThenParen Ascii.eqb Bool.eqb].
    rewrite (funcNameMatch_none rest Hr). reflexivity.
  - cbn [onOneLine] in Hl. apply andb_prop in Hl as [Hc Hl].
    apply negb_true_iff in Hc. specialize (IH Hl).
    change ((String c pre) ++ String "(" rest)
      with (String c (pre ++ String "(" rest)).
    cbn [funcNameMatch]. rewrite Hc, IH. reflexivity.
Qed.

(** X5.  The name that is hashed is the text before the LAST opening
    parenthesis of the trimmed input (the expression is greedy): when the
    input has the form [pre ( rest] with [pre] on one line and no ['(']
    in [rest], the selector part is the hash of [pre], ['('], the
    canonical parameter types and [')'].  For a signature with a struct
    parameter [pre] runs into the parameter list. *)
Theorem hashed_name_runs_to_the_last_parenthesis :
  forall keccakDigits parseAbiParameters encodeAbiParametersDigits
         (input pre rest : string) (argValues : list Value)
         (abiParams : list AbiParameter) (digits : string),
    JS.trim input = pre ++ "(" ++ rest ->
    onOneLine pre = true ->
    JS.includes rest "(" = false ->
    parseAbiParameters (argsStrOf (JS.trim input)) = Some abiParams ->
    encodeAbiParametersDigits abiParams argValues = Some digits ->
    let signature :=
      pre ++ "(" ++ getCanonicalSignatureForParams abiParams ++ ")" in
    exists r,
      encodeFunctionCall keccakDigits parseAbiParameters
                         encodeAbiParametersDigits input argValues = Ok r
      /\ hd_error (parts r)
         = Some (mkPart "Function Selector" "bytes4"
                        (selectorOf keccakDigits signature)
                        (Some (Keccak256Of signature)) None).
Proof.
  intros k pa en input pre rest vals ps digits Ht Hl Hr Hp He sig.
  unfold encodeFunctionCall. rewrite Ht in *.
  change (pre ++ "(" ++ rest) with (pre ++ String "(" rest) in *.
  rewrite (funcNameMatch_last_paren pre rest Hl Hr), Hp.
  unfold encodeAbiParameters. rewrite He. cbn [option_map].
  eexists. split; [reflexivity|]. reflexivity.
Qed.

Lemma hashed_name_runs_to_the_last_parenthesis_witness :
  exists r,
    encodeFunctionCall
      Example.digest
      (Example.parseAs
         [mkParam "tuple" (Some "p")
                  (Some [Example.uint256 (Some "a");
                         Example.uint256 (Some "b")])])
      (fun _ _ => Some (Abi.word 1 ++ Abi.word 2))
      "  set((uint256 a, uint256 b) p)"
      [VArray [VBigInt 1; VBigInt 2]] = Ok r
    /\ hd_error (parts r)
       = Some (mkPart "Function Selector" "bytes4"
                 (selectorOf Example.digest "set(((uint256,uint256))")
                 (Some (Keccak256Of "set(((uint256,uint256))")) None).
Proof.
  apply (hashed_name_runs_to_the_last_parenthesis
           Example.digest _ _ "  set((uint256 a, uint256 b) p)"
           "set(" "uint256 a, uint256 b) p)"
           [VArray [VBigInt 1; VBigInt 2]]
           [mkParam "tuple" (Some "p")
                    (Some [Example.uint256 (Some "a");
                           Example.uint256 (Some "b")])]
           (Abi.word 1 ++ Abi.word 2)); reflexivity.
Defined.

(** *** The argument text *)

Lemma indexOf_range (s : string) (c : ascii) :
  (-1 <= JS.indexOf s c < Z.of_nat (String.length s))%Z.
Proof.
  induction s as [|d s IH]; cbn [JS.indexOf String.length]; [lia|].
  destruct (Ascii.eqb d c); [lia|].
  destruct (JS.indexOf s c <? 0)%Z eqn:E; lia.
Qed.

Lemma lastIndexOf_range (s : string) (c : ascii) :
  (-1 <= JS.lastIndexOf s c < Z.of_nat (String.length s))%Z.
Proof.
  induction s as [|d s IH]; cbn [JS.lastIndexOf String.length]; [lia|].
  destruct (0 <=? JS.lastIndexOf s c)%Z eqn:E; [lia|].
  destruct (Ascii.eqb d c); lia.
Qed.

Lemma indexOf_first_paren (name rest : string) :
  JS.includes name "(" = false ->
  JS.indexOf (name ++ String "(" rest) "(" = Z.of_nat (String.length name).
Proof.
  intros H. induction name as [|c name IH]; [reflexivity|].
  apply includes_paren_cons in H as [Hc Hs]. specialize (IH Hs).
  change ((String c name) ++ String "(" rest)
    with (String c (name ++ String "(" rest)).
  cbn [JS.indexOf String.length]. rewrite Hc, IH.
  destruct (Z.of_nat (String.length name) <? 0)%Z eqn:E; lia.
Qed.

Lemma lastIndexOf_closing (s : string) :
  JS.lastIndexOf (s ++ ")") ")" = Z.of_nat (String.length s).
Proof.
  induction s as [|c s IH]; [reflexivity|].
  change ((String c s) ++ ")") with (String c (s ++ ")")).
  cbn [JS.lastIndexOf String.length]. rewrite IH.
  destruct (0 <=? Z.of_nat (String.length s))%Z eqn:E; lia.
Qed.

Lemma argsStrOf_between (name args : string) :
  JS.includes name "(" = false ->
  argsStrOf (name ++ "(" ++ args ++ ")") = args.
Proof.
  intros H. unfold argsStrOf.
  change (name ++ "(" ++ args ++ ")") with (name ++ String "(" (args ++ ")")).
  rewrite (indexOf_first_paren name (args ++ ")") H).
  replace (name ++ String "(" (args ++ ")"))
    with ((name ++ String "(" args) ++ ")").
  2:{ rewrite app_assoc_s. reflexivity. }
  rewrite lastIndexOf_closing.
  unfold JS.substringNum, JS.toIndex.
  assert (L1 : String.length (name ++ String "(" args)
               = String.length name + 1 + String.length args).
  { rewrite length_app. cbn [String.length]. lia. }
  assert (L2 : String.length ((name ++ String "(" args) ++ ")")
               = String.length name + 1 + String.length args + 1).
  { rewrite length_app, L1. reflexivity. }
  assert (L3 : String.length (name ++ "(") = String.length name + 1).
  { rewrite length_app. reflexivity. }
  rewrite L2, L1.
  match goal with
  | |- JS.substring _ ?a ?b = _ =>
      replace a with (String.length (name ++ "(")) by (rewrite L3; lia);
      replace b with (String.length (name ++ "(") + String.length args)
        by (rewrite L3; lia)
  end.
  replace ((name ++ String "(" args) ++ ")")
    with ((name ++ "(") ++ args ++ ")").
  2:{ rewrite !app_assoc_s. reflexivity. }
  apply substring_middle.
Qed.

(** X6.  For an input of the form [name ( args )] whose name has no
    parenthesis, the text handed to [parseAbiParameters] is exactly
    [args], closing parentheses inside [args] included. *)
Theorem argument_text_is_between_the_outer_parentheses :
  forall (name args : string),
    JS.includes name "(" = false ->
    argsStrOf (name ++ "(" ++ args ++ ")") = args.
Proof. intros name args H. apply argsStrOf_between, H. Qed.

Lemma argument_text_is_between_the_outer_parentheses_witness :
  argsStrOf ("set" ++ "(" ++ "(uint256 a, uint256 b) p" ++ ")")
  = "(uint256 a, uint256 b) p".
Proof.
  apply argument_text_is_between_the_outer_parentheses. reflexivity.
Defined.

(** *** White space around the signature *)

Lemma trimStart_blank (w : string) : blank w = true -> JS.trimStart w = "".
Proof.
  induction w as [|c w IH]; [reflexivity|]. cbn [blank JS.trimStart].
  intros H. apply andb_prop in H as [Hc Hw]. rewrite Hc. exact (IH Hw).
Qed.

Lemma trimEnd_blank (w : string) : blank w = true -> JS.trimEnd w = "".
Proof.
  induction w as [|c w IH]; [reflexivity|]. cbn [blank JS.trimEnd].
  intros H. apply andb_prop in H as [Hc Hw]. rewrite (IH Hw), Hc.
  reflexivity.
Qed.

Lemma trimStart_app_blank (w s : string) :
  blank w = true -> JS.trimStart (w ++ s) = JS.trimStart s.
Proof.
  induction w as [|c w IH]; [reflexivity|]. cbn [blank].
  intros H. apply andb_prop in H as [Hc Hw].
  change ((String c w) ++ s) with (String c (w ++ s)).
  cbn [JS.trimStart]. rewrite Hc. exact (IH Hw).
Qed.

Lemma trimEnd_app_blank (s w : string) :
  blank w = true -> JS.trimEnd (s ++ w) = JS.trimEnd s.
Proof.
  intros H. induction s as [|c s IH].
  - cbn [append]. rewrite (trimEnd_blank w H). reflexivity.
  - change ((String c s) ++ w) with (String c (s ++ w)).
    cbn [JS.trimEnd]. rewrite IH. reflexivity.
Qed.

Lemma trim_app_blank_r (s w : string) :
  blank w = true -> JS.trim (s ++ w) = JS.trim s.
Proof.
  intros H. unfold JS.trim. induction s as [|c s IH].
  - cbn [append]. rewrite (trimStart_blank w H). reflexivity.
  - change ((String c s) ++ w) with (String c (s ++ w)).
    cbn [JS.trimStart]. destruct (JS.isWhiteSpace c); [exact IH|].
    apply (trimEnd_app_blank (String c s) w H).
Qed.

Lemma trim_surrounded (w1 s w2 : string) :
  blank w1 = true -> blank w2 = true -> JS.trim (w1 ++ s ++ w2) = JS.trim s.
Proof.
  intros H1 H2. rewrite <- (trim_app_blank_r s w2 H2). unfold JS.trim.
  rewrite (trimStart_app_blank w1 (s ++ w2) H1). reflexivity.
Qed.

(** X7.  White space before and after the signature never changes the
    outcome of [encodeFunctionCall], be it a result or an error. *)
Theorem surrounding_white_space_is_ignored :
  forall keccakDigits parseAbiParameters encodeAbiParametersDigits
         (before input after : string) (argValues : list Value),
    blank before = true ->
    blank after = true ->
    encodeFunctionCall keccakDigits parseAbiParameters
                       encodeAbiParametersDigits
                       (before ++ input ++ after) argValues
    = encodeFunctionCall keccakDigits parseAbiParameters
                         encodeAbiParametersDigits input argValues.
Proof.
  intros k pa en w1 input w2 vals H1 H2. unfold encodeFunctionCall.
  rewrite (trim_surrounded w1 input w2 H1 H2). reflexivity.
Qed.

Lemma surrounding_white_space_is_ignored_witness :
  encodeFunctionCall Example.digest Example.parseTransfer
                     (fun _ _ => Some (Abi.word 1 ++ Abi.word 2))
                     ("  " ++ "transfer(address,uint256)" ++ " ")
                     [VString "0x01"; VBigInt 2]
  = encodeFunctionCall Example.digest Example.parseTransfer
                       (fun _ _ => Some (Abi.word 1 ++ Abi.word 2))
                       "transfer(address,uint256)"
                       [VString "0x01"; VBigInt 2].
Proof.
  apply surrounding_white_space_is_ignored; reflexivity.
Defined.

(** *** The form parses the text the encoder parses *)

Lemma trimStart_split (s : string) :
  exists w, blank w = true /\ s = w ++ JS.trimStart s.
Proof.
  induction s as [|c s [w [Hw E]]]; [exists ""; split; reflexivity|].
  cbn [JS.trimStart]. destruct (JS.isWhiteSpace c) eqn:Hc.
  - exists (String c w). split; [cbn [blank]; rewrite Hc, Hw; reflexivity|].
    cbn [append]. rewrite <- E. reflexivity.
  - exists "". split; reflexivity.
Qed.

Lemma trimEnd_split (s : string) :
  exists w, blank w = true /\ s = JS.trimEnd s ++ w.
Proof.
  induction s as [|c s [w [Hw E]]]; [exists ""; split; reflexivity|].
  cbn [JS.trimEnd]. destruct (JS.trimEnd s) as [|d t] eqn:Ht.
  - cbn [append] in E. subst w. destruct (JS.isWhiteSpace c) eqn:Hc.
    + exists (String c s). split; [cbn [blank]; rewrite Hc, Hw|]; reflexivity.
    + exists s. split; [exact Hw|reflexivity].
  - exists w. split; [exact Hw|].
    change (String c (String d t) ++ w) with (String c (String d t ++ w)).
    rewrite <- E. reflexivity.
Qed.

Lemma trim_split (s : string) :
  exists w1 w2, blank w1 = true /\ blank w2 = true
                /\ s = w1 ++ JS.trim s ++ w2.
Proof.
  destruct (trimStart_split s) as [w1 [H1 E1]].
  destruct (trimEnd_split (JS.trimStart s)) as [w2 [H2 E2]].
  exists w1, w2. split; [exact H1|]. split; [exact H2|].
  unfold JS.trim. rewrite <- E2. exact E1.
Qed.

Lemma indexOf_blank (w : string) (c : ascii) :
  blank w = true -> JS.isWhiteSpace c = false -> JS.indexOf w c = (-1)%Z.
Proof.
  intros Hw Hc. induction w as [|d w IH]; [reflexivity|].
  cbn [blank] in Hw. apply andb_prop in Hw as [Hd Hw].
  cbn [JS.indexOf]. rewrite (IH Hw).
  destruct (Ascii.eqb d c) eqn:E; [|reflexivity].
  apply Ascii.eqb_eq in E. congruence.
Qed.

Lemma lastIndexOf_blank (w : string) (c : ascii) :
  blank w = true -> JS.isWhiteSpace c = false -> JS.lastIndexOf w c = (-1)%Z.
Proof.
  intros Hw Hc. induction w as [|d w IH]; [reflexivity|].
  cbn [blank] in Hw. apply andb_prop in Hw as [Hd Hw].
  cbn [JS.lastIndexOf]. rewrite (IH Hw). cbn.
  destruct (Ascii.eqb d c) eqn:E; [|reflexivity].
  apply Ascii.eqb_eq in E. congruence.
Qed.

Lemma indexOf_app_blank_r (s w : string) (c : ascii) :
  blank w = true -> JS.isWhiteSpace c = false ->
  JS.indexOf (s ++ w) c = JS.indexOf s c.
Proof.
  intros Hw Hc. induction s as [|d s IH].
  - apply indexOf_blank; assumption.
  - change ((String d s) ++ w) with (String d (s ++ w)).
    cbn [JS.indexOf]. rewrite IH. reflexivity.
Qed.

Lemma lastIndexOf_app_blank_r (s w : string) (c : ascii) :
  blank w = true -> JS.isWhiteSpace c = false ->
  JS.lastIndexOf (s ++ w) c = JS.lastIndexOf s c.
Proof.
  intros Hw Hc. induction s as [|d s IH].
  - apply lastIndexOf_blank; assumption.
  - change ((String d s) ++ w) with (String d (s ++ w)).
    cbn [JS.lastIndexOf]. rewrite IH. reflexivity.
Qed.

Lemma indexOf_app_blank_l (w s : string) (c : ascii) :
  blank w = true -> JS.isWhiteSpace c = false ->
  (0 <= JS.indexOf s c)%Z ->
  JS.indexOf (w ++ s) c = (Z.of_nat (String.length w) + JS.indexOf s c)%Z.
Proof.
  intros Hw Hc Hs. induction w as [|d w IH]; [cbn; lia|].
  cbn [blank] in Hw. apply andb_prop in Hw as [Hd Hw]. specialize (IH Hw).
  change ((String d w) ++ s) with (String d (w ++ s)).
  cbn [JS.indexOf String.length]. rewrite IH.
  destruct (Ascii.eqb d c) eqn:E; [apply Ascii.eqb_eq in E; congruence|].
  destruct (_ <? 0)%Z eqn:E'; lia.
Qed.

Lemma lastIndexOf_app_blank_l (w s : string) (c : ascii) :
  blank w = true -> JS.isWhiteSpace c = false ->
  (0 <= JS.lastIndexOf s c)%Z ->
  JS.lastIndexOf (w ++ s) c
  = (Z.of_nat (String.length w) + JS.lastIndexOf s c)%Z.
Proof.
  intros Hw Hc Hs. induction w as [|d w IH]; [cbn; lia|].
  cbn [blank] in Hw. apply andb_prop in Hw as [Hd Hw]. specialize (IH Hw).
  change ((String d w) ++ s) with (String d (w ++ s)).
  cbn [JS.lastIndexOf String.length]. rewrite IH.
  destruct (0 <=? _)%Z eqn:E'; lia.
Qed.

Lemma indexOf_blank_prefix_absent (w s : string) (c : ascii) :
  blank w = true -> JS.isWhiteSpace c = false ->
  (JS.indexOf s c < 0)%Z -> (JS.indexOf (w ++ s) c < 0)%Z.
Proof.
  intros Hw Hc Hs. induction w as [|d w IH]; [exact Hs|].
  cbn [blank] in Hw. apply andb_prop in Hw as [Hd Hw]. specialize (IH Hw).
  change ((String d w) ++ s) with (String d (w ++ s)).
  cbn [JS.indexOf].
  destruct (Ascii.eqb d c) eqn:E; [apply Ascii.eqb_eq in E; congruence|].
  destruct (_ <? 0)%Z eqn:E'; lia.
Qed.

Lemma lastIndexOf_blank_prefix_absent (w s : string) (c : ascii) :
  blank w = true -> JS.isWhiteSpace c = false ->
  (JS.lastIndexOf s c < 0)%Z -> (JS.lastIndexOf (w ++ s) c < 0)%Z.
Proof.
  intros Hw Hc Hs. induction w as [|d w IH]; [exact Hs|].
  cbn [blank] in Hw. apply andb_prop in Hw as [Hd Hw]. specialize (IH Hw).
  change ((String d w) ++ s) with (String d (w ++ s)).
  cbn [JS.lastIndexOf].
  destruct (0 <=? _)%Z eqn:E'; [lia|].
  destruct (Ascii.eqb d c) eqn:E; [apply Ascii.eqb_eq in E; congruence|lia].
Qed.

Lemma stdsub_app_left (t w : string) :
  forall n m, n + m <= String.length t ->
  String.substring n m (t ++ w) = String.substring n m t.
Proof.
  induction t as [|c t IH]; intros n m H.
  - cbn [String.length] in H. assert (n = 0) by lia. assert (m = 0) by lia.
    subst. cbn [append]. rewrite stdsub_zero_0, stdsub_nil. reflexivity.
  - change ((String c t) ++ w) with (String c (t ++ w)).
    cbn [String.length] in H. destruct n as [|n].
    + destruct m as [|m]; [reflexivity|]. cbn [String.substring].
      rewrite IH by lia. reflexivity.
    + cbn [String.substring]. apply IH. lia.
Qed.

Lemma substring_inside (w1 t w2 : string) (a b : nat) :
  a <= String.length t -> b <= String.length t ->
  JS.substring (w1 ++ t ++ w2) (String.length w1 + a) (String.length w1 + b)
  = JS.substring t a b.
Proof.
  intros Ha Hb. unfold JS.substring. rewrite !length_app.
  match goal with
  | |- String.substring ?n ?m _ = String.substring ?n' ?m' _ =>
      replace m with m' by lia;
      replace n with (String.length w1 + n') by lia
  end.
  rewrite stdsub_skip_app. apply stdsub_app_left. lia.
Qed.

(** X8.  The form parses [argsStr] of the raw input and the encoder that
    of the trimmed input; when the input has an opening and a closing
    parenthesis the two texts are the same, so the fields shown are those
    of the parameters that get encoded. *)
Theorem form_and_encoder_parse_the_same_text :
  forall (parseAbiParameters : string -> option (list AbiParameter))
         (input : string),
    (0 <= JS.indexOf input "(")%Z ->
    (0 <= JS.lastIndexOf input ")")%Z ->
    argsStrOf (JS.trim input) = argsStrOf input
    /\ onInputChange parseAbiParameters (JS.trim input)
       = onInputChange parseAbiParameters input.
Proof.
  intros parse input Hi Hj.
  assert (E : argsStrOf (JS.trim input) = argsStrOf input);
    [|split; [exact E|unfold onInputChange; rewrite E; reflexivity]].
  destruct (trim_split input) as [w1 [w2 [H1 [H2 E]]]].
  set (t := JS.trim input) in *.
  assert (Hi' : (0 <= JS.indexOf t "(")%Z).
  { destruct (Z.ltb_spec (JS.indexOf t "(") 0) as [L|L]; [|exact L].
    exfalso. rewrite E in Hi.
    pose proof (indexOf_blank_prefix_absent w1 (t ++ w2) "(" H1 eq_refl).
    rewrite (indexOf_app_blank_r t w2 "(" H2 eq_refl) in H. lia. }
  assert (Hj' : (0 <= JS.lastIndexOf t ")")%Z).
  { destruct (Z.ltb_spec (JS.lastIndexOf t ")") 0) as [L|L]; [|exact L].
    exfalso. rewrite E in Hj.
    pose proof (lastIndexOf_blank_prefix_absent w1 (t ++ w2) ")" H1 eq_refl).
    rewrite (lastIndexOf_app_blank_r t w2 ")" H2 eq_refl) in H. lia. }
  pose proof (indexOf_range t "(") as Ri.
  pose proof (lastIndexOf_range t ")") as Rj.
  unfold argsStrOf at 2. rewrite E.
  rewrite (indexOf_app_blank_l w1 (t ++ w2) "(" H1 eq_refl)
    by (rewrite indexOf_app_blank_r by auto; exact Hi').
  rewrite (lastIndexOf_app_blank_l w1 (t ++ w2) ")" H1 eq_refl)
    by (rewrite lastIndexOf_app_blank_r by auto; exact Hj').
  rewrite (indexOf_app_blank_r t w2 "(" H2 eq_refl).
  rewrite (lastIndexOf_app_blank_r t w2 ")" H2 eq_refl).
  unfold argsStrOf, JS.substringNum, JS.toIndex. rewrite !length_app.
  match goal with
  | |- JS.substring t ?a' ?b' = JS.substring _ ?a ?b =>
      replace a with (String.length w1 + a') by lia;
      replace b with (String.length w1 + b') by lia
  end.
  symmetry. apply substring_inside; lia.
Qed.

Lemma form_and_encoder_parse_the_same_text_witness :
  argsStrOf (JS.trim "  transfer(address to, uint256 amount) ")
  = argsStrOf "  transfer(address to, uint256 amount) "
  /\ onInputChange Example.parseTransfer
                   (JS.trim "  transfer(address to, uint256 amount) ")
     = onInputChange Example.parseTransfer
                     "  transfer(address to, uint256 amount) ".
Proof.
  apply form_and_encoder_parse_the_same_text; vm_compute; discriminate.
Defined.

(** ** The head of a breakdown *)

Lemma substring_join (s : string) (a b c : nat) :
  a <= b -> b <= c -> c <= String.length s ->
  JS.substring s a b ++ JS.substring s b c = JS.substring s a c.
Proof.
  intros Hab Hbc Hc.
  destruct (split_string s a ltac:(lia)) as [p [r [E1 L1]]].
  destruct (split_string r (b - a)) as [q [r' [E2 L2]]].
  { subst s. rewrite length_app in Hc. lia. }
  destruct (split_string r' (c - b)) as [u [v [E3 L3]]].
  { subst s r. rewrite !length_app in Hc. lia. }
  subst s r r'.
  assert (Eq : JS.substring (p ++ q ++ u ++ v) a b = q).
  { replace a with (String.length p) by lia.
    replace b with (String.length p + String.length q) by lia.
    apply substring_middle. }
  assert (Eu : JS.substring (p ++ q ++ u ++ v) b c = u).
  { replace (p ++ q ++ u ++ v) with ((p ++ q) ++ u ++ v)
      by (rewrite !app_assoc_s; reflexivity).
    replace b with (String.length (p ++ q)) by (rewrite length_app; lia).
    replace c with (String.length (p ++ q) + String.length u)
      by (rewrite length_app; lia).
    apply substring_middle. }
  assert (Equ : JS.substring (p ++ q ++ u ++ v) a c = q ++ u).
  { replace (p ++ q ++ u ++ v) with (p ++ (q ++ u) ++ v)
      by (rewrite !app_assoc_s; reflexivity).
    replace a with (String.length p) by lia.
    replace c with (String.length p + String.length (q ++ u))
      by (rewrite length_app; lia).
    apply substring_middle. }
  rewrite Eq, Eu, Equ. reflexivity.
Qed.

Lemma stdsub_none (s : string) : forall n, String.substring n 0 s = "".
Proof.
  induction s as [|c s IH]; intros [|n]; cbn [String.substring];
    try reflexivity. apply IH.
Qed.

Lemma substring_same (s : string) (a : nat) : JS.substring s a a = "".
Proof.
  unfold JS.substring. rewrite Nat.min_id, Nat.max_id, Nat.sub_diag.
  apply stdsub_none.
Qed.

Lemma length_substring_inside (s : string) (a b : nat) :
  a <= b -> b <= String.length s ->
  String.length (JS.substring s a b) = b - a.
Proof.
  intros Hab Hb. unfold JS.substring. rewrite length_stdsub. lia.
Qed.

Lemma firstPass_tiles nested parseDyn (hex : string)
      (params : list AbiParameter) :
  forall i c,
    c + headChars params <= String.length hex ->
    shownDigits (fst (firstPass nested parseDyn hex params i c))
    = JS.substring hex c (c + headChars params).
Proof.
  induction params as [|p rest IH]; intros i c H.
  - cbn [firstPass fst shownDigits headChars]. rewrite Nat.add_0_r.
    symmetry. apply substring_same.
  - cbn [headChars] in H. cbn [firstPass headChars].
    destruct (isDynamic p).
    + specialize (IH (S i) (c + 64) ltac:(lia)).
      destruct (firstPass nested parseDyn hex rest (S i) (c + 64))
        as [hs ds]. cbn [fst shownDigits value] in *.
      change (JS.strip0x ("0x" ++ JS.substring hex c (c + 64)))
        with (JS.substring hex c (c + 64)).
      rewrite IH. rewrite <- Nat.add_assoc.
      apply substring_join; lia.
    + destruct (pcomponents p) as [cs|]; [destruct (ptype p =? "tuple")|].
      * specialize (IH (S i) (c + List.length cs * 64) ltac:(lia)).
        destruct (firstPass nested parseDyn hex rest (S i)
                            (c + List.length cs * 64)) as [hs ds].
        cbn [fst shownDigits value] in *.
        change (JS.strip0x
                  ("0x" ++ JS.substring hex c (c + List.length cs * 64)))
          with (JS.substring hex c (c + List.length cs * 64)).
        rewrite IH. rewrite <- Nat.add_assoc.
        apply substring_join; lia.
      * specialize (IH (S i) (c + 64) ltac:(lia)).
        destruct (firstPass nested parseDyn hex rest (S i) (c + 64))
          as [hs ds]. cbn [fst shownDigits value] in *.
        rewrite padTo32Bytes_full
          by (rewrite length_substring_inside; lia).
        change (JS.strip0x ("0x" ++ JS.substring hex c (c + 64)))
          with (JS.substring hex c (c + 64)).
        rewrite IH. rewrite <- Nat.add_assoc.
        apply substring_join; lia.
      * specialize (IH (S i) (c + 64) ltac:(lia)).
        destruct (firstPass nested parseDyn hex rest (S i) (c + 64))
          as [hs ds]. cbn [fst shownDigits value] in *.
        rewrite padTo32Bytes_full
          by (rewrite length_substring_inside; lia).
        change (JS.strip0x ("0x" ++ JS.substring hex c (c + 64)))
          with (JS.substring hex c (c + 64)).
        rewrite IH. rewrite <- Nat.add_assoc.
        apply substring_join; lia.
Qed.

Lemma head_tiles (params : list AbiParameter) (hex : string) :
  headChars params <= String.length hex ->
  shownDigits (headParts (buildFlatBreakdown params hex))
  = JS.substring hex 0 (headChars params).
Proof.
  intros H. rewrite headParts_firstPass.
  apply (firstPass_tiles nestedBreakdown parseDynamicData hex params 0 0).
  exact H.
Qed.

(** X9.  On any data that is long enough to hold the head, the values of
    the head parts, read in order without their ['0x'], are exactly the
    head region of the data: the head parts tile it with no gap, no
    overlap and no padding added, a static struct taking 64 digits per
    field. *)
Theorem head_parts_tile_the_head :
  forall (params : list AbiParameter) (encodedDataHex : string),
    headChars params <= String.length encodedDataHex ->
    shownDigits (headParts (buildFlatBreakdown params encodedDataHex))
    = JS.substring encodedDataHex 0 (headChars params).
Proof.
  intros params hex H. apply head_tiles, H.
Qed.

Lemma head_parts_tile_the_head_witness :
  shownDigits
    (headParts (buildFlatBreakdown Example.swappedParams Example.swappedData))
  = JS.substring Example.swappedData 0 (headChars Example.swappedParams).
Proof.
  apply head_parts_tile_the_head. apply Nat.leb_le. vm_compute. reflexivity.
Defined.

(** ** The fallback of [parseDynamicData] *)

Lemma clean_leaf n t v d :
  d <> Some RawDynamicData -> clean (mkPart n t v d None).
Proof.
  intros H. unfold clean. cbn [hasRawData description components].
  rewrite orb_false_r. destruct d as [[]|]; try reflexivity. congruence.
Qed.

Lemma clean_node n t v d cs :
  d <> Some RawDynamicData -> Forall clean cs ->
  clean (mkPart n t v d (Some cs)).
Proof.
  intros H Hcs. unfold clean. cbn [hasRawData description components].
  apply orb_false_intro.
  - destruct d as [[]|]; try reflexivity. congruence.
  - induction Hcs as [|c cs Hc _ IH]; [reflexivity|].
    cbn [existsb]. rewrite Hc, IH. reflexivity.
Qed.

Lemma arrayItems_clean (ty items : string) (n : nat) :
  forall i c, Forall clean (arrayItems ty items n i c).
Proof.
  induction n as [|n IH]; intros i c; cbn [arrayItems]; constructor.
  - apply clean_leaf. discriminate.
  - apply IH.
Qed.

Section CleanPasses.
Variable nested : AbiParameter -> string -> Breakdown.
Variable parseDyn : AbiParameter -> string -> list CalldataPart.
Variable hex : string.

Lemma firstPass_clean (params : list AbiParameter) :
  Forall (cleanOn nested parseDyn) params ->
  forall i c,
    Forall clean (fst (firstPass nested parseDyn hex params i c))
    /\ Forall (fun pd : Pending => forall d, Forall clean (snd pd d))
              (snd (firstPass nested parseDyn hex params i c)).
Proof.
  induction 1 as [|p rest [Hd Hn] _ IH]; intros i c.
  - split; constructor.
  - cbn [firstPass]. destruct (isDynamic p) eqn:Dy.
    + destruct (IH (S i) (c + 64)) as [H1 H2].
      destruct (firstPass nested parseDyn hex rest (S i) (c + 64))
        as [hs ds]. cbn [fst snd] in *. split; constructor; auto.
      * apply clean_leaf. discriminate.
      * cbn [snd]. intros d. apply Hd. reflexivity.
    + destruct (pcomponents p) as [cs|]; [destruct (ptype p =? "tuple")|].
      * destruct (IH (S i) (c + List.length cs * 64)) as [H1 H2].
        destruct (firstPass nested parseDyn hex rest (S i)
                            (c + List.length cs * 64)) as [hs ds].
        cbn [fst snd] in *. split; [constructor; auto|exact H2].
        apply clean_node; [discriminate|apply Hn].
      * destruct (IH (S i) (c + 64)) as [H1 H2].
        destruct (firstPass nested parseDyn hex rest (S i) (c + 64))
          as [hs ds]. cbn [fst snd] in *. split; [constructor; auto|exact H2].
        apply clean_leaf. discriminate.
      * destruct (IH (S i) (c + 64)) as [H1 H2].
        destruct (firstPass nested parseDyn hex rest (S i) (c + 64))
          as [hs ds]. cbn [fst snd] in *. split; [constructor; auto|exact H2].
        apply clean_leaf. discriminate.
Qed.

Lemma tailPass_clean (pend : list Pending) :
  Forall (fun pd : Pending => forall d, Forall clean (snd pd d)) pend ->
  Forall clean (tailPass hex pend).
Proof.
  induction 1 as [|[it f] rest Hf _ IH]; [constructor|].
  cbn [tailPass]. constructor; [|exact IH].
  apply clean_node; [discriminate|]. apply Hf.
Qed.

Lemma buildWith_clean (params : list AbiParameter) :
  Forall (cleanOn nested parseDyn) params ->
  Forall clean (headParts (buildWith nested parseDyn hex params)
                  ++ tailParts (buildWith nested parseDyn hex params)).
Proof.
  intros H. unfold buildWith.
  destruct (firstPass_clean params H 0 0) as [H1 H2].
  destruct (firstPass nested parseDyn hex params 0 0) as [hs ds].
  cbn [fst snd headParts tailParts] in *.
  apply Forall_app. split; [exact H1|].
  apply tailPass_clean.
  apply (Permutation_Forall (sort_perm compareOffsets ds)). exact H2.
Qed.
End CleanPasses.

Lemma every_parameter_is_clean (p : AbiParameter) :
  cleanOn nestedBreakdown parseDynamicData p.
Proof.
  induction p as [ty nm cs IH] using AbiParameter_nested_ind.
  split.
  - intros d Dy.
    destruct (JS.endsWith ty "[]") eqn:Ea.
    + rewrite parseDynamicData_array by exact Ea.
      constructor; [apply clean_leaf; discriminate|apply arrayItems_clean].
    + destruct ((ty =? "string") || (ty =? "bytes")) eqn:Eb.
      * rewrite parseDynamicData_blob by assumption. cbv zeta.
        constructor; [apply clean_leaf; discriminate|].
        constructor; [apply clean_leaf; discriminate|constructor].
      * cbn [isDynamic ptype pcomponents] in Dy.
        apply orb_false_elim in Eb as [Es Eb].
        rewrite Ea, Es, Eb in Dy. cbn [orb] in Dy.
        destruct cs as [l|]; [|discriminate].
        rewrite (parseDynamicData_tuple (mkParam ty nm (Some l)) d l);
          [|exact Ea|cbn [ptype]; rewrite Es, Eb; reflexivity|reflexivity].
        apply buildWith_clean. apply IH. reflexivity.
  - intros d. rewrite nestedBreakdown_eq. cbn [pcomponents].
    destruct cs as [l|]; [|constructor].
    apply buildWith_clean. apply IH. reflexivity.
Qed.

(** X10.  The 'Raw dynamic data' fallback of [parseDynamicData] is never
    taken from [encodeFunctionCall]: no part of a result, at any depth,
    is that fallback part, whatever the signature, the values and the
    library functions.  (A parameter is only handed to
    [parseDynamicData] when [isDynamic] holds, and then it is an array,
    a string, bytes, or has components.) *)
Theorem raw_data_fallback_is_never_shown :
  forall keccakDigits parseAbiParameters encodeAbiParametersDigits
         (input : string) (argValues : list Value) (r : EncodeResult),
    encodeFunctionCall keccakDigits parseAbiParameters
                       encodeAbiParametersDigits input argValues = Ok r ->
    existsb hasRawData (parts r) = false.
Proof.
  intros k pa en input vals r H.
  assert (F : Forall clean (parts r)).
  { unfold encodeFunctionCall in H.
    destruct (funcNameMatch (JS.trim input)); [|discriminate].
    destruct (pa (argsStrOf (JS.trim input))) as [ps|]; [|discriminate].
    destruct (encodeAbiParameters en ps vals) as [encoded|]; [|discriminate].
    apply (f_equal (fun x => match x with Ok a => parts a | Throw _ => [] end))
      in H. cbn [parts] in H. rewrite <- H.
    constructor; [apply clean_leaf; discriminate|].
    apply buildWith_clean. apply Forall_forall. intros p _.
    apply every_parameter_is_clean. }
  induction F as [|c cs Hc _ IH]; [reflexivity|].
  cbn [existsb]. rewrite Hc, IH. reflexivity.
Qed.

Lemma raw_data_fallback_is_never_shown_witness :
  exists r,
    encodeFunctionCall Example.digest (Example.parseAs Example.swappedParams)
                       (fun _ _ => Some Example.swappedData)
                       "f(string a, string b)"
                       [VString "hi"; VString "abc"] = Ok r
    /\ existsb hasRawData (parts r) = false.
Proof.
  destruct (encodeFunctionCall
              Example.digest (Example.parseAs Example.swappedParams)
              (fun _ _ => Some Example.swappedData)
              "f(string a, string b)" [VString "hi"; VString "abc"])
    as [r|e] eqn:E; [|vm_compute in E; discriminate E].
  exists r. split; [reflexivity|].
  exact (raw_data_fallback_is_never_shown _ _ _ _ _ r E).
Defined.

(** ** The contents of a dynamic item *)

Lemma pad_to_words (n : nat) :
  JS.ceilDiv n 64 * 64 - n < 64 /\
  (n + (JS.ceilDiv n 64 * 64 - n)) mod 64 = 0.
Proof.
  pose proof (ceil_pad n) as H.
  replace (n + (JS.ceilDiv n 64 * 64 - n)) with (JS.ceilDiv n 64 * 64) by lia.
  split; [|apply Nat.Div0.mod_mul].
  unfold JS.ceilDiv in *. cbn [Nat.sub] in *.
  pose proof (Nat.div_mod_eq (n + 63) 64) as E.
  pose proof (Nat.mod_upper_bound (n + 63) 64) as B.
  lia.
Qed.

Lemma blob_type_is_no_array (ty : string) :
  (ty =? "string") || (ty =? "bytes") = true -> JS.endsWith ty "[]" = false.
Proof.
  intros H. apply orb_prop in H as [H|H]; apply String.eqb_eq in H; subst ty;
    reflexivity.
Qed.

(** X11.  For a [string] or [bytes] item the window is cut into the
    length word and one 'value' part, on any window: the data are the
    digits from position 64 up to 64 plus twice the length read, as far
    as the window goes, and the value shown is these data followed by
    fewer than 64 zeros that bring it to a whole number of 32-byte
    words.  The zeros are produced, not read from the window. *)
Theorem blob_value_is_data_padded_to_words :
  forall (p : AbiParameter) (dataHex : string),
    (ptype p =? "string") || (ptype p =? "bytes") = true ->
    let length := JS.parseInt16 (JS.substring dataHex 0 64) in
    let data :=
      JS.substringNum dataHex (JS.Int 64)
                      (JS.add (JS.Int 64) (JS.timesTwo length)) in
    exists k,
      k < 64
      /\ (String.length data + k) mod 64 = 0
      /\ parseDynamicData p dataHex
         = [ mkPart "length" "uint256" ("0x" ++ JS.substring dataHex 0 64)
                    (Some (NumberText length)) None;
             mkPart "value" (if ptype p =? "string" then "utf8" else "hex")
                    ("0x" ++ data ++ JS.zeros k)
                    (Some (OriginalData data)) None ].
Proof.
  intros p dataHex Hb length data.
  destruct (pad_to_words (String.length data)) as [Hk Hm].
  exists (JS.ceilDiv (String.length data) 64 * 64 - String.length data).
  split; [exact Hk|]. split; [exact Hm|].
  rewrite (parseDynamicData_blob p dataHex (blob_type_is_no_array _ Hb) Hb).
  reflexivity.
Qed.

Lemma blob_value_is_data_padded_to_words_witness :
  exists k,
    k < 64
    /\ (String.length
          (JS.substringNum
             (Abi.word 2 ++ "6869") (JS.Int 64)
             (JS.add (JS.Int 64)
                     (JS.timesTwo
                        (JS.parseInt16
                           (JS.substring (Abi.word 2 ++ "6869") 0 64)))))
        + k) mod 64 = 0
    /\ parseDynamicData (Example.text (Some "note")) (Abi.word 2 ++ "6869")
       = [ mkPart "length" "uint256"
                  ("0x" ++ JS.substring (Abi.word 2 ++ "6869") 0 64)
                  (Some (NumberText
                           (JS.parseInt16
                              (JS.substring (Abi.word 2 ++ "6869") 0 64))))
                  None;
           mkPart "value" "utf8"
                  ("0x" ++
                   JS.substringNum
                     (Abi.word 2 ++ "6869") (JS.Int 64)
                     (JS.add (JS.Int 64)
                             (JS.timesTwo
                                (JS.parseInt16
                                   (JS.substring (Abi.word 2 ++ "6869") 0 64))))
                   ++ JS.zeros k)
                  (Some (OriginalData
                           (JS.substringNum
                              (Abi.word 2 ++ "6869") (JS.Int 64)
                              (JS.add (JS.Int 64)
                                 (JS.timesTwo
                                    (JS.parseInt16
                                       (JS.substring (Abi.word 2 ++ "6869")
                                                     0 64)))))))
                  None ].
Proof.
  apply (blob_value_is_data_padded_to_words
           (Example.text (Some "note")) (Abi.word 2 ++ "6869")).
  reflexivity.
Defined.

Lemma length_substringFrom (s : string) (a : nat) :
  String.length (JS.substringFrom s a) = String.length s - a.
Proof.
  unfold JS.substringFrom, JS.substring. rewrite length_stdsub. lia.
Qed.

Lemma nth_error_map_seq {A : Type} (f : nat -> A) (n i : nat) :
  i < n -> nth_error (map f (seq 0 n)) i = Some (f i).
Proof.
  intros H. rewrite nth_error_map, nth_error_seq.
  destruct (Nat.ltb_spec i n); [reflexivity|lia].
Qed.

(** X12.  The element count of an array is trusted: when the length
    word announces more elements than the window holds (and no more
    than the window has digits, so that the parts can be held as the
    window is), an element that lies wholly beyond the window is still
    shown, with the padding of the empty string as its value (64 zeros
    for an integer or address element); nothing is reported. *)
Theorem elements_beyond_the_window_are_blank :
  forall (p : AbiParameter) (dataHex : string) (i : nat),
    JS.endsWith (ptype p) "[]" = true ->
    i < JS.loopCount (JS.parseInt16 (JS.substring dataHex 0 64)) ->
    JS.loopCount (JS.parseInt16 (JS.substring dataHex 0 64))
    <= String.length dataHex ->
    String.length dataHex <= 64 + 64 * i ->
    nth_error (parseDynamicData p dataHex) (S i)
    = Some (mkPart ("[" ++ JS.ofIndex i ++ "]") (JS.dropLast2 (ptype p))
                   ("0x" ++ padTo32Bytes "" (JS.dropLast2 (ptype p)))
                   None None).
Proof.
  intros p dataHex i Ha Hi _ Hlen.
  rewrite (parseDynamicData_array p dataHex Ha). cbn [nth_error].
  change 0 with (64 * 0) at 3.
  rewrite (arrayItems_map _ _ _ 0).
  rewrite (nth_error_map_seq _ _ i Hi). unfold elementPart.
  rewrite substring_empty;
    [reflexivity|rewrite length_substringFrom; lia..].
Qed.

Lemma elements_beyond_the_window_are_blank_witness :
  nth_error (parseDynamicData (mkParam "uint256[]" (Some "amounts") None)
                              (Abi.word 3 ++ Abi.word 7))
            (S 2)
  = Some (mkPart ("[" ++ JS.ofIndex 2 ++ "]") (JS.dropLast2 "uint256[]")
                 ("0x" ++ padTo32Bytes "" (JS.dropLast2 "uint256[]"))
                 None None).
Proof.
  apply (elements_beyond_the_window_are_blank
           (mkParam "uint256[]" (Some "amounts") None)
           (Abi.word 3 ++ Abi.word 7) 2).
  - reflexivity.
  - vm_compute. lia.
  - vm_compute. lia.
  - vm_compute. lia.
Defined.

(** ** Names in a breakdown *)

Lemma isDynamic_eraseNames (p : AbiParameter) :
  isDynamic (eraseNames p) = isDynamic p.
Proof.
  induction p as [ty nm cs IH] using AbiParameter_nested_ind.
  destruct cs as [l|]; [|reflexivity].
  specialize (IH l eq_refl).
  cbn [eraseNames isDynamic ptype pcomponents option_map].
  destruct (JS.endsWith ty "[]" || (ty =? "string") || (ty =? "bytes"));
    [reflexivity|].
  induction IH as [|x xs Hx _ IHxs]; [reflexivity|].
  cbn [map existsb]. rewrite Hx, IHxs. reflexivity.
Qed.

Lemma eraseNames_idem (p : AbiParameter) :
  eraseNames (eraseNames p) = eraseNames p.
Proof.
  induction p as [ty nm cs IH] using AbiParameter_nested_ind.
  destruct cs as [l|]; [|reflexivity].
  specialize (IH l eq_refl).
  cbn [eraseNames ptype pcomponents option_map]. f_equal. f_equal.
  induction IH as [|x xs Hx _ IHxs]; [reflexivity|].
  cbn [map]. rewrite Hx, IHxs. reflexivity.
Qed.

Lemma ptype_eraseNames (p : AbiParameter) : ptype (eraseNames p) = ptype p.
Proof. destruct p; reflexivity. Qed.

Lemma pcomponents_eraseNames (p : AbiParameter) :
  pcomponents (eraseNames p) = option_map (map eraseNames) (pcomponents p).
Proof. destruct p; reflexivity. Qed.

Section NamesInPasses.
Variable hex : string.

Lemma firstPass_unlabel (params : list AbiParameter) :
  Forall labelFree params ->
  forall i j c,
    map unlabel (fst (firstPass nestedBreakdown parseDynamicData hex
                                (map eraseNames params) i c))
    = map unlabel (fst (firstPass nestedBreakdown parseDynamicData hex
                                  params j c))
    /\ Forall2 sameData
               (map fst (snd (firstPass nestedBreakdown parseDynamicData hex
                                        (map eraseNames params) i c)))
               (map fst (snd (firstPass nestedBreakdown parseDynamicData hex
                                        params j c)))
    /\ Forall (fun it => labelFree (param it))
              (map fst (snd (firstPass nestedBreakdown parseDynamicData hex
                                       params j c))).
Proof.
  induction 1 as [|p rest [Hd Hn] _ IH]; intros i j c.
  - cbn. repeat split; constructor.
  - cbn [map firstPass].
    rewrite (isDynamic_eraseNames p), (ptype_eraseNames p),
      (pcomponents_eraseNames p).
    destruct (isDynamic p) eqn:Dy.
    + destruct (IH (S i) (S j) (c + 64)) as (H1 & H2 & H3).
      destruct (firstPass nestedBreakdown parseDynamicData hex
                          (map eraseNames rest) (S i) (c + 64)) as [hs' ds'].
      destruct (firstPass nestedBreakdown parseDynamicData hex
                          rest (S j) (c + 64)) as [hs ds].
      cbn [fst snd map unlabel type value description components
           option_map] in *.
      split; [rewrite H1; reflexivity|].
      split; constructor; auto.
      * split; [cbn [param]; apply eraseNames_idem|reflexivity].
      * cbn [param]. split; assumption.
    + destruct (pcomponents p) as [cs|] eqn:Ec; cbn [option_map];
        [destruct (ptype p =? "tuple")|].
      * rewrite length_map.
        destruct (IH (S i) (S j) (c + List.length cs * 64)) as (H1 & H2 & H3).
        destruct (firstPass nestedBreakdown parseDynamicData hex
                            (map eraseNames rest) (S i)
                            (c + List.length cs * 64)) as [hs' ds'].
        destruct (firstPass nestedBreakdown parseDynamicData hex
                            rest (S j) (c + List.length cs * 64)) as [hs ds].
        cbn [fst snd map unlabel type value description components
             option_map] in *.
        split; [|split; assumption].
        rewrite H1, Hn. reflexivity.
      * destruct (IH (S i) (S j) (c + 64)) as (H1 & H2 & H3).
        destruct (firstPass nestedBreakdown parseDynamicData hex
                            (map eraseNames rest) (S i) (c + 64)) as [hs' ds'].
        destruct (firstPass nestedBreakdown parseDynamicData hex
                            rest (S j) (c + 64)) as [hs ds].
        cbn [fst snd map unlabel type value description components
             option_map] in *.
        split; [rewrite H1; reflexivity|split; assumption].
      * destruct (IH (S i) (S j) (c + 64)) as (H1 & H2 & H3).
        destruct (firstPass nestedBreakdown parseDynamicData hex
                            (map eraseNames rest) (S i) (c + 64)) as [hs' ds'].
        destruct (firstPass nestedBreakdown parseDynamicData hex
                            rest (S j) (c + 64)) as [hs ds].
        cbn [fst snd map unlabel type value description components
             option_map] in *.
        split; [rewrite H1; reflexivity|split; assumption].
Qed.

Lemma insert_sameData (x x' : DynamicItem) (l l' : list DynamicItem) :
  sameData x x' -> Forall2 sameData l l' ->
  Forall2 sameData (JS.insert compareItems x l) (JS.insert compareItems x' l').
Proof.
  intros Hx H. induction H as [|y y' l l' Hy Hl IH].
  - constructor; [exact Hx|constructor].
  - cbn [JS.insert]. unfold compareItems.
    destruct Hx as [Hp Ho]. destruct Hy as [Hq Hr]. rewrite Ho, Hr.
    destruct (JS.positive (JS.sub (offset x') (offset y'))).
    + constructor; [split; assumption|exact IH].
    + constructor; [split; assumption|].
      constructor; [split; assumption|assumption].
Qed.

Lemma sort_sameData (l l' : list DynamicItem) :
  Forall2 sameData l l' ->
  Forall2 sameData (JS.sort compareItems l) (JS.sort compareItems l').
Proof.
  induction 1 as [|x x' l l' Hx _ IH]; [constructor|].
  cbn [JS.sort fold_right]. apply insert_sameData; assumption.
Qed.

Lemma labelFree_same (p q : AbiParameter) (d : string) :
  eraseNames p = eraseNames q -> labelFree p -> labelFree q ->
  map unlabel (parseDynamicData p d) = map unlabel (parseDynamicData q d).
Proof.
  intros E [Hp _] [Hq _]. rewrite <- (Hp d), <- (Hq d), E. reflexivity.
Qed.

Lemma tailPartsOf_unlabel (l l' : list DynamicItem) :
  Forall2 sameData l l' ->
  Forall (fun it => labelFree (param it)) l ->
  Forall (fun it => labelFree (param it)) l' ->
  map unlabel (tailPartsOf hex l) = map unlabel (tailPartsOf hex l').
Proof.
  induction 1 as [|x x' l l' [Hp Ho] Hl IH]; intros F F'; [reflexivity|].
  inversion F as [|? ? Fx Fl]; subst. inversion F' as [|? ? Fx' Fl']; subst.
  cbn [tailPartsOf map unlabel type value description components option_map].
  rewrite (IH Fl Fl').
  assert (W : itemWindow hex x (hd_error l) = itemWindow hex x' (hd_error l')).
  { unfold itemWindow, windowBounds. rewrite Ho.
    destruct Hl as [|y y' ? ? [_ Hy] _]; [reflexivity|].
    cbn [hd_error]. rewrite Hy. reflexivity. }
  rewrite W, Ho.
  rewrite (labelFree_same (param x) (param x') _ Hp Fx Fx').
  rewrite <- (ptype_eraseNames (param x)), Hp, ptype_eraseNames.
  reflexivity.
Qed.
End NamesInPasses.

Lemma labelFree_eraseNames (p : AbiParameter) :
  labelFree p -> labelFree (eraseNames p).
Proof.
  intros _. split; intros d; rewrite eraseNames_idem; reflexivity.
Qed.

Lemma buildFlatBreakdown_unlabel (params : list AbiParameter) (hex : string) :
  Forall labelFree params ->
  map unlabel (headParts (buildFlatBreakdown (map eraseNames params) hex))
  = map unlabel (headParts (buildFlatBreakdown params hex))
  /\ map unlabel (tailParts (buildFlatBreakdown (map eraseNames params) hex))
     = map unlabel (tailParts (buildFlatBreakdown params hex)).
Proof.
  intros F.
  destruct (firstPass_unlabel hex params F 0 0 0) as (H1 & H2 & H3).
  split; [rewrite !headParts_firstPass; exact H1|].
  rewrite !tailParts_sorted. unfold sortedItems, recordedItems.
  assert (F' : Forall labelFree (map eraseNames params)).
  { apply Forall_map. eapply Forall_impl; [|exact F].
    intros a Ha. apply labelFree_eraseNames, Ha. }
  destruct (firstPass_unlabel hex (map eraseNames params) F' 0 0 0)
    as (_ & _ & H3').
  apply tailPartsOf_unlabel.
  - apply sort_sameData. exact H2.
  - apply (Permutation_Forall (sort_perm compareItems _)). exact H3'.
  - apply (Permutation_Forall (sort_perm compareItems _)). exact H3.
Qed.

Lemma every_parameter_is_labelFree (p : AbiParameter) : labelFree p.
Proof.
  induction p as [ty nm cs IH] using AbiParameter_nested_ind.
  assert (B : forall l d, cs = Some l ->
            map unlabel
                (headParts (buildFlatBreakdown (map eraseNames l) d)
                   ++ tailParts (buildFlatBreakdown (map eraseNames l) d))
            = map unlabel
                  (headParts (buildFlatBreakdown l d)
                     ++ tailParts (buildFlatBreakdown l d))).
  { intros l d E. destruct (buildFlatBreakdown_unlabel l d (IH l E)) as [A C].
    rewrite !map_app, A, C. reflexivity. }
  split; intros d.
  - destruct (JS.endsWith ty "[]") eqn:Ea.
    + rewrite !parseDynamicData_array by exact Ea. reflexivity.
    + destruct ((ty =? "string") || (ty =? "bytes")) eqn:Eb.
      * rewrite !parseDynamicData_blob by assumption. reflexivity.
      * destruct cs as [l|]; [|reflexivity].
        rewrite (parseDynamicData_tuple (mkParam ty nm (Some l)) d l);
          [|assumption|assumption|reflexivity].
        rewrite (parseDynamicData_tuple
                   (eraseNames (mkParam ty nm (Some l))) d
                   (map eraseNames l));
          [|assumption|assumption|reflexivity].
        apply B. reflexivity.
  - rewrite !nestedBreakdown_eq.
    destruct cs as [l|]; [|reflexivity].
    cbn [eraseNames pcomponents ptype option_map]. apply B. reflexivity.
Qed.

(** X13.  Parameter and field names only label a breakdown: two
    parameter lists that agree up to names give, on the same data, head
    parts and tail parts that are equal once every part name is blanked,
    at every depth; types, values, descriptions, order and nesting do
    not depend on the names. *)
Theorem names_only_label_the_breakdown :
  forall (params1 params2 : list AbiParameter) (encodedDataHex : string),
    map eraseNames params1 = map eraseNames params2 ->
    map unlabel (headParts (buildFlatBreakdown params1 encodedDataHex))
    = map unlabel (headParts (buildFlatBreakdown params2 encodedDataHex))
    /\ map unlabel (tailParts (buildFlatBreakdown params1 encodedDataHex))
       = map unlabel (tailParts (buildFlatBreakdown params2 encodedDataHex)).
Proof.
  intros ps1 ps2 hex E.
  assert (F : forall ps, Forall labelFree ps).
  { intros ps. apply Forall_forall. intros p _.
    apply every_parameter_is_labelFree. }
  destruct (buildFlatBreakdown_unlabel ps1 hex (F ps1)) as [A1 B1].
  destruct (buildFlatBreakdown_unlabel ps2 hex (F ps2)) as [A2 B2].
  rewrite <- A1, <- B1, <- A2, <- B2, E. split; reflexivity.
Qed.

Lemma names_only_label_the_breakdown_witness :
  map unlabel
      (headParts (buildFlatBreakdown
                    [Example.text (Some "a"); Example.text (Some "b")]
                    Example.swappedData))
  = map unlabel
        (headParts (buildFlatBreakdown
                      [Example.text None; Example.text (Some "note")]
                      Example.swappedData))
  /\ map unlabel
         (tailParts (buildFlatBreakdown
                       [Example.text (Some "a"); Example.text (Some "b")]
                       Example.swappedData))
     = map unlabel
           (tailParts (buildFlatBreakdown
                         [Example.text None; Example.text (Some "note")]
                         Example.swappedData)).
Proof.
  apply names_only_label_the_breakdown. reflexivity.
Defined.

(** ** Order of the tail parts *)

(** X14.  The sort is stable and moves nothing that is in order: when
    the offsets recorded in the head are numbers that never decrease
    from one dynamic parameter to the next (equal offsets included), the
    tail parts come in parameter order, each cut at the offset of the
    next dynamic parameter. *)
Theorem ascending_offsets_keep_parameter_order :
  forall (params : list AbiParameter) (encodedDataHex : string),
    Forall isNumber (recordedItems params encodedDataHex) ->
    Sorted itemLe (recordedItems params encodedDataHex) ->
    sortedItems params encodedDataHex = recordedItems params encodedDataHex
    /\ tailParts (buildFlatBreakdown params encodedDataHex)
       = tailPartsOf encodedDataHex (recordedItems params encodedDataHex).
Proof.
  intros params hex Hn Hs.
  assert (E : sortedItems params hex = recordedItems params hex)
    by (apply sort_id; assumption).
  split; [exact E|]. rewrite tailParts_sorted, E. reflexivity.
Qed.

Lemma ascending_offsets_keep_parameter_order_witness :
  sortedItems Example.swappedParams Sample.orderedData
  = recordedItems Example.swappedParams Sample.orderedData
  /\ tailParts (buildFlatBreakdown Example.swappedParams Sample.orderedData)
     = tailPartsOf Sample.orderedData
                   (recordedItems Example.swappedParams Sample.orderedData).
Proof.
  assert (R : recordedItems Example.swappedParams Sample.orderedData
              = [ mkItem (Example.text (Some "a")) "a" (JS.Int 64);
                  mkItem (Example.text (Some "b")) "b" (JS.Int 128) ])
    by (vm_compute; reflexivity).
  apply ascending_offsets_keep_parameter_order; rewrite R.
  - repeat constructor; discriminate.
  - repeat constructor. unfold itemLe, JS.le. cbn. lia.
Defined.

(** ** Signatures without dynamic parameters *)

Lemma no_dynamic_filter (ps : list AbiParameter) :
  Forall (fun p => isDynamic p = false) ps -> filter isDynamic ps = [].
Proof.
  induction 1 as [|p ps Hp _ IH]; [reflexivity|].
  cbn [filter]. rewrite Hp. exact IH.
Qed.

Lemma substring_whole (s : string) : JS.substring s 0 (String.length s) = s.
Proof.
  pose proof (substring_prefix s "") as H. rewrite app_empty_r in H. exact H.
Qed.

(** X15.  For a signature without dynamic parameters whose encoding has
    the length of the head, the result has the selector part followed by
    one part per parameter and no tail part, and the calldata is the
    selector followed by the values of these parts, in order, without
    their ['0x']: the parts show every digit of the calldata once.  This
    holds for whatever [encodeAbiParameters] returns at that length. *)
Theorem static_call_parts_spell_the_calldata :
  forall keccakDigits parseAbiParameters encodeAbiParametersDigits
         (input : string) (argValues : list Value) (r : EncodeResult)
         (abiParams : list AbiParameter) (digits : string),
    encodeFunctionCall keccakDigits parseAbiParameters
                       encodeAbiParametersDigits input argValues = Ok r ->
    parseAbiParameters (argsStrOf (JS.trim input)) = Some abiParams ->
    encodeAbiParametersDigits abiParams argValues = Some digits ->
    Forall (fun p => isDynamic p = false) abiParams ->
    String.length digits = headChars abiParams ->
    exists selector rest,
      parts r = selector :: rest
      /\ List.length rest = List.length abiParams
      /\ calldata r = value selector ++ shownDigits rest.
Proof.
  intros k pa en input vals r ps digits H Hp He Hs Hl.
  unfold encodeFunctionCall in H.
  destruct (funcNameMatch (JS.trim input)) as [name|]; [|discriminate].
  rewrite Hp in H. unfold encodeAbiParameters in H. rewrite He in H.
  cbn [option_map] in H.
  change (JS.substringFrom ("0x" ++ digits) 2) with
    (JS.substringFrom ("0x" ++ digits) (String.length "0x")) in H.
  rewrite substringFrom_app in H.
  apply (f_equal (fun x => match x with Ok a => a | Throw _ => r end)) in H.
  subst r. cbn [parts calldata].
  pose proof (buildWith_lengths nestedBreakdown parseDynamicData digits ps)
    as [L1 L2].
  fold (buildFlatBreakdown ps digits) in L1, L2.
  rewrite (no_dynamic_filter ps Hs) in L2.
  destruct (tailParts (buildFlatBreakdown ps digits)) as [|t ts] eqn:Et;
    [|discriminate L2].
  eexists. eexists. split; [reflexivity|].
  rewrite app_nil_r. split; [exact L1|]. cbn [value].
  rewrite head_tiles by lia. rewrite <- Hl, substring_whole. reflexivity.
Qed.

Lemma static_call_parts_spell_the_calldata_witness :
  exists r selector rest,
    encodeFunctionCall Example.digest (Example.parseAs Sample.staticParams)
                       (fun _ _ => Some Sample.staticData)
                       "set((uint256 a, uint256 b) p, address q)"
                       [VArray [VBigInt 1; VBigInt 2]; VString "0x03"] = Ok r
    /\ parts r = selector :: rest
    /\ List.length rest = List.length Sample.staticParams
    /\ calldata r = value selector ++ shownDigits rest.
Proof.
  destruct (encodeFunctionCall
              Example.digest (Example.parseAs Sample.staticParams)
              (fun _ _ => Some Sample.staticData)
              "set((uint256 a, uint256 b) p, address q)"
              [VArray [VBigInt 1; VBigInt 2]; VString "0x03"])
    as [r|e] eqn:E; [|vm_compute in E; discriminate E].
  destruct (static_call_parts_spell_the_calldata
              _ _ _ _ _ r Sample.staticParams Sample.staticData E)
    as (selector & rest & H);
    [reflexivity|reflexivity|repeat constructor|vm_compute; reflexivity|].
  exists r, selector, rest. split; [reflexivity|exact H].
Defined.

(** ** The earlier [encodeFunctionCall] *)

Module LegacyFacts.
Import Legacy.

Lemma wordChar_not_space (c : ascii) :
  isWordChar c = true -> JS.isWhiteSpace c = false.
Proof.
  destruct c as [[] [] [] [] [] [] [] []]; try reflexivity; discriminate.
Qed.

Lemma isWord_split (w : string) :
  isWord w = true ->
  exists c w', w = String c w' /\ isWordChar c = true /\ wordChars w' = true.
Proof.
  unfold isWord. destruct w as [|c w']; [discriminate|].
  cbn [negb wordChars andb]. intros H.
  change (String c w' =? "") with false in H. cbn [negb andb] in H.
  apply andb_prop in H as [H1 H2]. exists c, w'. auto.
Qed.

Lemma isWord_chars (w : string) : isWord w = true -> wordChars w = true.
Proof. unfold isWord. intros H. apply andb_prop in H as [_ H]. exact H. Qed.

Lemma indexOf_word (w : string) (c : ascii) :
  wordChars w = true -> isWordChar c = false -> JS.indexOf w c = (-1)%Z.
Proof.
  intros Hw Hc. induction w as [|d w IH]; [reflexivity|].
  cbn [wordChars] in Hw. apply andb_prop in Hw as [Hd Hw].
  cbn [JS.indexOf]. rewrite (IH Hw).
  destruct (Ascii.eqb d c) eqn:E; [|reflexivity].
  apply Ascii.eqb_eq in E. congruence.
Qed.

Lemma indexOf_app_none (a b : string) (c : ascii) :
  JS.indexOf a c = (-1)%Z -> JS.indexOf b c = (-1)%Z ->
  JS.indexOf (a ++ b) c = (-1)%Z.
Proof.
  intros Ha Hb. induction a as [|d a IH]; [exact Hb|].
  change ((String d a) ++ b) with (String d (a ++ b)).
  cbn [JS.indexOf] in *. destruct (Ascii.eqb d c); [discriminate|].
  pose proof (indexOf_range a c) as R.
  destruct (JS.indexOf a c <? 0)%Z eqn:E; [|lia].
  rewrite IH; [reflexivity|lia].
Qed.

Lemma indexOf_cons_none (d : ascii) (a : string) (c : ascii) :
  Ascii.eqb d c = false -> JS.indexOf a c = (-1)%Z ->
  JS.indexOf (String d a) c = (-1)%Z.
Proof. intros Hd Ha. cbn [JS.indexOf]. rewrite Hd, Ha. reflexivity. Qed.

Lemma indexOf_first (a rest : string) (c : ascii) :
  JS.indexOf a c = (-1)%Z ->
  JS.indexOf (a ++ String c rest) c = Z.of_nat (String.length a).
Proof.
  intros Ha. induction a as [|d a IH].
  - cbn [append JS.indexOf String.length]. rewrite Ascii.eqb_refl.
    reflexivity.
  - change ((String d a) ++ String c rest)
      with (String d (a ++ String c rest)).
    cbn [JS.indexOf String.length] in *.
    destruct (Ascii.eqb d c); [discriminate|].
    pose proof (indexOf_range a c) as R.
    destruct (JS.indexOf a c <? 0)%Z eqn:E; [|lia].
    rewrite IH by lia.
    destruct (Z.of_nat (String.length a) <? 0)%Z eqn:E'; lia.
Qed.

Lemma includes_paren_word (w : string) :
  wordChars w = true -> JS.includes w "(" = false.
Proof.
  induction w as [|c w IH]; [reflexivity|]. cbn [wordChars].
  intros H. apply andb_prop in H as [Hc Hw].
  apply includes_paren_build; [|exact (IH Hw)].
  destruct (Ascii.eqb c "(") eqn:E; [|reflexivity].
  apply Ascii.eqb_eq in E. subst c. discriminate.
Qed.

(** *** White space *)

Lemma trimEnd_word (w : string) : wordChars w = true -> JS.trimEnd w = w.
Proof.
  induction w as [|c w IH]; [reflexivity|]. cbn [wordChars].
  intros H. apply andb_prop in H as [Hc Hw].
  cbn [JS.trimEnd]. rewrite (IH Hw), (wordChar_not_space c Hc).
  destruct w; reflexivity.
Qed.

Lemma trimEnd_app_fixed (a b : string) :
  JS.trimEnd b = b -> b <> "" -> JS.trimEnd (a ++ b) = a ++ b.
Proof.
  intros Hb Hn. induction a as [|c a IH]; [exact Hb|].
  change ((String c a) ++ b) with (String c (a ++ b)).
  cbn [JS.trimEnd]. rewrite IH.
  destruct (a ++ b) eqn:E; [|reflexivity].
  destruct a; [cbn in E; congruence|discriminate].
Qed.

Lemma trimEnd_ends_with_word (a w : string) :
  isWord w = true -> JS.trimEnd (a ++ w) = a ++ w.
Proof.
  intros H. apply trimEnd_app_fixed.
  - apply trimEnd_word, isWord_chars, H.
  - destruct w; [discriminate|discriminate].
Qed.

Lemma trimStart_word (w s : string) :
  isWord w = true -> JS.trimStart (w ++ s) = w ++ s.
Proof.
  intros H. destruct (isWord_split w H) as (c & w' & -> & Hc & _).
  change ((String c w') ++ s) with (String c (w' ++ s)).
  cbn [JS.trimStart]. rewrite (wordChar_not_space c Hc). reflexivity.
Qed.

(** *** The expression *)

Lemma countWhile_word (w s : string) :
  wordChars w = true ->
  countWhile isWordChar (w ++ s)
  = String.length w + countWhile isWordChar s.
Proof.
  induction w as [|c w IH]; [reflexivity|]. cbn [wordChars].
  intros H. apply andb_prop in H as [Hc Hw].
  change ((String c w) ++ s) with (String c (w ++ s)).
  cbn [countWhile String.length]. rewrite Hc, (IH Hw). reflexivity.
Qed.

Lemma replaceFrom_skip (x s : string) :
  replaceFrom (x ++ s) (String.length x) = replaceFrom s 0.
Proof.
  induction x as [|c x IH]; [reflexivity|].
  change ((String c x) ++ s) with (String c (x ++ s)).
  cbn [replaceFrom String.length]. exact IH.
Qed.

Lemma keep_char (c : ascii) (s : string) :
  JS.isWhiteSpace c = false ->
  replaceFrom (String c s) 0 = String c (replaceFrom s 0).
Proof.
  intros H. cbn [replaceFrom]. unfold matchLength.
  cbn [countWhile]. rewrite H. reflexivity.
Qed.

Lemma keep_word (w s : string) :
  wordChars w = true -> replaceFrom (w ++ s) 0 = w ++ replaceFrom s 0.
Proof.
  induction w as [|c w IH]; [reflexivity|]. cbn [wordChars].
  intros H. apply andb_prop in H as [Hc Hw].
  change ((String c w) ++ s) with (String c (w ++ s)).
  rewrite (keep_char c _ (wordChar_not_space c Hc)), (IH Hw). reflexivity.
Qed.

(** A space and a word, followed by something that is no word
    character, are removed. *)
Lemma drop_name (w s : string) :
  isWord w = true ->
  countWhile isWordChar s = 0 ->
  replaceFrom (String " " (w ++ s)) 0 = replaceFrom s 0.
Proof.
  intros Hw Hs. pose proof (isWord_chars w Hw) as Hc.
  destruct (isWord_split w Hw) as (c & w' & E & Hc1 & _).
  cbn [replaceFrom]. unfold matchLength.
  assert (S1 : countWhile JS.isWhiteSpace (String " " (w ++ s)) = 1).
  { cbn [countWhile JS.isWhiteSpace]. subst w.
    change ((String c w') ++ s) with (String c (w' ++ s)).
    cbn [countWhile]. rewrite (wordChar_not_space c Hc1). reflexivity. }
  assert (S2 : JS.substringFrom (String " " (w ++ s)) 1 = w ++ s)
    by (apply (substringFrom_app " " (w ++ s))).
  rewrite S1, S2, (countWhile_word w s Hc), Hs, Nat.add_0_r.
  assert (L : (0 <? String.length w)%nat = true)
    by (subst w; reflexivity).
  rewrite L. cbn [Nat.ltb Nat.leb andb].
  replace (1 + String.length w - 1) with (String.length w) by lia.
  apply replaceFrom_skip.
Qed.

Lemma removeArgumentNames_two (name t1 n1 t2 n2 : string) :
  isWord name = true -> isWord t1 = true -> isWord n1 = true ->
  isWord t2 = true -> isWord n2 = true ->
  removeArgumentNames
    (name ++ "(" ++ t1 ++ " " ++ n1 ++ ", " ++ t2 ++ " " ++ n2 ++ ")")
  = name ++ "(" ++ t1 ++ ",)".
Proof.
  intros Hn H1 Hn1 H2 Hn2. unfold removeArgumentNames. cbn [append].
  rewrite (keep_word name _ (isWord_chars _ Hn)).
  rewrite keep_char by reflexivity.
  rewrite (keep_word t1 _ (isWord_chars _ H1)).
  rewrite (drop_name n1 _ Hn1) by reflexivity.
  rewrite keep_char by reflexivity.
  rewrite (drop_name t2 _ H2) by reflexivity.
  rewrite (drop_name n2 _ Hn2) by reflexivity.
  reflexivity.
Qed.

(** *** Splitting *)

Lemma split_none (sep : ascii) (a : string) :
  JS.indexOf a sep = (-1)%Z -> split sep a = [a].
Proof.
  induction a as [|c a IH]; [reflexivity|]. cbn [JS.indexOf split].
  destruct (Ascii.eqb c sep); [discriminate|].
  pose proof (indexOf_range a sep) as R.
  destruct (JS.indexOf a sep <? 0)%Z eqn:E; [|lia].
  intros _. rewrite IH by lia. reflexivity.
Qed.

Lemma split_first (sep : ascii) (a b : string) :
  JS.indexOf a sep = (-1)%Z ->
  split sep (a ++ String sep b) = a :: split sep b.
Proof.
  induction a as [|c a IH].
  - intros _. cbn [append split]. rewrite Ascii.eqb_refl. reflexivity.
  - change ((String c a) ++ String sep b) with (String c (a ++ String sep b)).
    cbn [JS.indexOf split]. destruct (Ascii.eqb c sep); [discriminate|].
    pose proof (indexOf_range a sep) as R.
    destruct (JS.indexOf a sep <? 0)%Z eqn:E; [|lia].
    intros _. rewrite IH by lia. reflexivity.
Qed.

Lemma first_word (t n : string) :
  isWord t = true -> isWord n = true ->
  hd "" (split " " (JS.trim (t ++ " " ++ n))) = t.
Proof.
  intros Ht Hn. unfold JS.trim. rewrite (trimStart_word t _ Ht).
  replace (t ++ " " ++ n) with ((t ++ " ") ++ n)
    by (rewrite app_assoc_s; reflexivity).
  rewrite (trimEnd_ends_with_word _ n Hn), app_assoc_s.
  cbn [append]. rewrite split_first; [reflexivity|].
  apply indexOf_word; [apply isWord_chars, Ht|reflexivity].
Qed.

Lemma first_word_after_space (t n : string) :
  isWord t = true -> isWord n = true ->
  hd "" (split " " (JS.trim (" " ++ t ++ " " ++ n))) = t.
Proof.
  intros Ht Hn.
  replace (JS.trim (" " ++ t ++ " " ++ n)) with (JS.trim (t ++ " " ++ n));
    [apply first_word; assumption|reflexivity].
Qed.

Lemma argTypesOf_two (t1 n1 t2 n2 : string) :
  isWord t1 = true -> isWord n1 = true ->
  isWord t2 = true -> isWord n2 = true ->
  argTypesOf (t1 ++ " " ++ n1 ++ ", " ++ t2 ++ " " ++ n2) = [t1; t2].
Proof.
  intros H1 Hn1 H2 Hn2. unfold argTypesOf.
  replace (t1 ++ " " ++ n1 ++ ", " ++ t2 ++ " " ++ n2)
    with ((t1 ++ " " ++ n1) ++ String "," (" " ++ t2 ++ " " ++ n2)).
  2:{ rewrite !app_assoc_s. reflexivity. }
  rewrite split_first.
  2:{ apply indexOf_app_none;
        [apply indexOf_word; [apply isWord_chars, H1|reflexivity]|].
      cbn [append]. apply indexOf_cons_none; [reflexivity|].
      apply indexOf_word; [apply isWord_chars, Hn1|reflexivity]. }
  rewrite split_none.
  2:{ cbn [append]. apply indexOf_cons_none; [reflexivity|].
      apply indexOf_app_none;
        [apply indexOf_word; [apply isWord_chars, H2|reflexivity]|].
      apply indexOf_cons_none; [reflexivity|].
      apply indexOf_word; [apply isWord_chars, Hn2|reflexivity]. }
  cbn [map]. rewrite (first_word t1 n1 H1 Hn1).
  rewrite (first_word_after_space t2 n2 H2 Hn2).
  cbn [filter].
  destruct (isWord_split t1 H1) as (c1 & w1 & -> & _).
  destruct (isWord_split t2 H2) as (c2 & w2 & -> & _).
  reflexivity.
Qed.

Lemma trim_signature (name rest : string) :
  isWord name = true -> JS.trim (name ++ rest ++ ")") = name ++ rest ++ ")".
Proof.
  intros H. unfold JS.trim. rewrite (trimStart_word name _ H).
  replace (name ++ rest ++ ")") with ((name ++ rest) ++ ")")
    by (rewrite app_assoc_s; reflexivity).
  apply trimEnd_app_fixed; [reflexivity|discriminate].
Qed.

Lemma funcNameWithTypesOf_whole (a : string) :
  JS.indexOf a ")" = (-1)%Z -> funcNameWithTypesOf (a ++ ")") = a ++ ")".
Proof.
  intros H. unfold funcNameWithTypesOf.
  change (a ++ ")") with (a ++ String ")" "").
  rewrite (indexOf_first a "" ")" H).
  unfold JS.substringNum, JS.toIndex. rewrite length_app.
  cbn [String.length].
  replace (Z.to_nat (Z.min (Z.max 0 0) (Z.of_nat (String.length a + 1))))
    with 0 by lia.
  replace (Z.to_nat
             (Z.min (Z.max (Z.of_nat (String.length a) + 1) 0)
                (Z.of_nat (String.length a + 1))))
    with (String.length (a ++ String ")" ""))
    by (rewrite length_app; cbn [String.length]; lia).
  apply substring_whole.
Qed.

Lemma parse_two (name t1 n1 t2 n2 : string) :
  isWord name = true -> isWord t1 = true -> isWord n1 = true ->
  isWord t2 = true -> isWord n2 = true ->
  let input :=
    name ++ "(" ++ t1 ++ " " ++ n1 ++ ", " ++ t2 ++ " " ++ n2 ++ ")" in
  funcSignatureOf (JS.trim input) = name ++ "(" ++ t1 ++ ",)"
  /\ argTypesOf (argsStrOf (JS.trim input)) = [t1; t2].
Proof.
  intros Hn H1 Hn1 H2 Hn2 input.
  assert (T : JS.trim input = input).
  { unfold input.
    replace (name ++ "(" ++ t1 ++ " " ++ n1 ++ ", " ++ t2 ++ " " ++ n2 ++ ")")
      with (name ++ ("(" ++ t1 ++ " " ++ n1 ++ ", " ++ t2 ++ " " ++ n2) ++ ")")
      by (rewrite !app_assoc_s; reflexivity).
    apply trim_signature, Hn. }
  rewrite T. split.
  - unfold funcSignatureOf.
    assert (W : funcNameWithTypesOf input = input).
    { unfold input.
      replace (name ++ "(" ++ t1 ++ " " ++ n1 ++ ", " ++ t2 ++ " " ++ n2 ++ ")")
        with ((name ++ "(" ++ t1 ++ " " ++ n1 ++ ", " ++ t2 ++ " " ++ n2)
                ++ ")")
        by (rewrite !app_assoc_s; reflexivity).
      apply funcNameWithTypesOf_whole.
      apply indexOf_app_none;
        [apply indexOf_word; [apply isWord_chars, Hn|reflexivity]|].
      cbn [append]. apply indexOf_cons_none; [reflexivity|].
      apply indexOf_app_none;
        [apply indexOf_word; [apply isWord_chars, H1|reflexivity]|].
      apply indexOf_cons_none; [reflexivity|].
      apply indexOf_app_none;
        [apply indexOf_word; [apply isWord_chars, Hn1|reflexivity]|].
      apply indexOf_cons_none; [reflexivity|].
      apply indexOf_cons_none; [reflexivity|].
      apply indexOf_app_none;
        [apply indexOf_word; [apply isWord_chars, H2|reflexivity]|].
      apply indexOf_cons_none; [reflexivity|].
      apply indexOf_word; [apply isWord_chars, Hn2|reflexivity]. }
    rewrite W. apply removeArgumentNames_two; assumption.
  - unfold input.
    replace (name ++ "(" ++ t1 ++ " " ++ n1 ++ ", " ++ t2 ++ " " ++ n2 ++ ")")
      with (name ++ "(" ++ (t1 ++ " " ++ n1 ++ ", " ++ t2 ++ " " ++ n2) ++ ")")
      by (rewrite !app_assoc_s; reflexivity).
    rewrite argsStrOf_between
      by (apply includes_paren_word, isWord_chars, Hn).
    apply argTypesOf_two; assumption.
Qed.

Lemma headLoop_dynamic encodeOneDigits toHex32Digits
      (type : string) (rest : list string) (i off : nat)
      (argValues : list Value) (o d : string) :
  isDynamic type = true ->
  toHex32Digits off = Some o ->
  encodeOneDigits type (nth_error argValues i) = Some d ->
  headLoop encodeOneDigits toHex32Digits (type :: rest) i off argValues
  = match headLoop encodeOneDigits toHex32Digits rest (S i)
                   (off + String.length d) argValues with
    | None => None
    | Some (head, dynamicParams, parts) =>
        Some (o :: head,
              (i, type, nth_error argValues i) :: dynamicParams,
              mkPart (ParameterOffset (i + 1)) "bytes32" ("0x" ++ o) None
                :: parts)
    end.
Proof.
  intros D O E. cbn [headLoop]. rewrite D, O, E.
  change (JS.substringFrom ("0x" ++ o) 2)
    with (JS.substringFrom ("0x" ++ o) (String.length "0x")).
  rewrite substringFrom_app.
  replace (String.length ("0x" ++ d) - 2) with (String.length d)
    by (cbn [append String.length]; lia).
  reflexivity.
Qed.

Lemma tailLoop_step encodeOneDigits (index : nat) (type : string)
      (v : option Value) (rest : list DynamicParam) (d : string) :
  encodeOneDigits type v = Some d ->
  tailLoop encodeOneDigits ((index, type, v) :: rest)
  = match tailLoop encodeOneDigits rest with
    | None => None
    | Some (tail, parts) =>
        Some (JS.substringFrom d 64 :: tail,
              mkPart (ParameterTailLength (index + 1)) "uint256"
                     ("0x" ++ JS.substring (JS.substringFrom d 64) 0 64)
                     (Some (LengthOfData type))
              :: mkPart (ParameterTailData (index + 1)) type
                        ("0x" ++ JS.substringFrom (JS.substringFrom d 64) 64)
                        (Some (DataAndPaddingFor type))
              :: parts)
    end.
Proof.
  intros E. cbn [tailLoop]. rewrite E.
  change (JS.substringFrom ("0x" ++ d) 2)
    with (JS.substringFrom ("0x" ++ d) (String.length "0x")).
  rewrite substringFrom_app. reflexivity.
Qed.

Lemma headLoop_lengths encodeOneDigits toHex32Digits
      (argTypes : list string) (argValues : list Value) :
  forall i off head dynamicParams parts,
    headLoop encodeOneDigits toHex32Digits argTypes i off argValues
    = Some (head, dynamicParams, parts) ->
    List.length head = List.length argTypes
    /\ List.length parts = List.length argTypes
    /\ List.length dynamicParams = List.length (filter isDynamic argTypes).
Proof.
  induction argTypes as [|type rest IH]; intros i off head dyn parts H.
  - cbn [headLoop] in H. inversion H. repeat split; reflexivity.
  - cbn [headLoop filter] in H |- *. destruct (isDynamic type).
    + destruct (toHex32Digits off) as [o|]; [|discriminate].
      destruct (encodeOneDigits type (nth_error argValues i)) as [d|];
        [|discriminate].
      destruct (headLoop encodeOneDigits toHex32Digits rest (S i) _ argValues)
        as [[[h' d'] p']|] eqn:E; [|discriminate].
      destruct (IH _ _ _ _ _ E) as (A & B & C).
      inversion H; subst. cbn [List.length]. lia.
    + destruct (encodeOneDigits type (nth_error argValues i)) as [d|];
        [|discriminate].
      destruct (headLoop encodeOneDigits toHex32Digits rest (S i) _ argValues)
        as [[[h' d'] p']|] eqn:E; [|discriminate].
      destruct (IH _ _ _ _ _ E) as (A & B & C).
      inversion H; subst. cbn [List.length]. lia.
Qed.

Lemma tailLoop_lengths encodeOneDigits (dynamicParams : list DynamicParam) :
  forall tail parts,
    tailLoop encodeOneDigits dynamicParams = Some (tail, parts) ->
    List.length tail = List.length dynamicParams
    /\ List.length parts = 2 * List.length dynamicParams.
Proof.
  induction dynamicParams as [|[[index type] v] rest IH]; intros tail parts H.
  - cbn [tailLoop] in H. inversion H. split; reflexivity.
  - cbn [tailLoop] in H.
    destruct (encodeOneDigits type v) as [d|]; [|discriminate].
    destruct (tailLoop encodeOneDigits rest) as [[t' p']|] eqn:E;
      [|discriminate].
    destruct (IH _ _ eq_refl) as (A & B).
    inversion H; subst. cbn [List.length]. lia.
Qed.
End LegacyFacts.

(** X16.  In the earlier [encodeFunctionCall] the expression that
    removes argument names also removes a type that follows white space:
    for [name(t1 n1, t2 n2)], written with a space after the comma, the
    types encoded are [t1] and [t2], but the signature that is hashed
    for the selector is [name(t1,)]. *)
Theorem earlier_encoder_drops_the_type_after_a_space :
  forall keccakDigits encodeOneDigits toHex32Digits
         (name t1 n1 t2 n2 : string) (argValues : list Value)
         (r : Legacy.EncodeResult),
    Legacy.isWord name = true ->
    Legacy.isWord t1 = true -> Legacy.isWord n1 = true ->
    Legacy.isWord t2 = true -> Legacy.isWord n2 = true ->
    let input :=
      name ++ "(" ++ t1 ++ " " ++ n1 ++ ", " ++ t2 ++ " " ++ n2 ++ ")" in
    Legacy.encodeFunctionCall keccakDigits encodeOneDigits toHex32Digits
                              input argValues = Some r ->
    Legacy.argTypesOf (argsStrOf (JS.trim input)) = [t1; t2]
    /\ hd_error (Legacy.parts r)
       = Some (Legacy.mkPart
                 Legacy.FunctionSelector "bytes4"
                 (selectorOf keccakDigits (name ++ "(" ++ t1 ++ ",)"))
                 (Some (Legacy.Keccak256Of (name ++ "(" ++ t1 ++ ",)")))).
Proof.
  intros k enc hex name t1 n1 t2 n2 vals r Hn H1 Hn1 H2 Hn2 input H.
  destruct (LegacyFacts.parse_two name t1 n1 t2 n2 Hn H1 Hn1 H2 Hn2)
    as [S A].
  fold input in S, A. split; [exact A|].
  unfold Legacy.encodeFunctionCall in H. rewrite S in H.
  destruct (Legacy.headLoop _ _ _ _ _ _) as [[[head dyn] hs]|]; [|discriminate].
  destruct (Legacy.tailLoop _ _) as [[tail ts]|]; [|discriminate].
  apply (f_equal (fun o => match o with
                           | Some x => Legacy.parts x
                           | None => []
                           end)) in H.
  rewrite <- H. reflexivity.
Qed.

Lemma earlier_encoder_drops_the_type_after_a_space_witness :
  exists r,
    Legacy.encodeFunctionCall
      Example.digest (fun _ _ => Some (Abi.word 1))
      (fun _ => Some (Abi.word 0))
      "transfer(address to, uint256 amount)" [VString "0x01"; VBigInt 1]
    = Some r
    /\ Legacy.argTypesOf
         (argsStrOf (JS.trim "transfer(address to, uint256 amount)"))
       = ["address"; "uint256"]
    /\ hd_error (Legacy.parts r)
       = Some (Legacy.mkPart
                 Legacy.FunctionSelector "bytes4"
                 (selectorOf Example.digest "transfer(address,)")
                 (Some (Legacy.Keccak256Of "transfer(address,)"))).
Proof.
  destruct (Legacy.encodeFunctionCall
              Example.digest (fun _ _ => Some (Abi.word 1))
              (fun _ => Some (Abi.word 0))
              "transfer(address to, uint256 amount)"
              [VString "0x01"; VBigInt 1]) as [r|] eqn:E;
    [|vm_compute in E; discriminate E].
  exists r. split; [reflexivity|].
  apply (earlier_encoder_drops_the_type_after_a_space
           Example.digest (fun _ _ => Some (Abi.word 1))
           (fun _ => Some (Abi.word 0))
           "transfer" "address" "to" "uint256" "amount"
           [VString "0x01"; VBigInt 1] r); try reflexivity.
  exact E.
Defined.

Lemma substringFrom_skip (a b : string) (n : nat) :
  JS.substringFrom (a ++ b) (String.length a + n) = JS.substringFrom b n.
Proof.
  unfold JS.substringFrom, JS.substring. rewrite length_app.
  match goal with
  | |- String.substring ?x ?y _ = String.substring ?x' ?y' _ =>
      replace y with y' by lia;
      replace x with (String.length a + x') by lia
  end.
  apply stdsub_skip_app.
Qed.

(** X17.  In the earlier [encodeFunctionCall] the tail offset advances
    by the whole encoding of a dynamic parameter, its leading offset
    word included, while the tail appended leaves that word out.  So for
    two dynamic parameters the second tail starts 32 bytes before the
    place its head word names: that place holds the second tail without
    its length word. *)
Theorem earlier_encoder_second_offset_is_32_bytes_late :
  forall keccakDigits encodeOneDigits toHex32Digits
         (input : string) (argValues : list Value)
         (t1 t2 d1 d2 o1 o2 : string),
    Legacy.argTypesOf (argsStrOf (JS.trim input)) = [t1; t2] ->
    Legacy.isDynamic t1 = true ->
    Legacy.isDynamic t2 = true ->
    encodeOneDigits t1 (nth_error argValues 0) = Some d1 ->
    encodeOneDigits t2 (nth_error argValues 1) = Some d2 ->
    toHex32Digits 128 = Some o1 ->
    toHex32Digits (128 + String.length d1) = Some o2 ->
    String.length o1 = 64 ->
    String.length o2 = 64 ->
    64 <= String.length d1 ->
    let tail1 := JS.substringFrom d1 64 in
    let tail2 := JS.substringFrom d2 64 in
    let data := o1 ++ o2 ++ tail1 ++ tail2 in
    exists r,
      Legacy.encodeFunctionCall keccakDigits encodeOneDigits toHex32Digits
                                input argValues = Some r
      /\ Legacy.calldata r
         = selectorOf keccakDigits (Legacy.funcSignatureOf (JS.trim input))
           ++ data
      /\ JS.substringFrom data (128 + String.length d1 - 64) = tail2
      /\ JS.substringFrom data (128 + String.length d1)
         = JS.substringFrom tail2 64.
Proof.
  intros k enc hex input vals t1 t2 d1 d2 o1 o2 A D1 D2 E1 E2 O1 O2 L1 L2 Ld
         tail1 tail2 data.
  assert (Lt : String.length tail1 = String.length d1 - 64)
    by apply length_substringFrom.
  assert (P : String.length (o1 ++ o2 ++ tail1) = 64 + String.length d1)
    by (rewrite !length_app; lia).
  assert (Ed : data = (o1 ++ o2 ++ tail1) ++ tail2)
    by (unfold data; rewrite !app_assoc_s; reflexivity).
  eexists. split.
  { unfold Legacy.encodeFunctionCall. rewrite A.
    change (List.length [t1; t2] * 64) with 128.
    rewrite (LegacyFacts.headLoop_dynamic enc hex t1 [t2] 0 128 vals o1 d1
               D1 O1 E1).
    rewrite (LegacyFacts.headLoop_dynamic enc hex t2 [] 1
               (128 + String.length d1) vals o2 d2 D2 O2 E2).
    cbn [Legacy.headLoop].
    rewrite (LegacyFacts.tailLoop_step enc 0 t1 _ _ d1 E1).
    rewrite (LegacyFacts.tailLoop_step enc 1 t2 _ _ d2 E2).
    cbn [Legacy.tailLoop]. reflexivity. }
  cbn [Legacy.calldata]. split; [|split].
  - cbn [String.concat]. fold tail1 tail2. unfold data.
    rewrite !app_assoc_s. reflexivity.
  - rewrite Ed.
    replace (128 + String.length d1 - 64)
      with (String.length (o1 ++ o2 ++ tail1)) by lia.
    apply substringFrom_app.
  - rewrite Ed.
    replace (128 + String.length d1)
      with (String.length (o1 ++ o2 ++ tail1) + 64) by lia.
    apply substringFrom_skip.
Qed.

Lemma earlier_encoder_second_offset_is_32_bytes_late_witness :
  let d1 := Abi.word 32 ++ Abi.word 2 ++ JS.padEnd "6869" 64 in
  let d2 := Abi.word 32 ++ Abi.word 3 ++ JS.padEnd "616263" 64 in
  let encodeOne := fun (_ : string) (v : option Value) =>
                     match v with
                     | Some (VString "hi") => Some d1
                     | _ => Some d2
                     end in
  let toHex32 := fun n => Some (Abi.word (Z.of_nat (n / 2))) in
  let data := Abi.word 64 ++ Abi.word 160
              ++ JS.substringFrom d1 64 ++ JS.substringFrom d2 64 in
  exists r,
    Legacy.encodeFunctionCall Example.digest encodeOne toHex32
                              "f(string a,string b)"
                              [VString "hi"; VString "abc"] = Some r
    /\ Legacy.calldata r
       = selectorOf Example.digest
                    (Legacy.funcSignatureOf (JS.trim "f(string a,string b)"))
         ++ data
    /\ JS.substringFrom data (128 + String.length d1 - 64)
       = JS.substringFrom d2 64
    /\ JS.substringFrom data (128 + String.length d1)
       = JS.substringFrom (JS.substringFrom d2 64) 64.
Proof.
  intros d1 d2 encodeOne toHex32 data.
  apply (earlier_encoder_second_offset_is_32_bytes_late
           Example.digest encodeOne toHex32 "f(string a,string b)"
           [VString "hi"; VString "abc"] "string" "string" d1 d2
           (Abi.word 64) (Abi.word 160));
    try (vm_compute; reflexivity).
  vm_compute. lia.
Defined.

(** X18.  A result of the earlier [encodeFunctionCall] shows the
    selector, then one part per argument type (the value of a static
    parameter, the offset of a dynamic one), then two parts per dynamic
    parameter, its length word and its data. *)
Theorem earlier_encoder_parts_per_parameter :
  forall keccakDigits encodeOneDigits toHex32Digits
         (input : string) (argValues : list Value)
         (r : Legacy.EncodeResult),
    Legacy.encodeFunctionCall keccakDigits encodeOneDigits toHex32Digits
                              input argValues = Some r ->
    let argTypes := Legacy.argTypesOf (argsStrOf (JS.trim input)) in
    List.length (Legacy.parts r)
    = 1 + List.length argTypes
      + 2 * List.length (filter Legacy.isDynamic argTypes).
Proof.
  intros k enc hex input vals r H argTypes.
  unfold Legacy.encodeFunctionCall in H. fold argTypes in H.
  destruct (Legacy.headLoop enc hex argTypes 0 _ vals)
    as [[[head dyn] hs]|] eqn:E1; [|discriminate].
  destruct (Legacy.tailLoop enc dyn) as [[tail ts]|] eqn:E2; [|discriminate].
  destruct (LegacyFacts.headLoop_lengths _ _ _ _ _ _ _ _ _ E1) as (_ & A & B).
  destruct (LegacyFacts.tailLoop_lengths _ _ _ _ E2) as (_ & C).
  apply (f_equal (fun o => match o with
                           | Some x => Legacy.parts x
                           | None => []
                           end)) in H.
  rewrite <- H. cbn [Legacy.parts List.length]. rewrite List.length_app. lia.
Qed.

Lemma earlier_encoder_parts_per_parameter_witness :
  exists r,
    Legacy.encodeFunctionCall
      Example.digest (fun _ _ => Some (Abi.word 32 ++ Abi.word 0))
      (fun n => Some (Abi.word (Z.of_nat (n / 2))))
      "f(uint256 a,string b)" [VBigInt 1; VString ""] = Some r
    /\ List.length (Legacy.parts r) = 1 + 2 + 2 * 1.
Proof.
  destruct (Legacy.encodeFunctionCall
              Example.digest (fun _ _ => Some (Abi.word 32 ++ Abi.word 0))
              (fun n => Some (Abi.word (Z.of_nat (n / 2))))
              "f(uint256 a,string b)" [VBigInt 1; VString ""])
    as [r|] eqn:E; [|vm_compute in E; discriminate E].
  exists r. split; [reflexivity|].
  exact (earlier_encoder_parts_per_parameter _ _ _ _ _ r E).
Defined.
